(** * electron-hunspell: the SpellCheckerProvider of src/spellCheckerProvider.ts

    A shallow embedding of the provider class: the dictionary table, the
    selection state, the reference counts of mounted directories and the
    spell-check callback handed to the host's webFrame.

    Conventions of the embedding.
    - The provider object is a record; every method is a computation in a
      state-and-exception monad over that record.  As in JavaScript, a
      thrown exception keeps whatever was mutated before the throw.
    - The packages the class is written against (hunspell-asm, Node's path,
      unixify, process.type) are interfaces: type classes whose members the
      provider calls.  Calls into the engine and into the host are recorded,
      in order, in the [effects] field; calls to the logger in [logged].
      The members of the interfaces are functions: what is proved is about
      the runs in which the calls into the engine and the platform return.
    - Closures stored in the object (the disposer of an entry, the callback
      given to the host) are defunctionalised: one constructor per closure
      of the source, carrying the variables the closure captures.  They read
      the provider state when they run, as the closures read [this].
    - [spellCheckerTable] is a plain JavaScript object used as a map.  Its
      own properties are an association list kept in the order of
      [Object.keys]: array indices first, in ascending order, then the other
      keys in the order of their creation.  A read [table[key]] also finds
      the members every object inherits from Object.prototype
      ([constructor], [toString], [__proto__], ...): see [Table.lookup].
    - [fileMountRefCount] is a plain object as well, keyed by the
      directories of mounted paths.  These are absolute paths of the
      engine's file system and name no member of Object.prototype: the
      object is a finite map.
    - [initialize] is an async function with one [await]: it is two steps,
      the call up to the await and its resumption when the awaited
      [loadModule()] has settled, and other calls may come between the two.
      The other methods have no await and run to their end; what the
      async [loadDictionary] throws is the rejection of its promise.
    - Numbers are [Z]; [Number.NEGATIVE_INFINITY], the initial start time,
      is [None], the only non-integer the field ever holds.  [Date.now()]
      is an input of the method that reads the clock. *)

From Stdlib Require Import ZArith Lia Bool Sorting.Sorted.
From stdpp Require Import gmap strings list fin_maps pretty.

Open Scope string_scope.
Open Scope Z_scope.
Open Scope list_scope.

(** ** Interfaces of the engine and of the platform *)

(** An engine instance (interface Hunspell of hunspell-asm); [dispose] is an
    effect, see [Effect]. *)
Record Hunspell := {
  spell : string -> bool;
  suggest : string -> list string
}.

(** ArrayBufferView contents. *)
Definition ArrayBufferView := list Byte.byte.

(** HunspellFactory of hunspell-asm.  [mountDirectory] and [mountBuffer]
    return the mounted path; a buffer mount is named by the engine, possibly
    differently at every call, hence the number of calls recorded before
    it. *)
Class HunspellFactory := {
  mountDirectory : string -> string;
  mountBuffer : nat -> ArrayBufferView -> string;
  create : string -> string -> Hunspell
}.

(** Node's path module, the unixify package and process.type. *)
Class Platform := {
  path_dirname : string -> string;
  path_basename : string -> string;
  path_join : string -> string -> string;
  unixify : string -> string;
  process_type : string
}.

(** ** Data model *)

(** The closure given to webFrame.setSpellCheckProvider: the [provider]
    arrow function of [attach], which captures [key] and
    [checkAllDictionaries], or the [() => true] of [unloadDictionary]. *)
Inductive Callback :=
| provider (key : string) (checkAllDictionaries : bool)
| alwaysTrue.

(** The [dispose] closure of an entry: [unmountFile] or [unmountBuffer] of
    [assignSpellchecker], with the variables it captures. *)
Inductive Disposer :=
| unmountFile (affPath dicPath : string) (hunspell : Hunspell)
| unmountBuffer (key affPath dicPath : string) (hunspell : Hunspell).

(** interface SpellChecker *)
Record SpellChecker := {
  spellChecker : Hunspell;
  uptime : Z;
  dispose : Disposer
}.

Inductive Effect :=
| LoadModule
| MountDirectory (dir : string)
| MountBuffer (contents : ArrayBufferView)
| Unmount (mountedPath : string)
| Create (affPath dicPath : string)
| Dispose (hunspell : Hunspell)
| Spell (hunspell : Hunspell) (text : string)
| Suggest (hunspell : Hunspell) (text : string)
| SetSpellCheckProvider (language : string) (autoCorrectWord : bool)
    (spellCheck : Callback).

(** The two kinds of argument of loadDictionary: [string | ArrayBufferView]. *)
Inductive Source :=
| FilePath (p : string)
| Buffer (b : ArrayBufferView).

Inductive LogLevel := LogDebug | LogInfo | LogWarn | LogError.

Inductive Exception :=
| JsError (message : string)
| TypeError.

(** How an awaited promise settles. *)
Inductive Settled :=
| Fulfilled
| Rejected (reason : Exception).

(** The fields of the class, the host's callback, the calls of [initialize]
    that await their [loadModule()], and the two traces. *)
Record SpellCheckerProvider := {
  hunspellFactory : bool;
  loading : nat;
  spellCheckerTable : list (string * SpellChecker);
  currentSpellCheckerKey : option string;
  verboseLog : bool;
  fileMountRefCount : gmap string Z;
  currentSpellCheckerStartTime : option Z;
  webFrameProvider : option Callback;
  effects : list Effect;
  logged : list (LogLevel * string)
}.

(** [new SpellCheckerProvider()] *)
Definition newProvider : SpellCheckerProvider := {|
  hunspellFactory := false;
  loading := 0;
  spellCheckerTable := [];
  currentSpellCheckerKey := None;
  verboseLog := false;
  fileMountRefCount := ∅;
  currentSpellCheckerStartTime := None;
  webFrameProvider := None;
  effects := [];
  logged := []
|}.

(** ** The table as a JavaScript object *)

Module Table.

(** The own property of the table for [key], if it has one. *)
Fixpoint get (t : list (string * SpellChecker)) (key : string)
  : option SpellChecker :=
  match t with
  | [] => None
  | (k, c) :: t' => if decide (k = key) then Some c else get t' key
  end.

(** The members a plain object inherits from Object.prototype in V8, the
    engine of Electron.  All are functions but [__proto__], which reads as
    Object.prototype itself: every one is truthy, and none has a
    [spellChecker] or a [dispose] member. *)
Definition prototypeMembers : list string :=
  ["constructor"; "__defineGetter__"; "__defineSetter__"; "hasOwnProperty";
   "__lookupGetter__"; "__lookupSetter__"; "isPrototypeOf";
   "propertyIsEnumerable"; "toString"; "valueOf"; "__proto__";
   "toLocaleString"].

Definition inherited (key : string) : bool :=
  bool_decide (key ∈ prototypeMembers).

(** What [table[key]] evaluates to: the own entry, a member inherited from
    Object.prototype, or [undefined]. *)
Inductive Property :=
| Own (c : SpellChecker)
| Inherited
| Undefined.

(** [table[key]] *)
Definition lookup (t : list (string * SpellChecker)) (key : string)
  : Property :=
  match get t key with
  | Some c => Own c
  | None => if inherited key then Inherited else Undefined
  end.

(** The value of a decimal numeral, after the digits read so far. *)
Fixpoint numeral (s : string) (acc : N) : option N :=
  match s with
  | EmptyString => Some acc
  | String a s' =>
      let n := Ascii.N_of_ascii a in
      if ((48 <=? n) && (n <=? 57))%N
      then numeral s' (10 * acc + (n - 48))%N
      else None
  end.

(** The array index a key denotes, if it is one: the canonical numeral (no
    leading zero) of an integer up to 2^32 - 2. *)
Definition arrayIndex (key : string) : option N :=
  match key with
  | EmptyString => None
  | String a rest =>
      if Ascii.eqb a (Ascii.ascii_of_nat 48) && negb (bool_decide (rest = ""))
      then None
      else match numeral key 0 with
           | Some n => if (n <=? 4294967294)%N then Some n else None
           | None => None
           end
  end.

(** A new key [key] is listed before the existing key [k]: array indices
    come first, in ascending order, then the other keys in the order of
    their creation. *)
Definition precedes (key k : string) : bool :=
  match arrayIndex key, arrayIndex k with
  | Some n, Some m => (n <? m)%N
  | Some _, None => true
  | None, _ => false
  end.

(** A new property takes its place in the order of the keys. *)
Fixpoint insert (key : string) (c : SpellChecker)
    (t : list (string * SpellChecker)) : list (string * SpellChecker) :=
  match t with
  | [] => [(key, c)]
  | (k, c0) :: t' =>
      if precedes key k then (key, c) :: (k, c0) :: t'
      else (k, c0) :: insert key c t'
  end.

(** An existing property keeps its place. *)
Fixpoint replace (key : string) (c : SpellChecker)
    (t : list (string * SpellChecker)) : list (string * SpellChecker) :=
  match t with
  | [] => []
  | (k, c0) :: t' =>
      if decide (k = key) then (k, c) :: t' else (k, c0) :: replace key c t'
  end.

(** [table[key] = c], for a key other than [__proto__]: the class assigns
    to keys that passed the guard of loadDictionary or that hold an entry
    already, and [__proto__] is neither. *)
Definition set (key : string) (c : SpellChecker)
    (t : list (string * SpellChecker)) : list (string * SpellChecker) :=
  match get t key with
  | Some _ => replace key c t
  | None => insert key c t
  end.

(** [delete table[key]] *)
Fixpoint delete (key : string) (t : list (string * SpellChecker))
  : list (string * SpellChecker) :=
  match t with
  | [] => []
  | (k, c) :: t' =>
      if decide (k = key) then delete key t' else (k, c) :: delete key t'
  end.

(** [Object.keys(table)] *)
Definition keys (t : list (string * SpellChecker)) : list string :=
  fst <$> t.

End Table.

(** ** The monad of methods *)

Definition M (A : Type) : Type :=
  SpellCheckerProvider -> (Exception + A) * SpellCheckerProvider.

Definition ret {A} (a : A) : M A := fun st => (inr a, st).

Definition bind {A B} (m : M A) (f : A -> M B) : M B :=
  fun st =>
    match m st with
    | (inl e, st') => (inl e, st')
    | (inr a, st') => f a st'
    end.

Definition throw {A} (e : Exception) : M A := fun st => (inl e, st).

Definition this : M SpellCheckerProvider := fun st => (inr st, st).

Definition update (f : SpellCheckerProvider -> SpellCheckerProvider)
  : M unit := fun st => (inr tt, f st).

Declare Scope js_scope.
Delimit Scope js_scope with js.
Notation "'let*' x := m 'in' k" := (bind m (fun x => k))
  (at level 10, x name, m at level 100, k at level 200) : js_scope.
Notation "m ;;; k" := (bind m (fun _ => k))
  (at level 100, k at level 200, right associativity) : js_scope.
Open Scope js_scope.

(** Run a method and keep the state it leaves. *)
Definition exec {A} (m : M A) (st : SpellCheckerProvider)
  : SpellCheckerProvider := snd (m st).

(** Field assignments. *)
Definition set_hunspellFactory (b : bool) (st : SpellCheckerProvider) :=
  {| hunspellFactory := b;
     loading := loading st;
     spellCheckerTable := spellCheckerTable st;
     currentSpellCheckerKey := currentSpellCheckerKey st;
     verboseLog := verboseLog st;
     fileMountRefCount := fileMountRefCount st;
     currentSpellCheckerStartTime := currentSpellCheckerStartTime st;
     webFrameProvider := webFrameProvider st;
     effects := effects st;
     logged := logged st |}.

Definition set_loading (n : nat) (st : SpellCheckerProvider) :=
  {| hunspellFactory := hunspellFactory st;
     loading := n;
     spellCheckerTable := spellCheckerTable st;
     currentSpellCheckerKey := currentSpellCheckerKey st;
     verboseLog := verboseLog st;
     fileMountRefCount := fileMountRefCount st;
     currentSpellCheckerStartTime := currentSpellCheckerStartTime st;
     webFrameProvider := webFrameProvider st;
     effects := effects st;
     logged := logged st |}.

Definition set_spellCheckerTable (t : list (string * SpellChecker))
    (st : SpellCheckerProvider) :=
  {| hunspellFactory := hunspellFactory st;
     loading := loading st;
     spellCheckerTable := t;
     currentSpellCheckerKey := currentSpellCheckerKey st;
     verboseLog := verboseLog st;
     fileMountRefCount := fileMountRefCount st;
     currentSpellCheckerStartTime := currentSpellCheckerStartTime st;
     webFrameProvider := webFrameProvider st;
     effects := effects st;
     logged := logged st |}.

Definition set_currentSpellCheckerKey (k : option string)
    (st : SpellCheckerProvider) :=
  {| hunspellFactory := hunspellFactory st;
     loading := loading st;
     spellCheckerTable := spellCheckerTable st;
     currentSpellCheckerKey := k;
     verboseLog := verboseLog st;
     fileMountRefCount := fileMountRefCount st;
     currentSpellCheckerStartTime := currentSpellCheckerStartTime st;
     webFrameProvider := webFrameProvider st;
     effects := effects st;
     logged := logged st |}.

Definition set_verboseLog (b : bool) (st : SpellCheckerProvider) :=
  {| hunspellFactory := hunspellFactory st;
     loading := loading st;
     spellCheckerTable := spellCheckerTable st;
     currentSpellCheckerKey := currentSpellCheckerKey st;
     verboseLog := b;
     fileMountRefCount := fileMountRefCount st;
     currentSpellCheckerStartTime := currentSpellCheckerStartTime st;
     webFrameProvider := webFrameProvider st;
     effects := effects st;
     logged := logged st |}.

Definition set_fileMountRefCount (rc : gmap string Z)
    (st : SpellCheckerProvider) :=
  {| hunspellFactory := hunspellFactory st;
     loading := loading st;
     spellCheckerTable := spellCheckerTable st;
     currentSpellCheckerKey := currentSpellCheckerKey st;
     verboseLog := verboseLog st;
     fileMountRefCount := rc;
     currentSpellCheckerStartTime := currentSpellCheckerStartTime st;
     webFrameProvider := webFrameProvider st;
     effects := effects st;
     logged := logged st |}.

Definition set_currentSpellCheckerStartTime (t : option Z)
    (st : SpellCheckerProvider) :=
  {| hunspellFactory := hunspellFactory st;
     loading := loading st;
     spellCheckerTable := spellCheckerTable st;
     currentSpellCheckerKey := currentSpellCheckerKey st;
     verboseLog := verboseLog st;
     fileMountRefCount := fileMountRefCount st;
     currentSpellCheckerStartTime := t;
     webFrameProvider := webFrameProvider st;
     effects := effects st;
     logged := logged st |}.

Definition set_webFrameProvider (p : option Callback)
    (st : SpellCheckerProvider) :=
  {| hunspellFactory := hunspellFactory st;
     loading := loading st;
     spellCheckerTable := spellCheckerTable st;
     currentSpellCheckerKey := currentSpellCheckerKey st;
     verboseLog := verboseLog st;
     fileMountRefCount := fileMountRefCount st;
     currentSpellCheckerStartTime := currentSpellCheckerStartTime st;
     webFrameProvider := p;
     effects := effects st;
     logged := logged st |}.

Definition set_effects (es : list Effect) (st : SpellCheckerProvider) :=
  {| hunspellFactory := hunspellFactory st;
     loading := loading st;
     spellCheckerTable := spellCheckerTable st;
     currentSpellCheckerKey := currentSpellCheckerKey st;
     verboseLog := verboseLog st;
     fileMountRefCount := fileMountRefCount st;
     currentSpellCheckerStartTime := currentSpellCheckerStartTime st;
     webFrameProvider := webFrameProvider st;
     effects := es;
     logged := logged st |}.

Definition set_logged (l : list (LogLevel * string))
    (st : SpellCheckerProvider) :=
  {| hunspellFactory := hunspellFactory st;
     loading := loading st;
     spellCheckerTable := spellCheckerTable st;
     currentSpellCheckerKey := currentSpellCheckerKey st;
     verboseLog := verboseLog st;
     fileMountRefCount := fileMountRefCount st;
     currentSpellCheckerStartTime := currentSpellCheckerStartTime st;
     webFrameProvider := webFrameProvider st;
     effects := effects st;
     logged := l |}.

(** A call into the engine or the host, recorded after the earlier ones. *)
Definition emit (e : Effect) : M unit :=
  update (fun st => set_effects (effects st ++ [e]) st).

(** Modelled from the spec: the logger of src/util/logger.ts is not among
    the sources.  A call of [log.debug], [log.info], [log.warn] or
    [log.error] is recorded with its level and its message (without the
    objects passed after the message) and does nothing else. *)
Definition log (lvl : LogLevel) (message : string) : M unit :=
  update (fun st => set_logged (logged st ++ [(lvl, message)]) st).

(** [!value] and [!!value] for a string and for [string | null]. *)
Definition falsy (s : string) : bool := bool_decide (s = "").

Definition truthy (k : option string) : bool :=
  match k with
  | Some s => negb (falsy s)
  | None => false
  end.

(** [!table[key]]: an own entry is an object and an inherited member a
    function or an object, all truthy. *)
Definition undefined (p : Table.Property) : bool :=
  match p with
  | Table.Undefined => true
  | _ => false
  end.

(** Template-literal rendering of [string | null]. *)
Definition show_key (k : option string) : string :=
  match k with
  | Some s => s
  | None => "null"
  end.

(** ** The methods of the class *)

Section Provider.

Context `{factory : HunspellFactory} `{platform : Platform}.

(** A member access on [this.hunspellFactory], undefined until
    [initialize] has run. *)
Definition useFactory : M unit :=
  let* st := this in
  if hunspellFactory st then ret tt else throw TypeError.

(** get availableDictionaries: lodash's orderBy is a stable sort; with one
    iteratee and 'desc' it orders by descending uptime and keeps the
    earlier of two equal elements first. *)
Fixpoint orderBy_insert (x : string * Z) (l : list (string * Z))
  : list (string * Z) :=
  match l with
  | [] => [x]
  | y :: l' => if x.2 <? y.2 then y :: orderBy_insert x l' else x :: l
  end.

Definition orderBy_uptime_desc (l : list (string * Z)) : list (string * Z) :=
  foldr orderBy_insert [] l.

Definition availableDictionaries (st : SpellCheckerProvider) : list string :=
  let array := (fun kc => (kc.1, uptime kc.2)) <$> spellCheckerTable st in
  fst <$> orderBy_uptime_desc array.

(** get selectedDictionary *)
Definition selectedDictionary (st : SpellCheckerProvider) : option string :=
  currentSpellCheckerKey st.

(** initialize, from the call to its return or to its [await]: with no
    factory yet it logs, calls [loadModule()] and waits for the promise. *)
Definition initialize : M unit :=
  let* st := this in
  if hunspellFactory st then ret tt
  else
    log LogInfo "Electron-hunspell::loadAsmModule: loading hunspell-asm module" ;;;
    emit LoadModule ;;;
    update (fun s => set_loading (S (loading s)) s).

(** initialize, from its [await] on: the promise of [loadModule()] has
    settled.  A module is assigned to the field and logged; a rejection is
    thrown on, the field as it was.  With no call waiting nothing
    happens. *)
Definition initializeResumed (outcome : Settled) : M unit :=
  let* st := this in
  match loading st with
  | O => ret tt
  | S n =>
      update (set_loading n) ;;;
      match outcome with
      | Fulfilled =>
          update (set_hunspellFactory true) ;;;
          log LogInfo "Electron-hunspell::loadAsmModule: asm module loaded successfully"
      | Rejected reason => throw reason
      end
  end.

(** setProvider: the webFrame exists in a renderer process only. *)
Definition setProvider (key : string) (cb : Callback) : M unit :=
  if bool_decide (process_type = "renderer") then
    emit (SetSpellCheckProvider key true cb) ;;;
    update (set_webFrameProvider (Some cb))
  else
    log LogWarn "Electron-hunspell::attach: Cannot lookup webFrame to set spell checker provider".

(** attach *)
Definition attach (key : string) (checkAllDictionaries : bool) : M unit :=
  setProvider key (provider key checkAllDictionaries).

(** switchDictionary; [now1] and [now2] are the two readings of
    [Date.now()], the first taken only when the start time is an
    integer.  The guard of line 83 tests [table[key]] for truthiness, which
    an inherited member passes like an entry. *)
Definition switchDictionary (key : string) (checkAllDictionaries : bool)
    (now1 now2 : Z) : M unit :=
  let* st := this in
  if falsy key || undefined (Table.lookup (spellCheckerTable st) key) then
    throw (JsError ("Spellchecker dictionary for " +:+ key +:+
                    " is not available, ensure dictionary loaded"))
  else
    log LogInfo ("Electron-hunspell::switchDictionary: switching dictionary to check spell from '" +:+
              show_key (currentSpellCheckerKey st) +:+ "' to '" +:+ key +:+ "'") ;;;
    match currentSpellCheckerStartTime st with
    | Some start =>
        let timePassed := now1 - start in
        let currentKey := currentSpellCheckerKey st in
        match currentKey with
        | Some k =>
            if truthy currentKey then
              match Table.lookup (spellCheckerTable st) k with
              | Table.Own c =>
                  let c' := {| spellChecker := spellChecker c;
                               uptime := uptime c + timePassed;
                               dispose := dispose c |} in
                  update (fun s => set_spellCheckerTable
                                     (Table.set k c' (spellCheckerTable s)) s) ;;;
                  log LogInfo ("Electron-hunspell::switchDictionary: total uptime for '" +:+
                            k +:+ "' - '" +:+ pretty (uptime c') +:+ "'")
              | Table.Inherited =>
                  (* [undefined + timePassed], NaN, is stored in the
                     inherited member: the table gets no property *)
                  log LogInfo ("Electron-hunspell::switchDictionary: total uptime for '" +:+
                            k +:+ "' - 'NaN'")
              | Table.Undefined => throw TypeError
              end
            else ret tt
        | None => ret tt
        end
    | None => ret tt
    end ;;;
    update (set_currentSpellCheckerStartTime (Some now2)) ;;;
    update (set_currentSpellCheckerKey (Some key)) ;;;
    attach key checkAllDictionaries.

(** getSuggestion *)
Definition getSuggestion (text : string) : M (list string) :=
  let* st := this in
  match currentSpellCheckerKey st with
  | Some k =>
      if truthy (Some k) then
        match Table.lookup (spellCheckerTable st) k with
        | Table.Undefined =>
            log LogError ("Electron-hunspell::getSuggestion: There isn't corresponding dictionary for key '" +:+
                       k +:+ "'") ;;;
            ret []
        | Table.Inherited =>
            (* [checker.spellChecker] is undefined: line 132 throws *)
            throw TypeError
        | Table.Own checker =>
            emit (Suggest (spellChecker checker) text) ;;;
            let r := suggest (spellChecker checker) text in
            (if verboseLog st then
               log LogDebug ("Electron-hunspell::getSuggestion: '" +:+ text +:+ "' got suggestions")
             else ret tt) ;;;
            ret r
        end
      else
        log LogWarn "Electron-hunspell::getSuggestedWord: there isn't any spellchecker key, bailing" ;;;
        ret []
  | None =>
      log LogWarn "Electron-hunspell::getSuggestedWord: there isn't any spellchecker key, bailing" ;;;
      ret []
  end.

(** mountBufferDictionary: the object literal evaluates affPath first. *)
Definition mountBufferDictionary (dicBuffer affBuffer : ArrayBufferView)
  : M (string * string * bool) :=
  useFactory ;;;
  let* st := this in
  let affPath := mountBuffer (length (effects st)) affBuffer in
  emit (MountBuffer affBuffer) ;;;
  let* st := this in
  let dicPath := mountBuffer (length (effects st)) dicBuffer in
  emit (MountBuffer dicBuffer) ;;;
  ret (affPath, dicPath, true).

(** getMountedPath of mountFileDictionary *)
Definition getMountedPath (filePath : string) : M string :=
  useFactory ;;;
  let mountedDir := mountDirectory (path_dirname filePath) in
  emit (MountDirectory (path_dirname filePath)) ;;;
  ret (unixify (path_join mountedDir (path_basename filePath))).

(** mountFileDictionary *)
Definition mountFileDictionary (dicFilePath affFilePath : string)
  : M (string * string * bool) :=
  let* affPath := getMountedPath affFilePath in
  let* dicPath := getMountedPath dicFilePath in
  ret (affPath, dicPath, false).

(** increaseRefCount of assignSpellchecker; a count is truthy when it is
    not 0. *)
Definition increaseRefCount (filePath : string) : M unit :=
  let dir := path_dirname filePath in
  let* st := this in
  let count :=
    match fileMountRefCount st !! dir with
    | Some c => if c =? 0 then 1 else c + 1
    | None => 1
    end in
  update (fun s => set_fileMountRefCount (<[dir := count]> (fileMountRefCount s)) s) ;;;
  log LogDebug ("Electron-hunspell::increaseRefCount: refCount set for '" +:+ dir +:+
             "' to '" +:+ pretty count +:+ "'").

(** decreaseRefCount of assignSpellchecker; [undefined > 0] and
    [undefined === 0] are both false. *)
Definition decreaseRefCount (filePath : string) : M Z :=
  let dir := path_dirname filePath in
  let* st := this in
  match fileMountRefCount st !! dir with
  | Some c =>
      if 0 <? c then
        update (set_fileMountRefCount (<[dir := c - 1]> (fileMountRefCount st)))
      else ret tt
  | None => ret tt
  end ;;;
  let* st := this in
  match fileMountRefCount st !! dir with
  | Some c =>
      if c =? 0 then
        update (set_fileMountRefCount (delete dir (fileMountRefCount st)))
      else ret tt
  | None => ret tt
  end ;;;
  let* st := this in
  let refCount :=
    match fileMountRefCount st !! dir with
    | Some c => c
    | None => 0
    end in
  log LogDebug ("Electron-hunspell::decreaseRefCount: refCount set for '" +:+ dir +:+
             "' to '" +:+ pretty refCount +:+ "'") ;;;
  ret refCount.

(** The body of the [paths.forEach] of unmountFile. *)
Definition unmountPath (p : string) : M unit :=
  let* ref := decreaseRefCount p in
  if ref =? 0 then emit (Unmount (path_dirname p)) else ret tt.

(** Calling [dict.dispose()]. *)
Definition runDispose (d : Disposer) : M unit :=
  match d with
  | unmountFile affPath dicPath hunspell =>
      unmountPath affPath ;;;
      unmountPath dicPath ;;;
      emit (Dispose hunspell)
  | unmountBuffer key affPath dicPath hunspell =>
      emit (Unmount affPath) ;;;
      emit (Unmount dicPath) ;;;
      log LogDebug "Electron-hunspell::unmountBuffer: unmounted buffer " ;;;
      emit (Dispose hunspell) ;;;
      log LogDebug "Electron-hunspell::unmountBuffer: disposed hunspell instance for "
  end.

(** assignSpellchecker *)
Definition assignSpellchecker (key : string)
    (mounted : string * string * bool) : M unit :=
  let '(affPath, dicPath, buffer) := mounted in
  useFactory ;;;
  let hunspell := create affPath dicPath in
  emit (Create affPath dicPath) ;;;
  (if negb buffer then
     increaseRefCount affPath ;;;
     increaseRefCount dicPath
   else ret tt) ;;;
  let entry :=
    {| uptime := 0;
       spellChecker := hunspell;
       dispose := if buffer then unmountBuffer key affPath dicPath hunspell
                  else unmountFile affPath dicPath hunspell |} in
  update (fun s => set_spellCheckerTable (Table.set key entry (spellCheckerTable s)) s) ;;;
  log LogInfo ("Electron-hunspell::assignSpellchecker: spellCheckerTable added new checker for '" +:+
            key +:+ "'").

(** loadDictionary *)
Definition loadDictionary (key : string) (dic aff : Source) : M unit :=
  let* st := this in
  if falsy key || negb (undefined (Table.lookup (spellCheckerTable st) key)) then
    throw (JsError ("Invalid key: " +:+
                    (if negb (falsy key) then "already registered key"
                     else "key is empty")))
  else
    match dic, aff with
    | Buffer dicBuffer, Buffer affBuffer =>
        let* mounted := mountBufferDictionary dicBuffer affBuffer in
        assignSpellchecker key mounted
    | FilePath dicFilePath, FilePath affFilePath =>
        let* mounted := mountFileDictionary dicFilePath affFilePath in
        assignSpellchecker key mounted
    | _, _ => throw (JsError "Cannot load dictionary for given parameters")
    end.

(** The block of unloadDictionary that runs when the key is the selected
    one. *)
Definition clearSelection (key : string) : M unit :=
  update (set_currentSpellCheckerKey None) ;;;
  update (set_currentSpellCheckerStartTime None) ;;;
  log LogWarn "Electron-hunspell::unloadDictionary: unload dictionary for current spellchecker instance" ;;;
  setProvider key alwaysTrue.

(** unloadDictionary *)
Definition unloadDictionary (key : string) : M unit :=
  let* st := this in
  if falsy key || undefined (Table.lookup (spellCheckerTable st) key) then
    log LogInfo "Electron-hunspell::unloadDictionary: not able to find corresponding spellchecker for given key"
  else
    (if truthy (currentSpellCheckerKey st)
        && bool_decide (currentSpellCheckerKey st = Some key) then
       clearSelection key
     else ret tt) ;;;
    let* st := this in
    match Table.lookup (spellCheckerTable st) key with
    | Table.Own dict =>
        runDispose (dispose dict) ;;;
        update (fun s => set_spellCheckerTable (Table.delete key (spellCheckerTable s)) s) ;;;
        log LogInfo ("Electron-hunspell::unloadDictionary: dictionary for '" +:+ key +:+
                  "' is unloaded")
    | Table.Inherited =>
        (* [dict.dispose] is undefined: line 190 throws *)
        throw TypeError
    | Table.Undefined => throw TypeError
    end.

(** The for-of loop of the provider closure. *)
Fixpoint spellOthers (key text : string) (otherDictionaries : list string)
  : M bool :=
  match otherDictionaries with
  | [] => ret false
  | dictKey :: rest =>
      let* st := this in
      match Table.get (spellCheckerTable st) dictKey with
      | Some c =>
          emit (Spell (spellChecker c) text) ;;;
          let result := spell (spellChecker c) text in
          (if verboseLog st then
             log LogDebug ("Electron-hunspell::spellChecker: checking spell for '" +:+ text +:+
                        " with '" +:+ key +:+ "' returned")
           else ret tt) ;;;
          if result then ret true else spellOthers key text rest
      | None => throw TypeError
      end
  end.

(** The host calls the installed callback on a word.  Only an own entry
    has a [spellChecker]: for a key with none, whether [table[key]] is
    undefined or an inherited member, line 200 throws a TypeError. *)
Definition spellCheck (cb : Callback) (text : string) : M bool :=
  match cb with
  | alwaysTrue => ret true
  | provider key checkAllDictionaries =>
      let* st := this in
      match Table.get (spellCheckerTable st) key with
      | Some primaryChecker =>
          emit (Spell (spellChecker primaryChecker) text) ;;;
          let primaryResult := spell (spellChecker primaryChecker) text in
          (if verboseLog st then
             log LogDebug ("Electron-hunspell::spellChecker: checking spell for '" +:+ text +:+
                        "' with '" +:+ key +:+ "' returned")
           else ret tt) ;;;
          let otherDictionaries :=
            filter (fun x => x <> key) (Table.keys (spellCheckerTable st)) in
          if negb checkAllDictionaries
             || (length otherDictionaries =? 0)%nat
             || primaryResult then
            ret primaryResult
          else
            log LogDebug "Electron-hunspell::spellChecker: running spellcheck against rest of dictionaries" ;;;
            spellOthers key text otherDictionaries
      | None => throw TypeError
      end
  end.

(** ** Sequences of calls on a provider *)

Inductive Call :=
| CallInitialize
| CallModuleSettled (outcome : Settled)
| CallSetVerboseLog (value : bool)
| CallLoadDictionary (key : string) (dic aff : Source)
| CallUnloadDictionary (key : string)
| CallSwitchDictionary (key : string) (checkAllDictionaries : bool)
    (now1 now2 : Z)
| CallGetSuggestion (text : string)
| CallSpellCheck (text : string).

(** One call; [CallSpellCheck] is the host running the callback it was
    given last, if any. *)
Definition call (c : Call) : M unit :=
  match c with
  | CallInitialize => initialize
  | CallModuleSettled outcome => initializeResumed outcome
  | CallSetVerboseLog value => update (set_verboseLog value)
  | CallLoadDictionary key dic aff => loadDictionary key dic aff
  | CallUnloadDictionary key => unloadDictionary key
  | CallSwitchDictionary key checkAllDictionaries now1 now2 =>
      switchDictionary key checkAllDictionaries now1 now2
  | CallGetSuggestion text => getSuggestion text ;;; ret tt
  | CallSpellCheck text =>
      let* st := this in
      match webFrameProvider st with
      | Some cb => spellCheck cb text ;;; ret tt
      | None => ret tt
      end
  end.

(** The calls in order, an exception ending only the call that threw. *)
Definition run (cs : list Call) (st : SpellCheckerProvider)
  : SpellCheckerProvider :=
  foldl (fun s c => exec (call c) s) st cs.

(** The states a provider can be in. *)
Definition reachable (st : SpellCheckerProvider) : Prop :=
  exists cs, st = run cs newProvider.

End Provider.

(** ** Notions used to state the properties *)

Section Notions.

Context `{factory : HunspellFactory} `{platform : Platform}.

(** How many of the files an entry will release lie in [d]. *)
Definition refsOf (d : string) (c : SpellChecker) : Z :=
  match dispose c with
  | unmountFile affPath dicPath _ =>
      (if decide (path_dirname affPath = d) then 1 else 0) +
      (if decide (path_dirname dicPath = d) then 1 else 0)
  | unmountBuffer _ _ _ _ => 0
  end.

(** The same over all loaded dictionaries. *)
Fixpoint refsIn (d : string) (t : list (string * SpellChecker)) : Z :=
  match t with
  | [] => 0
  | (_, c) :: t' => refsOf d c + refsIn d t'
  end.

(** The count a JavaScript object holds for a directory referenced [n]
    times: no property at all when [n] is 0. *)
Definition held (n : Z) : option Z := if n =? 0 then None else Some n.

(** [fileMountRefCount[d]] read as a number, [undefined] as 0. *)
Definition refCount (st : SpellCheckerProvider) (d : string) : Z :=
  default 0 (fileMountRefCount st !! d).

(** The state [st'] differs from [st] in the reference counts, the
    recorded effects and the log only. *)
Definition same_but_mounts (st st' : SpellCheckerProvider) : Prop :=
  st' = set_logged (logged st')
          (set_effects (effects st')
             (set_fileMountRefCount (fileMountRefCount st') st)).

(** The references left after the release of one file. *)
Definition release (p : string) (f : string -> Z) (d : string) : Z :=
  if decide (path_dirname p = d) then Z.max 0 (f d - 1) else f d.

(** The state [st'] differs from [st] in the recorded effects and the log
    only. *)
Definition same_but_trace (st st' : SpellCheckerProvider) : Prop :=
  st' = set_logged (logged st') (set_effects (effects st') st).

(** What holds of every state a provider can be in: keys are properties of
    an object, hence distinct, and never the empty string nor a name
    inherited from Object.prototype; the count held for a directory is the
    number of files of loaded dictionaries in it; the selected key is a
    non-empty key for which [table[key]] is truthy, an entry or an
    inherited member, selected at an integer time; a callback is installed
    in a renderer process only, and the one built by [attach] is for the
    selected key. *)
Record wf (st : SpellCheckerProvider) : Prop := {
  wf_keys : NoDup (Table.keys (spellCheckerTable st));
  wf_nonempty : Table.get (spellCheckerTable st) "" = None;
  wf_own : forall k,
    is_Some (Table.get (spellCheckerTable st) k) -> Table.inherited k = false;
  wf_refs : forall d,
    fileMountRefCount st !! d = held (refsIn d (spellCheckerTable st));
  wf_current : forall k,
    currentSpellCheckerKey st = Some k ->
    k <> "" /\ Table.lookup (spellCheckerTable st) k <> Table.Undefined /\
    is_Some (currentSpellCheckerStartTime st);
  wf_callback : forall cb,
    webFrameProvider st = Some cb ->
    process_type = "renderer" /\
    forall k a, cb = provider k a -> currentSpellCheckerKey st = Some k
}.

(** An entry whose uptime has grown by [dt]. *)
Definition addUptime (dt : Z) (c : SpellChecker) : SpellChecker :=
  {| spellChecker := spellChecker c; uptime := uptime c + dt; dispose := dispose c |}.

(** The table once the time since the last selection has been added to
    the selected entry, if there is one. *)
Definition accounted (now1 : Z) (st : SpellCheckerProvider)
  : list (string * SpellChecker) :=
  match currentSpellCheckerStartTime st, currentSpellCheckerKey st with
  | Some start, Some k =>
      match Table.get (spellCheckerTable st) k with
      | Some c =>
          if falsy k then spellCheckerTable st
          else Table.set k (addUptime (now1 - start) c) (spellCheckerTable st)
      | None => spellCheckerTable st
      end
  | _, _ => spellCheckerTable st
  end.

(** What getMountedPath returns for a file. *)
Definition mountedPath (filePath : string) : string :=
  unixify (path_join (mountDirectory (path_dirname filePath)) (path_basename filePath)).

(** The entry assignSpellchecker stores for a dictionary on disk. *)
Definition fileEntry (dicFilePath affFilePath : string) : SpellChecker :=
  let affPath := mountedPath affFilePath in
  let dicPath := mountedPath dicFilePath in
  {| spellChecker := create affPath dicPath;
     uptime := 0;
     dispose := unmountFile affPath dicPath (create affPath dicPath) |}.

(** What a buffer dictionary is mounted as. *)
Definition bufferEntry (key : string) (dicBuffer affBuffer : ArrayBufferView)
    (st : SpellCheckerProvider) : SpellChecker :=
  let affPath := mountBuffer (length (effects st)) affBuffer in
  let dicPath := mountBuffer (length (effects st ++ [MountBuffer affBuffer])) dicBuffer in
  {| spellChecker := create affPath dicPath;
     uptime := 0;
     dispose := unmountBuffer key affPath dicPath (create affPath dicPath) |}.

Definition unloadedMessage (key : string) : LogLevel * string :=
  (LogInfo, "Electron-hunspell::unloadDictionary: dictionary for '" +:+ key +:+ "' is unloaded").

(** The key is the selected one: the test of line 181. *)
Definition isSelected (key : string) (st : SpellCheckerProvider) : bool :=
  truthy (currentSpellCheckerKey st) && bool_decide (currentSpellCheckerKey st = Some key).

(** The accumulated uptime of a registered key. *)
Definition uptimeOf (st : SpellCheckerProvider) (key : string) : Z :=
  from_option uptime 0 (Table.get (spellCheckerTable st) key).

(** Descending by uptime. *)
Definition uptime_desc (st : SpellCheckerProvider) (k1 k2 : string) : Prop :=
  uptimeOf st k2 <= uptimeOf st k1.

(** What getSuggestion is to return. *)
Definition suggestionsFor (text : string) (st : SpellCheckerProvider) : list string :=
  match currentSpellCheckerKey st with
  | Some k =>
      if falsy k then []
      else match Table.get (spellCheckerTable st) k with
           | Some checker => suggest (spellChecker checker) text
           | None => []
           end
  | None => []
  end.

(** The engine call made on an entry for a word, and its answer. *)
Definition asks (text : string) (kc : string * SpellChecker) : Effect :=
  Spell (spellChecker kc.2) text.

Definition accepts (text : string) (kc : string * SpellChecker) : bool :=
  spell (spellChecker kc.2) text.

(** The entry is what the table holds for its key. *)
Definition registered (t : list (string * SpellChecker))
    (kc : string * SpellChecker) : Prop :=
  Table.get t kc.1 = Some kc.2.

(** The registered keys other than the primary one, in the order of
    [Object.keys]. *)
Definition otherDictionaries (key : string) (st : SpellCheckerProvider)
  : list string :=
  filter (fun x => x <> key) (Table.keys (spellCheckerTable st)).

(** The effect is a call of webFrame.setSpellCheckProvider. *)
Definition attaches (e : Effect) : Prop :=
  match e with
  | SetSpellCheckProvider _ _ _ => True
  | _ => False
  end.

(** A run of the callback of [attach] for [key] with checkAllDictionaries
    set: it returns [verdict], having asked the primary dictionary and then
    the entries [asked]. *)
Definition consults (key text : string) (st : SpellCheckerProvider)
    (verdict : bool) (asked : list (string * SpellChecker)) : Prop :=
  exists primaryChecker st',
    Table.get (spellCheckerTable st) key = Some primaryChecker /\
    spellCheck (provider key true) text st = (inr verdict, st') /\
    effects st' = effects st ++ (asks text <$> (key, primaryChecker) :: asked) /\
    Forall (registered (spellCheckerTable st)) asked.

(** No reading of the clock in [cs], run from [st], is before the start
    time of the selection it closes. *)
Fixpoint clockOk (cs : list Call) (st : SpellCheckerProvider) : bool :=
  match cs with
  | [] => true
  | c :: cs' =>
      match c, currentSpellCheckerStartTime st with
      | CallSwitchDictionary _ _ now1 _, Some start => start <=? now1
      | _, _ => true
      end && clockOk cs' (exec (call c) st)
  end.

(** No call of [cs] unloads [key]. *)
Definition keeps (key : string) (cs : list Call) : bool :=
  forallb (fun c => match c with
                    | CallUnloadDictionary k => negb (bool_decide (k = key))
                    | _ => true
                    end) cs.

(** The selection, its start time and the host's callback agree: no start
    time without a selected key; in a renderer process the callback of
    [attach] for the selected key is the one the host holds; the
    always-correct callback is held only while no key is selected. *)
Definition selection_ok (st : SpellCheckerProvider) : Prop :=
  (currentSpellCheckerKey st = None -> currentSpellCheckerStartTime st = None) /\
  (forall k, currentSpellCheckerKey st = Some k -> process_type = "renderer" ->
             exists all, webFrameProvider st = Some (provider k all)) /\
  (webFrameProvider st = Some alwaysTrue -> currentSpellCheckerKey st = None).

(** The calls of [webFrame.setSpellCheckProvider] among recorded effects,
    each with its three arguments. *)
Definition attached (es : list Effect) : list (string * bool * Callback) :=
  omap (fun e => match e with
                 | SetSpellCheckProvider k b cb => Some (k, b, cb)
                 | _ => None
                 end) es.

(** The state [st'] differs from [st] in the verboseLog flag and the log
    only. *)
Definition same_but_logging (st st' : SpellCheckerProvider) : Prop :=
  st' = set_logged (logged st') (set_verboseLog (verboseLog st') st).

(** Two runs of a method, from states that differ in the verboseLog flag
    and the log only, end alike and leave such states. *)
Definition logrel {A} (m1 m2 : M A) : Prop :=
  forall st1 st2, same_but_logging st1 st2 ->
    (m1 st1).1 = (m2 st2).1 /\ same_but_logging (m1 st1).2 (m2 st2).2.

(** The calls of a sequence other than assignments to verboseLog. *)
Definition withoutVerboseLog (cs : list Call) : list Call :=
  List.filter (fun c => match c with CallSetVerboseLog _ => false | _ => true end) cs.

(** The engine factory and the number of calls of initialize that await
    their module. *)
Definition moduleState (st : SpellCheckerProvider) : bool * nat :=
  (hunspellFactory st, loading st).

(** A computation that, however it ends, leaves [f] of the provider as it
    was. *)
Definition preserves {A B} (f : SpellCheckerProvider -> B) (m : M A) : Prop :=
  forall st, f (m st).2 = f st.

(** How many engine instances the recorded effects create and dispose. *)
Definition isCreate (e : Effect) : bool :=
  match e with
  | Create _ _ => true
  | _ => false
  end.

Definition isDispose (e : Effect) : bool :=
  match e with
  | Dispose _ => true
  | _ => false
  end.

Definition created (es : list Effect) : nat := length (List.filter isCreate es).

Definition disposed (es : list Effect) : nat := length (List.filter isDispose es).

(** The engine instance a disposer disposes. *)
Definition instanceOf (d : Disposer) : Hunspell :=
  match d with
  | unmountFile _ _ h => h
  | unmountBuffer _ _ _ h => h
  end.

(** The entry of [key] owns its engine instance: its disposer disposes the
    instance the entry spells with, created from the paths the disposer
    unmounts, and the disposer of a buffer dictionary carries the key. *)
Definition owns (key : string) (c : SpellChecker) : Prop :=
  instanceOf (dispose c) = spellChecker c /\
  match dispose c with
  | unmountFile affPath dicPath h => h = create affPath dicPath
  | unmountBuffer k affPath dicPath h => k = key /\ h = create affPath dicPath
  end.

(** Both arguments of loadDictionary are paths, or both are buffer views. *)
Definition sameKind (dic aff : Source) : bool :=
  match dic, aff with
  | FilePath _, FilePath _ | Buffer _, Buffer _ => true
  | _, _ => false
  end.

End Notions.

(** ** A small engine and platform to run the model on *)

Module Demo.

(** The part of a path before and after its last slash. *)
Fixpoint split_last (s : string) : option (string * string) :=
  match s with
  | EmptyString => None
  | String c s' =>
      match split_last s' with
      | Some (d, b) => Some (String c d, b)
      | None => if Ascii.eqb c (Ascii.ascii_of_nat 47) then Some (EmptyString, s') else None
      end
  end.

Definition dirname (s : string) : string :=
  match split_last s with
  | Some (EmptyString, _) => "/"
  | Some (d, _) => d
  | None => "."
  end.

Definition basename (s : string) : string :=
  match split_last s with
  | Some (_, b) => b
  | None => s
  end.

#[export] Instance platform : Platform := {|
  path_dirname := dirname;
  path_basename := basename;
  path_join := fun a b => a +:+ "/" +:+ b;
  unixify := fun p => p;
  process_type := "renderer"
|}.

(** Word lists standing for the contents of dictionary files. *)
Definition words (dicPath : string) : list string :=
  if bool_decide (basename dicPath = "en-US.dic") then ["color"; "center"]
  else if bool_decide (basename dicPath = "en-GB.dic") then ["colour"; "centre"]
  else [].

Definition hunspell (affPath dicPath : string) : Hunspell := {|
  spell := fun w => bool_decide (w ∈ words dicPath);
  suggest := fun w => filter (fun x => String.length x = String.length w) (words dicPath)
|}.

#[export] Instance engine : HunspellFactory := {|
  mountDirectory := fun d => "/nodefs" +:+ d;
  mountBuffer := fun n _ => "/memfs/" +:+ pretty n;
  create := hunspell
|}.

Definition loadUS := CallLoadDictionary "en-us" (FilePath "/dict/en-US.dic") (FilePath "/dict/en-US.aff").
Definition loadGB := CallLoadDictionary "en-gb" (FilePath "/dict/en-GB.dic") (FilePath "/dict/en-GB.aff").

(** initialize, awaited: the engine module has loaded. *)
Definition initialized : list Call := [CallInitialize; CallModuleSettled Fulfilled].

(** Two dictionaries whose files lie in /dict, loaded after initialize. *)
Definition loaded : list Call := initialized ++ [loadUS; loadGB].

Definition entryUS : SpellChecker :=
  fileEntry "/dict/en-US.dic" "/dict/en-US.aff".

Definition entryGB : SpellChecker :=
  fileEntry "/dict/en-GB.dic" "/dict/en-GB.aff".

(** A dictionary given as two buffers. *)
Definition dicBytes : ArrayBufferView := [Byte.x31; Byte.x0a; Byte.x61].

Definition affBytes : ArrayBufferView := [Byte.x53; Byte.x45; Byte.x54].

Definition loadBuffers := CallLoadDictionary "ko" (Buffer dicBytes) (Buffer affBytes).

End Demo.

(** * Properties *)

(** ** The table *)

Module TableFacts.

Import Table.

Lemma get_replace_eq key c t :
  is_Some (get t key) -> get (replace key c t) key = Some c.
Proof.
  induction t as [|[k c0] t IH]; simpl.
  - by intros [? ?].
  - destruct (decide (k = key)) as [->|Hne]; simpl.
    + by rewrite decide_True.
    + intros H. by rewrite decide_False, IH.
Qed.

Lemma get_replace_ne key c t k' :
  key <> k' -> get (replace key c t) k' = get t k'.
Proof.
  intros Hne. induction t as [|[k c0] t IH]; simpl; [done|].
  destruct (decide (k = key)) as [->|Hk]; simpl.
  - by rewrite !decide_False.
  - by rewrite IH.
Qed.

Lemma get_insert_eq key c t :
  get t key = None -> get (insert key c t) key = Some c.
Proof.
  induction t as [|[k c0] t IH]; simpl.
  - by rewrite decide_True.
  - destruct (decide (k = key)) as [->|Hne]; [done|]. intros H.
    destruct (precedes key k); simpl.
    + by rewrite decide_True.
    + by rewrite decide_False, IH.
Qed.

Lemma get_insert_ne key c t k' :
  key <> k' -> get (insert key c t) k' = get t k'.
Proof.
  intros Hne. induction t as [|[k c0] t IH]; simpl.
  - by rewrite decide_False.
  - destruct (precedes key k); simpl.
    + by rewrite decide_False.
    + by rewrite IH.
Qed.

Lemma get_set_eq key c t : get (set key c t) key = Some c.
Proof.
  unfold set. destruct (get t key) eqn:E.
  - apply get_replace_eq. by rewrite E.
  - by apply get_insert_eq.
Qed.

Lemma get_set_ne key c t k' : key <> k' -> get (set key c t) k' = get t k'.
Proof.
  intros Hne. unfold set. destruct (get t key).
  - by apply get_replace_ne.
  - by apply get_insert_ne.
Qed.

Lemma get_None_keys t key : get t key = None <-> key ∉ keys t.
Proof.
  induction t as [|[k c] t IH]; simpl.
  - split; [intros _; apply not_elem_of_nil | done].
  - rewrite not_elem_of_cons. destruct (decide (k = key)) as [->|Hne].
    + split; [done | intros [? _]; done].
    + rewrite IH. split; [intros ?; split; congruence | tauto].
Qed.

Lemma get_Some_keys t key c : get t key = Some c -> key ∈ keys t.
Proof.
  intros H. destruct (decide (key ∈ keys t)) as [|Hn]; [done|].
  apply get_None_keys in Hn. congruence.
Qed.

Lemma keys_get t key : key ∈ keys t -> is_Some (get t key).
Proof.
  intros H. destruct (get t key) eqn:E; [eauto|].
  apply get_None_keys in E. done.
Qed.

Lemma elem_of_get t key c :
  NoDup (keys t) -> (key, c) ∈ t -> get t key = Some c.
Proof.
  induction t as [|[k c0] t IH]; simpl; intros Hnd Hin.
  - by apply elem_of_nil in Hin.
  - apply NoDup_cons in Hnd as [Hk Hnd].
    apply elem_of_cons in Hin as [[= -> ->]|Hin].
    + by rewrite decide_True.
    + destruct (decide (k = key)) as [->|Hne]; [|auto].
      exfalso. apply Hk. change (key ∈ keys t).
      by apply (list_elem_of_fmap_2 fst) in Hin.
Qed.

(** Where a new key is listed: after the keys it does not precede, before
    the first one it precedes. *)
Lemma keys_insert key c t :
  exists before after,
    keys t = before ++ after /\
    keys (insert key c t) = before ++ key :: after /\
    Forall (fun k => precedes key k = false) before /\
    match after with
    | [] => True
    | k :: _ => precedes key k = true
    end.
Proof.
  induction t as [|[k c0] t IH]; simpl.
  - by exists [], [].
  - destruct (precedes key k) eqn:E.
    + exists [], (k :: keys t). by repeat split.
    + destruct IH as (before & after & H1 & H2 & H3 & H4).
      exists (k :: before), after. simpl. rewrite H1, H2.
      repeat split; try done. by constructor.
Qed.

Lemma keys_set_new key c t :
  get t key = None ->
  exists before after,
    keys t = before ++ after /\
    keys (set key c t) = before ++ key :: after /\
    Forall (fun k => precedes key k = false) before /\
    match after with
    | [] => True
    | k :: _ => precedes key k = true
    end.
Proof. intros H. unfold set. rewrite H. apply keys_insert. Qed.

Lemma keys_set_new_perm key c t :
  get t key = None -> keys (set key c t) ≡ₚ key :: keys t.
Proof.
  intros H. destruct (keys_set_new key c t H) as (before & after & -> & -> & _).
  by rewrite Permutation_middle.
Qed.

(** A key that is no array index goes last. *)
Lemma keys_set_new_last key c t :
  get t key = None -> arrayIndex key = None ->
  keys (set key c t) = keys t ++ [key].
Proof.
  intros H Hidx. unfold set. rewrite H. clear H.
  induction t as [|[k c0] t IH]; simpl; [done|].
  unfold precedes at 1. rewrite Hidx. simpl. by rewrite IH.
Qed.

Lemma filter_ne_absent (key : string) (l : list string) :
  key ∉ l -> filter (fun x => x <> key) l = l.
Proof.
  induction l as [|x l IH]; [done|].
  rewrite not_elem_of_cons. intros [Hne Hnin].
  rewrite filter_cons, decide_True by congruence. by rewrite IH.
Qed.

(** The keys that were there keep their order. *)
Lemma keys_set_new_others key c t :
  get t key = None ->
  filter (fun x => x <> key) (keys (set key c t)) = keys t.
Proof.
  intros H. destruct (keys_set_new key c t H) as (before & after & Ht & -> & _).
  apply get_None_keys in H. rewrite Ht in H |- *.
  rewrite filter_app, filter_cons, decide_False by tauto.
  rewrite <- filter_app. by apply filter_ne_absent.
Qed.

Lemma keys_set_old key c t :
  is_Some (get t key) -> keys (set key c t) = keys t.
Proof.
  intros [c0 H]. unfold set. rewrite H. clear H.
  induction t as [|[k c1] t IH]; simpl; [done|].
  destruct (decide (k = key)); [done|]. simpl. by rewrite IH.
Qed.

Lemma length_set_new key c t :
  get t key = None -> length (set key c t) = S (length t).
Proof.
  intros H. rewrite <- (length_fmap fst (set key c t)).
  change (fst <$> set key c t) with (keys (set key c t)).
  rewrite (keys_set_new_perm key c t H). simpl.
  unfold keys. by rewrite length_fmap.
Qed.

Lemma get_delete_eq key t : get (delete key t) key = None.
Proof.
  induction t as [|[k c] t IH]; simpl; [done|].
  destruct (decide (k = key)); [done|]. simpl. by rewrite decide_False.
Qed.

Lemma get_delete_ne key t k' : key <> k' -> get (delete key t) k' = get t k'.
Proof.
  intros Hne. induction t as [|[k c] t IH]; simpl; [done|].
  destruct (decide (k = key)) as [->|Hk]; simpl.
  - by rewrite decide_False.
  - by rewrite IH.
Qed.

Lemma keys_delete key t :
  keys (delete key t) = filter (fun x => x <> key) (keys t).
Proof.
  induction t as [|[k c] t IH]; simpl; [done|].
  rewrite filter_cons. simpl.
  destruct (decide (k = key)) as [->|Hk].
  - by rewrite decide_False; [|tauto].
  - rewrite decide_True by done. simpl. by rewrite IH.
Qed.

Lemma delete_absent key t : key ∉ keys t -> delete key t = t.
Proof.
  induction t as [|[k c] t IH]; simpl; [done|].
  rewrite not_elem_of_cons. intros [Hne Hnin].
  rewrite decide_False by congruence. by rewrite IH.
Qed.

Lemma delete_set_new key c t :
  get t key = None -> delete key (set key c t) = t.
Proof.
  intros H. unfold set. rewrite H.
  induction t as [|[k c0] t IH]; simpl in *.
  - by rewrite decide_True.
  - destruct (decide (k = key)) as [->|Hne]; [done|].
    destruct (precedes key k); simpl.
    + rewrite decide_True by done. rewrite decide_False by done.
      rewrite delete_absent; [done|]. by apply get_None_keys.
    + rewrite decide_False by done. by rewrite IH.
Qed.

Lemma NoDup_keys_set key c t : NoDup (keys t) -> NoDup (keys (set key c t)).
Proof.
  intros Hnd. destruct (get t key) eqn:E.
  - by rewrite keys_set_old.
  - rewrite (keys_set_new_perm key c t E). apply NoDup_cons. split; [|done].
    by apply get_None_keys.
Qed.

Lemma NoDup_keys_delete key t : NoDup (keys t) -> NoDup (keys (delete key t)).
Proof. intros Hnd. rewrite keys_delete. by apply NoDup_filter. Qed.

(** [table[key]] and the own properties. *)
Lemma lookup_Own t key c : lookup t key = Own c <-> get t key = Some c.
Proof.
  unfold lookup. destruct (get t key), (inherited key); split; congruence.
Qed.

Lemma lookup_Undefined t key :
  lookup t key = Undefined <-> get t key = None /\ inherited key = false.
Proof.
  unfold lookup. destruct (get t key), (inherited key);
    (split; [intros H; first [congruence | by split] | intros [H1 H2]; congruence]).
Qed.

Lemma lookup_Inherited t key :
  lookup t key = Inherited <-> get t key = None /\ inherited key = true.
Proof.
  unfold lookup. destruct (get t key), (inherited key);
    (split; [intros H; first [congruence | by split] | intros [H1 H2]; congruence]).
Qed.

Lemma lookup_get t key c : get t key = Some c -> lookup t key = Own c.
Proof. apply lookup_Own. Qed.

Lemma lookup_Undefined_dom t t' key :
  (get t' key = None <-> get t key = None) ->
  lookup t' key = Undefined <-> lookup t key = Undefined.
Proof. intros H. rewrite !lookup_Undefined, H. done. Qed.

Lemma lookup_is_Some t key :
  is_Some (get t key) -> lookup t key <> Undefined.
Proof. intros [c H]. by rewrite (lookup_get _ _ _ H). Qed.

Lemma lookup_cases t key :
  lookup t key = Undefined \/ lookup t key <> Undefined.
Proof. destruct (lookup t key); [right|right|left]; congruence. Qed.

Lemma inherited_nonempty : inherited "" = false.
Proof. reflexivity. Qed.

End TableFacts.

(** ** Running the monad *)

Ltac mrun :=
  unfold exec, bind, ret, throw, this, update, emit, log; simpl.

Lemma bind_inr {A B} (m : M A) (f : A -> M B) st a st' :
  m st = (inr a, st') -> bind m f st = f a st'.
Proof. unfold bind. by intros ->. Qed.

Lemma bind_inl {A B} (m : M A) (f : A -> M B) st e st' :
  m st = (inl e, st') -> bind m f st = (inl e, st').
Proof. unfold bind. by intros ->. Qed.

Lemma emit_run e st : emit e st = (inr tt, set_effects (effects st ++ [e]) st).
Proof. done. Qed.

Lemma log_run lvl msg st :
  log lvl msg st = (inr tt, set_logged (logged st ++ [(lvl, msg)]) st).
Proof. done. Qed.

(** One step of a method whose first action is known to return. *)
Ltac mstep H := rewrite (bind_inr _ _ _ _ _ H); cbv beta.

(** ** Reference counts of mounted directories *)

Section RefCount.

Context `{factory : HunspellFactory} `{platform : Platform}.

Lemma same_but_mounts_trans st1 st2 st3 :
  same_but_mounts st1 st2 -> same_but_mounts st2 st3 -> same_but_mounts st1 st3.
Proof. unfold same_but_mounts. intros -> ->. by destruct st1. Qed.

Lemma refsOf_nonneg d c : 0 <= refsOf d c.
Proof. unfold refsOf. destruct (dispose c); repeat case_decide; lia. Qed.

Lemma refsIn_nonneg d t : 0 <= refsIn d t.
Proof.
  induction t as [|[k c] t IH]; simpl; [lia|].
  pose proof (refsOf_nonneg d c). lia.
Qed.

Lemma refsIn_set_new d key c t :
  Table.get t key = None ->
  refsIn d (Table.set key c t) = refsIn d t + refsOf d c.
Proof.
  intros H. unfold Table.set. rewrite H. clear H.
  induction t as [|[k c0] t IH]; simpl; [lia|].
  destruct (Table.precedes key k); simpl; [lia|]. rewrite IH. lia.
Qed.

Lemma refsIn_set_old d key c c' t :
  Table.get t key = Some c -> dispose c' = dispose c ->
  refsIn d (Table.set key c' t) = refsIn d t.
Proof.
  intros Hget Hd. unfold Table.set. rewrite Hget.
  induction t as [|[k c0] t IH]; simpl in *; [done|].
  destruct (decide (k = key)) as [->|Hne]; simpl.
  - injection Hget as ->. unfold refsOf. by rewrite Hd.
  - by rewrite IH.
Qed.

Lemma refsIn_delete d key c t :
  NoDup (Table.keys t) -> Table.get t key = Some c ->
  refsIn d (Table.delete key t) = refsIn d t - refsOf d c.
Proof.
  induction t as [|[k c0] t IH]; simpl; [done|].
  intros [Hk Hnd]%NoDup_cons Hget.
  destruct (decide (k = key)) as [->|Hne].
  - injection Hget as ->. rewrite TableFacts.delete_absent by done. lia.
  - simpl. rewrite IH by done. lia.
Qed.

Lemma refsIn_ge d key c t :
  Table.get t key = Some c -> refsOf d c <= refsIn d t.
Proof.
  induction t as [|[k c0] t IH]; simpl; [done|].
  destruct (decide (k = key)) as [->|Hne].
  - intros [= ->]. pose proof (refsIn_nonneg d t). lia.
  - intros H. specialize (IH H). pose proof (refsOf_nonneg d c0). lia.
Qed.

(** increaseRefCount adds one reference to the directory of the path. *)
Lemma increaseRefCount_spec p st (f : string -> Z) :
  (forall d, fileMountRefCount st !! d = held (f d)) ->
  (forall d, 0 <= f d) ->
  exists st',
    increaseRefCount p st = (inr tt, st') /\
    same_but_mounts st st' /\
    effects st' = effects st /\
    forall d, fileMountRefCount st' !! d =
              held (f d + (if decide (path_dirname p = d) then 1 else 0)).
Proof.
  intros Hf Hpos. unfold increaseRefCount. mrun. eexists. split; [reflexivity|].
  simpl. split; [by destruct st|]. split; [done|].
  intros d. rewrite lookup_insert. destruct (decide (path_dirname p = d)) as [<-|Hne].
  - rewrite Hf. unfold held. specialize (Hpos (path_dirname p)).
    destruct (f (path_dirname p) =? 0) eqn:E.
    + apply Z.eqb_eq in E. rewrite E. done.
    + rewrite E. destruct (f (path_dirname p) + 1 =? 0) eqn:E'; [lia|done].
  - rewrite Hf. by rewrite Z.add_0_r.
Qed.

(** decreaseRefCount removes one reference and returns what is left. *)
Lemma decreaseRefCount_spec p st (f : string -> Z) :
  (forall d, fileMountRefCount st !! d = held (f d)) ->
  (forall d, 0 <= f d) ->
  exists st',
    decreaseRefCount p st = (inr (Z.max 0 (f (path_dirname p) - 1)), st') /\
    same_but_mounts st st' /\
    effects st' = effects st /\
    forall d, fileMountRefCount st' !! d =
              held (if decide (path_dirname p = d) then Z.max 0 (f d - 1) else f d).
Proof.
  intros Hf Hpos. unfold decreaseRefCount.
  set (dir := path_dirname p). pose proof (Hpos dir) as Hdir.
  pose proof (Hf dir) as Hlook. unfold held in Hlook.
  destruct (f dir =? 0) eqn:E0.
  - (* no property: nothing changes, the count read is 0 *)
    apply Z.eqb_eq in E0. mrun. rewrite Hlook. simpl. rewrite Hlook. simpl.
    rewrite Hlook. eexists. split; [by rewrite E0|].
    simpl. split; [by destruct st|]. split; [done|].
    intros d. rewrite Hf. case_decide; [subst d|done].
    fold dir. rewrite E0. done.
  - apply Z.eqb_neq in E0. mrun. rewrite Hlook. simpl.
    assert ((0 <? f dir) = true) as -> by (apply Z.ltb_lt; lia). simpl.
    rewrite lookup_insert_eq.
    destruct (f dir - 1 =? 0) eqn:E1; simpl.
    + apply Z.eqb_eq in E1. rewrite lookup_delete_eq.
      eexists. split; [by rewrite E1|].
      simpl. split; [by destruct st|]. split; [done|].
      intros d. rewrite lookup_delete. case_decide as Hd.
      * subst d. fold dir. rewrite E1. done.
      * rewrite lookup_insert_ne by done. apply Hf.
    + apply Z.eqb_neq in E1. rewrite lookup_insert_eq.
      eexists. split; [f_equal; f_equal; lia|].
      simpl. split; [by destruct st|]. split; [done|].
      intros d. rewrite lookup_insert. case_decide as Hd.
      * subst d. fold dir. unfold held.
        replace (Z.max 0 (f dir - 1)) with (f dir - 1) by lia.
        destruct (f dir - 1 =? 0) eqn:E2; [lia|done].
      * apply Hf.
Qed.

(** Whatever the counts are, decreaseRefCount returns. *)
Lemma decreaseRefCount_total p st :
  exists r st',
    decreaseRefCount p st = (inr r, st') /\
    same_but_mounts st st' /\ effects st' = effects st.
Proof.
  unfold decreaseRefCount. set (dir := path_dirname p). mrun.
  destruct (fileMountRefCount st !! dir) as [c|] eqn:E; simpl.
  - destruct (0 <? c) eqn:Ec; simpl.
    + rewrite lookup_insert_eq. destruct (c - 1 =? 0); simpl;
        do 2 eexists; (split; [reflexivity|]); by destruct st.
    + rewrite E. destruct (c =? 0); simpl;
        do 2 eexists; (split; [reflexivity|]); by destruct st.
  - rewrite E. simpl. do 2 eexists. split; [reflexivity|]. by destruct st.
Qed.

Lemma unmountPath_total p st :
  exists st', unmountPath p st = (inr tt, st') /\ same_but_mounts st st'.
Proof.
  destruct (decreaseRefCount_total p st) as (r & st1 & Hrun & Hsame & _).
  unfold unmountPath. rewrite (bind_inr _ _ _ _ _ Hrun).
  destruct (r =? 0); mrun; eexists; (split; [reflexivity|]); [|done].
  unfold same_but_mounts in *. rewrite Hsame. by destruct st.
Qed.

(** The disposer of an entry always returns, and touches the reference
    counts, the effects and the log only. *)
Lemma runDispose_total d st :
  exists st', runDispose d st = (inr tt, st') /\ same_but_mounts st st'.
Proof.
  destruct d as [a b h|k a b h]; simpl.
  - destruct (unmountPath_total a st) as (st1 & H1 & S1).
    destruct (unmountPath_total b st1) as (st2 & H2 & S2).
    rewrite (bind_inr _ _ _ _ _ H1), (bind_inr _ _ _ _ _ H2).
    mrun. eexists. split; [reflexivity|].
    apply (same_but_mounts_trans _ _ _ S1), (same_but_mounts_trans _ _ _ S2).
    by destruct st2.
  - mrun. eexists. split; [reflexivity|]. by destruct st.
Qed.

Lemma release_nonneg p f : (forall d, 0 <= f d) -> forall d, 0 <= release p f d.
Proof. intros H d. unfold release. specialize (H d). case_decide; lia. Qed.

Lemma release_same p f :
  release p f (path_dirname p) = Z.max 0 (f (path_dirname p) - 1).
Proof. unfold release. by rewrite decide_True. Qed.

Lemma unmountPath_spec p st (f : string -> Z) :
  (forall d, fileMountRefCount st !! d = held (f d)) ->
  (forall d, 0 <= f d) ->
  exists st',
    unmountPath p st = (inr tt, st') /\
    same_but_mounts st st' /\
    effects st' = effects st ++
      (if release p f (path_dirname p) =? 0
       then [Unmount (path_dirname p)] else []) /\
    forall d, fileMountRefCount st' !! d = held (release p f d).
Proof.
  intros Hf Hpos.
  destruct (decreaseRefCount_spec p st f Hf Hpos) as (st1 & Hrun & Hsame & Heff & Hrc).
  unfold unmountPath. rewrite (bind_inr _ _ _ _ _ Hrun), release_same.
  destruct (Z.max 0 (f (path_dirname p) - 1) =? 0); mrun.
  - eexists. split; [reflexivity|]. simpl. rewrite Heff.
    split; [|done]. unfold same_but_mounts in *. rewrite Hsame. by destruct st.
  - eexists. split; [reflexivity|]. rewrite Heff, app_nil_r. done.
Qed.

(** unmountFile releases the affix file, then the dictionary file, and
    asks the engine to unmount a directory when the count it has just
    decreased is 0. *)
Lemma unmountFile_spec affPath dicPath h st (f : string -> Z) :
  (forall d, fileMountRefCount st !! d = held (f d)) ->
  (forall d, 0 <= f d) ->
  exists st',
    runDispose (unmountFile affPath dicPath h) st = (inr tt, st') /\
    same_but_mounts st st' /\
    effects st' = effects st ++
      (if release affPath f (path_dirname affPath) =? 0
       then [Unmount (path_dirname affPath)] else []) ++
      (if release dicPath (release affPath f) (path_dirname dicPath) =? 0
       then [Unmount (path_dirname dicPath)] else []) ++
      [Dispose h] /\
    forall d, fileMountRefCount st' !! d =
              held (release dicPath (release affPath f) d).
Proof.
  intros Hf Hpos.
  destruct (unmountPath_spec affPath st f Hf Hpos) as (st1 & H1 & S1 & E1 & R1).
  destruct (unmountPath_spec dicPath st1 (release affPath f) R1
              (release_nonneg _ _ Hpos)) as (st2 & H2 & S2 & E2 & R2).
  simpl. rewrite (bind_inr _ _ _ _ _ H1), (bind_inr _ _ _ _ _ H2). mrun.
  eexists. split; [reflexivity|]. simpl. split; [|split; [|exact R2]].
  - apply (same_but_mounts_trans _ _ _ S1), (same_but_mounts_trans _ _ _ S2).
    by destruct st2.
  - rewrite E2, E1. by rewrite <- !app_assoc.
Qed.

End RefCount.

(** ** Invariants of the provider *)

Section Invariants.

Context `{factory : HunspellFactory} `{platform : Platform}.

Lemma same_but_trace_refl st : same_but_trace st st.
Proof. by destruct st. Qed.

Lemma same_but_trace_trans st1 st2 st3 :
  same_but_trace st1 st2 -> same_but_trace st2 st3 -> same_but_trace st1 st3.
Proof. unfold same_but_trace. intros -> ->. by destruct st1. Qed.

Lemma same_but_trace_table st st' :
  same_but_trace st st' -> spellCheckerTable st' = spellCheckerTable st.
Proof. unfold same_but_trace. by intros ->. Qed.

Lemma wf_newProvider : wf newProvider.
Proof.
  split; simpl; [constructor | done | by intros k [? ?] | done | done | done].
Qed.

Lemma wf_same_but_trace st st' : same_but_trace st st' -> wf st -> wf st'.
Proof. unfold same_but_trace. intros Hs [? ? ? ? ? ?]. rewrite Hs. by split. Qed.

Lemma wf_set_verboseLog b st : wf st -> wf (set_verboseLog b st).
Proof. intros [? ? ? ? ? ?]. by split. Qed.

Lemma wf_initialize st : wf st -> wf (exec initialize st).
Proof.
  intros H. unfold initialize. mrun. destruct (hunspellFactory st); [done|].
  simpl. destruct H. by split.
Qed.

Lemma wf_initializeResumed outcome st :
  wf st -> wf (exec (initializeResumed outcome) st).
Proof.
  intros H. unfold initializeResumed. mrun. destruct (loading st); [done|].
  destruct outcome; simpl; destruct H; by split.
Qed.

(** setProvider: in a renderer the host receives the callback, elsewhere
    a warning is logged. *)
Lemma setProvider_renderer key cb st :
  process_type = "renderer" ->
  setProvider key cb st =
    (inr tt, set_webFrameProvider (Some cb)
               (set_effects (effects st ++ [SetSpellCheckProvider key true cb]) st)).
Proof. intros H. unfold setProvider. rewrite bool_decide_eq_true_2 by done. done. Qed.

Lemma setProvider_elsewhere key cb st :
  process_type <> "renderer" ->
  setProvider key cb st =
    (inr tt, set_logged (logged st ++ [(LogWarn, "Electron-hunspell::attach: Cannot lookup webFrame to set spell checker provider")]) st).
Proof. intros H. unfold setProvider. rewrite bool_decide_eq_false_2 by done. done. Qed.

(** The for-of loop and the callback leave the provider as it is. *)
Lemma spellOthers_trace key text others st :
  same_but_trace st (exec (spellOthers key text others) st).
Proof.
  revert st. induction others as [|k others IH]; intros st; simpl.
  - apply same_but_trace_refl.
  - unfold exec. mrun.
    destruct (Table.get (spellCheckerTable st) k) as [c|]; simpl;
      [|apply same_but_trace_refl].
    destruct (verboseLog st); simpl.
    + destruct (spell (spellChecker c) text); simpl; [by destruct st|].
      eapply same_but_trace_trans; [|apply IH]. by destruct st.
    + destruct (spell (spellChecker c) text); simpl; [by destruct st|].
      eapply same_but_trace_trans; [|apply IH]. by destruct st.
Qed.

Lemma spellCheck_trace cb text st :
  same_but_trace st (exec (spellCheck cb text) st).
Proof.
  destruct cb as [key all|]; [|apply same_but_trace_refl].
  unfold spellCheck, exec. mrun.
  destruct (Table.get (spellCheckerTable st) key) as [c|]; simpl;
    [|apply same_but_trace_refl].
  destruct (verboseLog st); simpl;
    (destruct (negb all || _ || _); simpl; [by destruct st|];
     eapply same_but_trace_trans; [|apply spellOthers_trace]; by destruct st).
Qed.

Lemma getSuggestion_trace text st :
  same_but_trace st (exec (getSuggestion text) st).
Proof.
  unfold getSuggestion, exec. mrun.
  destruct (currentSpellCheckerKey st) as [k|]; simpl; [|by destruct st].
  destruct (falsy k); simpl; [by destruct st|].
  destruct (Table.lookup (spellCheckerTable st) k); simpl; try (by destruct st).
  destruct (verboseLog st); simpl; by destruct st.
Qed.

(** switchDictionary *)

Lemma switchDictionary_throws key all now1 now2 st :
  key = "" \/ Table.lookup (spellCheckerTable st) key = Table.Undefined ->
  switchDictionary key all now1 now2 st =
    (inl (JsError ("Spellchecker dictionary for " +:+ key +:+
                   " is not available, ensure dictionary loaded")), st).
Proof.
  intros H. unfold switchDictionary. mrun.
  destruct H as [-> | ->]; [done|]. simpl. by rewrite orb_true_r.
Qed.

(** The guard of line 83 lets through every key for which [table[key]] is
    truthy, an entry or an inherited member. *)
Lemma switchDictionary_ok key all now1 now2 st :
  key <> "" ->
  Table.lookup (spellCheckerTable st) key <> Table.Undefined ->
  (forall k, currentSpellCheckerKey st = Some k ->
             Table.lookup (spellCheckerTable st) k <> Table.Undefined) ->
  exists st',
    switchDictionary key all now1 now2 st = (inr tt, st') /\
    spellCheckerTable st' = accounted now1 st /\
    currentSpellCheckerKey st' = Some key /\
    currentSpellCheckerStartTime st' = Some now2 /\
    fileMountRefCount st' = fileMountRefCount st /\
    hunspellFactory st' = hunspellFactory st /\
    verboseLog st' = verboseLog st /\
    webFrameProvider st' =
      (if bool_decide (process_type = "renderer")
       then Some (provider key all) else webFrameProvider st) /\
    effects st' = effects st ++
      (if bool_decide (process_type = "renderer")
       then [SetSpellCheckProvider key true (provider key all)] else []).
Proof.
  intros Hkey Hc0 Hcur. unfold switchDictionary, accounted, attach, setProvider.
  mrun. unfold falsy at 1. rewrite bool_decide_eq_false_2 by done.
  replace (undefined (Table.lookup (spellCheckerTable st) key)) with false
    by (by destruct (Table.lookup (spellCheckerTable st) key)).
  simpl.
  destruct (currentSpellCheckerStartTime st) as [start|]; simpl.
  - destruct (currentSpellCheckerKey st) as [k|] eqn:Ek; simpl.
    + specialize (Hcur k eq_refl). unfold Table.lookup in *.
      destruct (Table.get (spellCheckerTable st) k) as [c|];
        [|destruct (Table.inherited k); [|done]];
      destruct (falsy k); simpl;
        destruct (bool_decide (process_type = "renderer")); simpl;
        eexists; (split; [reflexivity|]); simpl;
        rewrite ?app_nil_r; repeat split; done.
    + destruct (bool_decide (process_type = "renderer")); simpl;
        eexists; (split; [reflexivity|]); simpl;
        rewrite ?app_nil_r; repeat split; done.
  - destruct (bool_decide (process_type = "renderer")); simpl;
      eexists; (split; [reflexivity|]); simpl;
      rewrite ?app_nil_r; repeat split; done.
Qed.

Lemma same_but_mounts_fields st st' :
  same_but_mounts st st' ->
  spellCheckerTable st' = spellCheckerTable st /\
  currentSpellCheckerKey st' = currentSpellCheckerKey st /\
  currentSpellCheckerStartTime st' = currentSpellCheckerStartTime st /\
  webFrameProvider st' = webFrameProvider st /\
  hunspellFactory st' = hunspellFactory st /\
  verboseLog st' = verboseLog st.
Proof. unfold same_but_mounts. intros ->. done. Qed.

(** loadDictionary *)

Lemma useFactory_loaded st : hunspellFactory st = true -> useFactory st = (inr tt, st).
Proof. unfold useFactory. mrun. by intros ->. Qed.

Lemma useFactory_missing st : hunspellFactory st = false -> useFactory st = (inl TypeError, st).
Proof. unfold useFactory. mrun. by intros ->. Qed.

(** The guard of line 153 stops every key for which [table[key]] is
    truthy, an entry or an inherited member. *)
Lemma loadDictionary_truthy key dic aff st :
  key = "" \/ Table.lookup (spellCheckerTable st) key <> Table.Undefined ->
  loadDictionary key dic aff st =
    (inl (JsError ("Invalid key: " +:+
                   (if bool_decide (key = "") then "key is empty"
                    else "already registered key"))), st).
Proof.
  intros H. unfold loadDictionary, falsy. mrun.
  destruct (bool_decide (key = "")) eqn:E; simpl; [done|].
  destruct H as [-> | H]; [done|].
  by destruct (Table.lookup (spellCheckerTable st) key).
Qed.

Lemma loadDictionary_invalid key dic aff st :
  key = "" \/ is_Some (Table.get (spellCheckerTable st) key) ->
  loadDictionary key dic aff st =
    (inl (JsError ("Invalid key: " +:+
                   (if bool_decide (key = "") then "key is empty"
                    else "already registered key"))), st).
Proof.
  intros [H|H]; apply loadDictionary_truthy; [by left|right].
  by apply TableFacts.lookup_is_Some.
Qed.

Lemma getMountedPath_ok filePath st :
  hunspellFactory st = true ->
  getMountedPath filePath st =
    (inr (mountedPath filePath),
     set_effects (effects st ++ [MountDirectory (path_dirname filePath)]) st).
Proof.
  intros H. unfold getMountedPath.
  rewrite (bind_inr _ _ _ _ _ (useFactory_loaded st H)). done.
Qed.

Lemma mountFileDictionary_ok dicFilePath affFilePath st :
  hunspellFactory st = true ->
  mountFileDictionary dicFilePath affFilePath st =
    (inr (mountedPath affFilePath, mountedPath dicFilePath, false),
     set_effects (effects st ++ [MountDirectory (path_dirname affFilePath);
                                 MountDirectory (path_dirname dicFilePath)]) st).
Proof.
  intros H. unfold mountFileDictionary.
  mstep (getMountedPath_ok affFilePath st H).
  mstep (getMountedPath_ok dicFilePath
           (set_effects (effects st ++ [MountDirectory (path_dirname affFilePath)]) st) H).
  unfold ret. simpl. rewrite <- app_assoc. by destruct st.
Qed.

Lemma mountFileDictionary_missing dicFilePath affFilePath st :
  hunspellFactory st = false ->
  mountFileDictionary dicFilePath affFilePath st = (inl TypeError, st).
Proof.
  intros H. unfold mountFileDictionary, getMountedPath.
  rewrite (bind_inl _ _ _ _ _ (bind_inl _ _ _ _ _ (useFactory_missing st H))). done.
Qed.

Lemma mountBufferDictionary_missing dicBuffer affBuffer st :
  hunspellFactory st = false ->
  mountBufferDictionary dicBuffer affBuffer st = (inl TypeError, st).
Proof.
  intros H. unfold mountBufferDictionary.
  by rewrite (bind_inl _ _ _ _ _ (useFactory_missing st H)).
Qed.

Lemma assignSpellchecker_file key affPath dicPath st (f : string -> Z) :
  hunspellFactory st = true ->
  (forall d, fileMountRefCount st !! d = held (f d)) ->
  (forall d, 0 <= f d) ->
  let entry := {| spellChecker := create affPath dicPath; uptime := 0;
                  dispose := unmountFile affPath dicPath (create affPath dicPath) |} in
  exists st',
    assignSpellchecker key (affPath, dicPath, false) st = (inr tt, st') /\
    spellCheckerTable st' = Table.set key entry (spellCheckerTable st) /\
    effects st' = effects st ++ [Create affPath dicPath] /\
    (forall d, fileMountRefCount st' !! d = held (f d + refsOf d entry)) /\
    currentSpellCheckerKey st' = currentSpellCheckerKey st /\
    currentSpellCheckerStartTime st' = currentSpellCheckerStartTime st /\
    webFrameProvider st' = webFrameProvider st /\
    hunspellFactory st' = hunspellFactory st /\
    verboseLog st' = verboseLog st.
Proof.
  intros Hfac Hf Hpos entry. unfold assignSpellchecker.
  rewrite (bind_inr _ _ _ _ _ (useFactory_loaded st Hfac)).
  set (st0 := set_effects (effects st ++ [Create affPath dicPath]) st).
  destruct (increaseRefCount_spec affPath st0 f Hf Hpos) as (st1 & H1 & S1 & E1 & R1).
  assert (forall d, 0 <= f d + (if decide (path_dirname affPath = d) then 1 else 0)) as Hpos1.
  { intros d. specialize (Hpos d). case_decide; lia. }
  destruct (increaseRefCount_spec dicPath st1 _ R1 Hpos1) as (st2 & H2 & S2 & E2 & R2).
  pose proof (same_but_mounts_fields _ _ (same_but_mounts_trans _ _ _ S1 S2))
    as (Ht & Hc & Hs & Hw & Hh & Hv).
  assert ((increaseRefCount affPath ;;; increaseRefCount dicPath) st0 = (inr tt, st2))
    as Hinc by (by mstep H1).
  cbv beta. mstep (emit_run (Create affPath dicPath) st). fold st0.
  simpl negb. cbv iota. mstep Hinc.
  mrun. eexists. split; [reflexivity|]. simpl.
  rewrite Ht, Hc, Hs, Hw, Hh, Hv, E2, E1. repeat split; try done.
  intros d. rewrite R2. unfold refsOf. simpl. f_equal. lia.
Qed.

Lemma loadDictionary_file_ok key dicFilePath affFilePath st (f : string -> Z) :
  key <> "" ->
  Table.lookup (spellCheckerTable st) key = Table.Undefined ->
  hunspellFactory st = true ->
  (forall d, fileMountRefCount st !! d = held (f d)) ->
  (forall d, 0 <= f d) ->
  exists st',
    loadDictionary key (FilePath dicFilePath) (FilePath affFilePath) st = (inr tt, st') /\
    spellCheckerTable st' =
      Table.set key (fileEntry dicFilePath affFilePath) (spellCheckerTable st) /\
    effects st' = effects st ++
      [MountDirectory (path_dirname affFilePath);
       MountDirectory (path_dirname dicFilePath);
       Create (mountedPath affFilePath) (mountedPath dicFilePath)] /\
    (forall d, fileMountRefCount st' !! d =
               held (f d + refsOf d (fileEntry dicFilePath affFilePath))) /\
    currentSpellCheckerKey st' = currentSpellCheckerKey st /\
    currentSpellCheckerStartTime st' = currentSpellCheckerStartTime st /\
    webFrameProvider st' = webFrameProvider st /\
    hunspellFactory st' = hunspellFactory st /\
    verboseLog st' = verboseLog st.
Proof.
  intros Hkey Hfresh Hfac Hf Hpos. unfold loadDictionary.
  unfold bind at 1, this at 1. unfold falsy.
  rewrite bool_decide_eq_false_2 by done. rewrite Hfresh. simpl.
  rewrite (bind_inr _ _ _ _ _ (mountFileDictionary_ok dicFilePath affFilePath st Hfac)).
  destruct (assignSpellchecker_file key (mountedPath affFilePath) (mountedPath dicFilePath)
              (set_effects (effects st ++ [MountDirectory (path_dirname affFilePath);
                                            MountDirectory (path_dirname dicFilePath)]) st)
              f Hfac Hf Hpos)
    as (st' & Hrun & Ht & He & Hr & Hc & Hs & Hw & Hh & Hv).
  exists st'. split; [exact Hrun|]. simpl in *.
  rewrite He, <- app_assoc. repeat split; done.
Qed.

Lemma loadDictionary_file_missing key dicFilePath affFilePath st :
  hunspellFactory st = false ->
  exists e, loadDictionary key (FilePath dicFilePath) (FilePath affFilePath) st = (inl e, st).
Proof.
  intros H. unfold loadDictionary. unfold bind at 1, this at 1.
  destruct (falsy key || _); [by eexists|].
  rewrite (bind_inl _ _ _ _ _ (mountFileDictionary_missing _ _ st H)). by eexists.
Qed.

Lemma loadDictionary_buffer_ok key dicBuffer affBuffer st :
  key <> "" ->
  Table.lookup (spellCheckerTable st) key = Table.Undefined ->
  hunspellFactory st = true ->
  exists st',
    loadDictionary key (Buffer dicBuffer) (Buffer affBuffer) st = (inr tt, st') /\
    spellCheckerTable st' =
      Table.set key (bufferEntry key dicBuffer affBuffer st) (spellCheckerTable st) /\
    fileMountRefCount st' = fileMountRefCount st /\
    currentSpellCheckerKey st' = currentSpellCheckerKey st /\
    currentSpellCheckerStartTime st' = currentSpellCheckerStartTime st /\
    webFrameProvider st' = webFrameProvider st /\
    hunspellFactory st' = hunspellFactory st /\
    verboseLog st' = verboseLog st.
Proof.
  intros Hkey Hfresh Hfac.
  unfold loadDictionary, mountBufferDictionary, assignSpellchecker, useFactory, falsy.
  mrun. rewrite bool_decide_eq_false_2 by done. rewrite Hfresh. simpl.
  repeat (rewrite Hfac; simpl). eexists. split; [reflexivity|]. done.
Qed.

Lemma loadDictionary_buffer_missing key dicBuffer affBuffer st :
  hunspellFactory st = false ->
  exists e, loadDictionary key (Buffer dicBuffer) (Buffer affBuffer) st = (inl e, st).
Proof.
  intros H. unfold loadDictionary. unfold bind at 1, this at 1.
  destruct (falsy key || _); [by eexists|].
  rewrite (bind_inl _ _ _ _ _ (mountBufferDictionary_missing _ _ st H)). by eexists.
Qed.

Lemma loadDictionary_mixed key dic aff st :
  key <> "" ->
  Table.lookup (spellCheckerTable st) key = Table.Undefined ->
  match dic, aff with
  | FilePath _, Buffer _ | Buffer _, FilePath _ => True
  | _, _ => False
  end ->
  loadDictionary key dic aff st =
    (inl (JsError "Cannot load dictionary for given parameters"), st).
Proof.
  intros Hkey Hfresh Hmix. unfold loadDictionary, falsy. mrun.
  rewrite bool_decide_eq_false_2 by done. rewrite Hfresh. simpl.
  by destruct dic, aff.
Qed.

Lemma wf_loadDictionary key dic aff st :
  wf st -> wf (exec (loadDictionary key dic aff) st).
Proof.
  intros Hwf. unfold exec.
  destruct (decide (key = "")) as [Hk|Hk].
  { by rewrite loadDictionary_truthy by auto. }
  destruct (TableFacts.lookup_cases (spellCheckerTable st) key) as [Hfresh|Hreg].
  2:{ by rewrite loadDictionary_truthy by auto. }
  pose proof Hfresh as [Hget Hinh]%TableFacts.lookup_Undefined.
  assert (forall e,
            NoDup (Table.keys (Table.set key e (spellCheckerTable st))) /\
            Table.get (Table.set key e (spellCheckerTable st)) "" = None /\
            forall k, is_Some (Table.get (Table.set key e (spellCheckerTable st)) k) ->
                      Table.inherited k = false) as Htable.
  { intros e. split; [|split].
    - apply TableFacts.NoDup_keys_set, Hwf.
    - rewrite TableFacts.get_set_ne by done. apply Hwf.
    - intros k. destruct (decide (key = k)) as [<-|Hne]; [by intros _|].
      rewrite TableFacts.get_set_ne by done. apply Hwf. }
  assert (forall e k, Table.lookup (spellCheckerTable st) k <> Table.Undefined ->
            Table.lookup (Table.set key e (spellCheckerTable st)) k <> Table.Undefined)
    as Hkeep.
  { intros e k Hk'. destruct (decide (key = k)) as [<-|Hne]; [done|].
    rewrite TableFacts.lookup_Undefined_dom; [done|].
    by rewrite TableFacts.get_set_ne. }
  destruct dic as [dicPath|dicBuf], aff as [affPath|affBuf];
    [| by rewrite loadDictionary_mixed by (simpl; tauto)
     | by rewrite loadDictionary_mixed by (simpl; tauto) |];
    destruct (hunspellFactory st) eqn:Hfac.
  - destruct (loadDictionary_file_ok key dicPath affPath st
                (fun d => refsIn d (spellCheckerTable st)) Hk Hfresh Hfac
                (wf_refs _ Hwf) (fun d => refsIn_nonneg d _))
      as (st' & -> & Ht & _ & Hr & Hc & Hs & Hw & _).
    simpl. destruct (Htable (fileEntry dicPath affPath)) as (H1 & H2 & H3). split.
    + by rewrite Ht.
    + by rewrite Ht.
    + by rewrite Ht.
    + intros d. rewrite Hr, Ht. by rewrite refsIn_set_new.
    + intros k Hcur. rewrite Hc in Hcur. rewrite Ht, Hs.
      destruct (wf_current _ Hwf k Hcur) as (? & ? & ?). repeat split; try done.
      by apply Hkeep.
    + intros cb Hcb. rewrite Hw in Hcb. rewrite Hc. by apply Hwf.
  - destruct (loadDictionary_file_missing key dicPath affPath st Hfac) as [e ->]. done.
  - destruct (loadDictionary_buffer_ok key dicBuf affBuf st Hk Hfresh Hfac)
      as (st' & -> & Ht & Hr & Hc & Hs & Hw & _).
    simpl. destruct (Htable (bufferEntry key dicBuf affBuf st)) as (H1 & H2 & H3). split.
    + by rewrite Ht.
    + by rewrite Ht.
    + by rewrite Ht.
    + intros d. rewrite Hr, Ht, refsIn_set_new by done.
      rewrite (wf_refs _ Hwf). unfold refsOf. simpl. by rewrite Z.add_0_r.
    + intros k Hcur. rewrite Hc in Hcur. rewrite Ht, Hs.
      destruct (wf_current _ Hwf k Hcur) as (? & ? & ?). repeat split; try done.
      by apply Hkeep.
    + intros cb Hcb. rewrite Hw in Hcb. rewrite Hc. by apply Hwf.
  - destruct (loadDictionary_buffer_missing key dicBuf affBuf st Hfac) as [e ->]. done.
Qed.

(** unloadDictionary *)

Lemma unloadDictionary_noop key st :
  key = "" \/ Table.lookup (spellCheckerTable st) key = Table.Undefined ->
  unloadDictionary key st =
    (inr tt, set_logged (logged st ++ [(LogInfo, "Electron-hunspell::unloadDictionary: not able to find corresponding spellchecker for given key")]) st).
Proof.
  intros H. unfold unloadDictionary. mrun.
  destruct H as [-> | ->]; [done|]. simpl. by rewrite orb_true_r.
Qed.

Lemma isSelected_true key st :
  key <> "" -> currentSpellCheckerKey st = Some key -> isSelected key st = true.
Proof.
  intros Hk Hc. unfold isSelected, truthy, falsy. rewrite Hc.
  by rewrite bool_decide_eq_false_2, bool_decide_eq_true_2.
Qed.

Lemma isSelected_false key st :
  currentSpellCheckerKey st <> Some key -> isSelected key st = false.
Proof.
  intros Hc. unfold isSelected. rewrite (bool_decide_eq_false_2 _ Hc). apply andb_false_r.
Qed.

(** A registered key: the selection is cleared if the key is selected,
    then the disposer of the entry runs, then the entry is deleted. *)
Lemma unloadDictionary_ok key dict st :
  key <> "" ->
  Table.get (spellCheckerTable st) key = Some dict ->
  let st1 := if isSelected key st then exec (clearSelection key) st else st in
  exists st2,
    runDispose (dispose dict) st1 = (inr tt, st2) /\
    same_but_mounts st1 st2 /\
    unloadDictionary key st =
      (inr tt, set_logged (logged st2 ++ [unloadedMessage key])
                 (set_spellCheckerTable (Table.delete key (spellCheckerTable st2)) st2)).
Proof.
  intros Hkey Hget st1.
  assert (spellCheckerTable st1 = spellCheckerTable st) as Ht1.
  { subst st1. destruct (isSelected key st); [|done].
    unfold clearSelection, setProvider. mrun.
    by destruct (bool_decide (process_type = "renderer")). }
  destruct (runDispose_total (dispose dict) st1) as (st2 & Hrun & Hsame).
  exists st2. split; [done|]. split; [done|].
  unfold unloadDictionary. unfold bind at 1, this at 1. unfold falsy.
  rewrite bool_decide_eq_false_2 by done.
  rewrite (TableFacts.lookup_get _ _ _ Hget). simpl.
  fold (isSelected key st).
  assert ((if isSelected key st then clearSelection key else ret tt) st = (inr tt, st1)) as Hsel.
  { subst st1. destruct (isSelected key st); [|done].
    unfold clearSelection, setProvider. mrun.
    by destruct (bool_decide (process_type = "renderer")). }
  mstep Hsel. unfold bind at 1, this at 1. rewrite Ht1, (TableFacts.lookup_get _ _ _ Hget).
  mstep Hrun. done.
Qed.

(** A key that names an inherited member and no entry passes the guard of
    line 176: the selection is cleared if the key is selected, and then
    [dict.dispose()] throws, [dict] being the inherited member. *)
Lemma unloadDictionary_inherited key st :
  Table.lookup (spellCheckerTable st) key = Table.Inherited ->
  unloadDictionary key st =
    (inl TypeError, if isSelected key st then exec (clearSelection key) st else st).
Proof.
  intros Hinh.
  assert (key <> "") as Hkey.
  { intros ->. apply TableFacts.lookup_Inherited in Hinh as [_ H]. done. }
  set (st1 := if isSelected key st then exec (clearSelection key) st else st).
  assert (spellCheckerTable st1 = spellCheckerTable st) as Ht1.
  { subst st1. destruct (isSelected key st); [|done].
    unfold clearSelection, setProvider. mrun.
    by destruct (bool_decide (process_type = "renderer")). }
  unfold unloadDictionary. unfold bind at 1, this at 1. unfold falsy.
  rewrite bool_decide_eq_false_2 by done. rewrite Hinh. simpl.
  fold (isSelected key st).
  assert ((if isSelected key st then clearSelection key else ret tt) st = (inr tt, st1)) as Hsel.
  { subst st1. destruct (isSelected key st); [|done].
    unfold clearSelection, setProvider. mrun.
    by destruct (bool_decide (process_type = "renderer")). }
  mstep Hsel. unfold bind at 1, this at 1. by rewrite Ht1, Hinh.
Qed.

(** clearSelection, field by field. *)
Lemma clearSelection_fields key st :
  let st1 := exec (clearSelection key) st in
  spellCheckerTable st1 = spellCheckerTable st /\
  fileMountRefCount st1 = fileMountRefCount st /\
  currentSpellCheckerKey st1 = None /\
  currentSpellCheckerStartTime st1 = None /\
  webFrameProvider st1 =
    (if bool_decide (process_type = "renderer")
     then Some alwaysTrue else webFrameProvider st) /\
  effects st1 = effects st ++
    (if bool_decide (process_type = "renderer")
     then [SetSpellCheckProvider key true alwaysTrue] else []).
Proof.
  unfold clearSelection, setProvider. mrun.
  destruct (bool_decide (process_type = "renderer")); simpl;
    rewrite ?app_nil_r; done.
Qed.

(** The counts after unmountFile are the counts without the two files. *)
Lemma release_both affPath dicPath h c (f : string -> Z) d :
  dispose c = unmountFile affPath dicPath h ->
  refsOf d c <= f d ->
  release dicPath (release affPath f) d = f d - refsOf d c.
Proof.
  intros Hd. unfold refsOf, release. rewrite Hd.
  repeat case_decide; lia.
Qed.

Lemma wf_clearSelection key st : wf st -> wf (exec (clearSelection key) st).
Proof.
  intros Hwf.
  destruct (clearSelection_fields key st) as (Ht & Hr & Hc & Hs & Hw & _).
  split.
  - rewrite Ht. apply Hwf.
  - rewrite Ht. apply Hwf.
  - rewrite Ht. apply Hwf.
  - intros d. rewrite Hr, Ht. apply Hwf.
  - intros k Hcur. congruence.
  - intros cb Hcb. rewrite Hw in Hcb. case_bool_decide as Hren.
    + injection Hcb as <-. done.
    + destruct (wf_callback _ Hwf cb Hcb) as [? _]. done.
Qed.

Lemma wf_unloadDictionary key st : wf st -> wf (exec (unloadDictionary key) st).
Proof.
  intros Hwf. unfold exec.
  destruct (decide (key = "")) as [Hk|Hk].
  { rewrite unloadDictionary_noop by auto. simpl. destruct Hwf. by split. }
  destruct (Table.lookup (spellCheckerTable st) key) as [dict| |] eqn:Hlook.
  3:{ rewrite unloadDictionary_noop by auto. simpl. destruct Hwf. by split. }
  2:{ rewrite unloadDictionary_inherited by done. simpl.
      destruct (isSelected key st); [by apply wf_clearSelection|done]. }
  apply TableFacts.lookup_Own in Hlook. rename Hlook into Hget.
  destruct (unloadDictionary_ok key dict st Hk Hget) as (st2 & Hrun & Hsame & ->).
  simpl. set (st1 := if isSelected key st then exec (clearSelection key) st else st) in *.
  pose proof (same_but_mounts_fields _ _ Hsame) as (Ht & Hc & Hs & Hw & _).
  assert (spellCheckerTable st1 = spellCheckerTable st /\
          fileMountRefCount st1 = fileMountRefCount st) as [Ht1 Hr1].
  { subst st1. destruct (isSelected key st); [|done].
    pose proof (clearSelection_fields key st) as (? & ? & _). done. }
  split; simpl.
  - rewrite Ht, Ht1. apply TableFacts.NoDup_keys_delete, Hwf.
  - rewrite Ht, Ht1, TableFacts.get_delete_ne by done. apply Hwf.
  - intros k. rewrite Ht, Ht1. destruct (decide (key = k)) as [<-|Hne].
    + rewrite TableFacts.get_delete_eq. by intros [? ?].
    + rewrite TableFacts.get_delete_ne by done. apply Hwf.
  - intros d. rewrite Ht, Ht1, (refsIn_delete d key dict) by (done || apply Hwf).
    destruct (dispose dict) as [a b h|k a b h] eqn:Hd.
    + destruct (unmountFile_spec a b h st1 (fun d => refsIn d (spellCheckerTable st)))
        as (st2' & Hrun' & _ & _ & Hr).
      { intros d'. rewrite Hr1. apply Hwf. }
      { intros d'. apply refsIn_nonneg. }
      rewrite Hrun in Hrun'. injection Hrun' as <-.
      rewrite Hr. f_equal. apply (release_both a b h); [done|].
      by apply (refsIn_ge d key).
    + simpl in Hrun. unfold emit, log, bind, update in Hrun. simpl in Hrun.
      injection Hrun as <-. simpl. rewrite Hr1, (wf_refs _ Hwf).
      unfold refsOf. rewrite Hd. by rewrite Z.sub_0_r.
  - intros k Hcur. rewrite Hc in Hcur. rewrite Ht, Hs, Ht1.
    subst st1. destruct (isSelected key st) eqn:Hsel.
    + pose proof (clearSelection_fields key st) as (_ & _ & Hnone & _). congruence.
    + destruct (wf_current _ Hwf k Hcur) as (Hne & Hin & Hst). repeat split; try done.
      rewrite TableFacts.lookup_Undefined_dom; [done|].
      rewrite TableFacts.get_delete_ne; [done|]. intros ->.
      by rewrite isSelected_true in Hsel.
  - intros cb Hcb. rewrite Hw in Hcb. rewrite Hc.
    subst st1. destruct (isSelected key st) eqn:Hsel.
    + pose proof (clearSelection_fields key st) as (_ & _ & _ & _ & Hweb & _).
      rewrite Hweb in Hcb. case_bool_decide as Hren.
      * injection Hcb as <-. done.
      * destruct (wf_callback _ Hwf cb Hcb) as [? _]. done.
    + by apply Hwf.
Qed.

(** The keys and the own properties after the time was accounted. *)
Lemma accounted_dom now1 st k :
  Table.get (accounted now1 st) k = None <->
  Table.get (spellCheckerTable st) k = None.
Proof.
  unfold accounted.
  destruct (currentSpellCheckerStartTime st); [|done].
  destruct (currentSpellCheckerKey st) as [k0|]; [|done].
  destruct (Table.get (spellCheckerTable st) k0) as [c|] eqn:E; [|done].
  destruct (falsy k0); [done|].
  destruct (decide (k0 = k)) as [->|Hne].
  - rewrite TableFacts.get_set_eq, E. done.
  - by rewrite TableFacts.get_set_ne.
Qed.

Lemma wf_switchDictionary key all now1 now2 st :
  wf st -> wf (exec (switchDictionary key all now1 now2) st).
Proof.
  intros Hwf. unfold exec.
  destruct (decide (key = "")) as [Hk|Hk].
  { by rewrite switchDictionary_throws by auto. }
  destruct (TableFacts.lookup_cases (spellCheckerTable st) key) as [Hno|Hyes].
  { by rewrite switchDictionary_throws by auto. }
  destruct (switchDictionary_ok key all now1 now2 st Hk Hyes) as
    (st' & -> & Ht & Hc & Hs & Hr & _ & _ & Hw & _).
  { intros k Hcur. by apply (wf_current _ Hwf). }
  simpl.
  assert (forall k, Table.get (spellCheckerTable st') k = None <->
                    Table.get (spellCheckerTable st) k = None) as Hdom.
  { intros k. rewrite Ht. apply accounted_dom. }
  split.
  - rewrite Ht. unfold accounted.
    destruct (currentSpellCheckerStartTime st); [|apply Hwf].
    destruct (currentSpellCheckerKey st) as [k0|]; [|apply Hwf].
    destruct (Table.get (spellCheckerTable st) k0) as [c|] eqn:E; [|apply Hwf].
    destruct (falsy k0); [apply Hwf|]. apply TableFacts.NoDup_keys_set, Hwf.
  - apply Hdom, Hwf.
  - intros k [c Hc']. apply (wf_own _ Hwf).
    destruct (Table.get (spellCheckerTable st) k) eqn:E; [eauto|].
    apply Hdom in E. congruence.
  - intros d. rewrite Hr, (wf_refs _ Hwf). f_equal. rewrite Ht. unfold accounted.
    destruct (currentSpellCheckerStartTime st); [|done].
    destruct (currentSpellCheckerKey st) as [k0|]; [|done].
    destruct (Table.get (spellCheckerTable st) k0) as [c|] eqn:E; [|done].
    destruct (falsy k0); [done|]. symmetry. by apply (refsIn_set_old d k0 c).
  - intros k Hcur. rewrite Hc in Hcur. injection Hcur as <-. rewrite Hs.
    repeat split; [done| |eauto].
    by rewrite (TableFacts.lookup_Undefined_dom _ _ _ (Hdom key)).
  - intros cb Hcb. rewrite Hw in Hcb. case_bool_decide as Hren.
    + injection Hcb as <-. split; [done|]. intros k a [= <- <-]. done.
    + destruct (wf_callback _ Hwf cb Hcb) as [? _]. done.
Qed.

Lemma wf_call c st : wf st -> wf (exec (call c) st).
Proof.
  intros Hwf. destruct c; simpl.
  - by apply wf_initialize.
  - by apply wf_initializeResumed.
  - by apply wf_set_verboseLog.
  - by apply wf_loadDictionary.
  - by apply wf_unloadDictionary.
  - by apply wf_switchDictionary.
  - apply (wf_same_but_trace st); [|done].
    pose proof (getSuggestion_trace text st) as H. unfold exec in *. unfold bind.
    by destruct (getSuggestion text st) as [[?|?] ?].
  - unfold exec, bind at 1, this at 1. destruct (webFrameProvider st) as [cb|]; [|done].
    apply (wf_same_but_trace st); [|done].
    pose proof (spellCheck_trace cb text st) as H. unfold exec in *. unfold bind.
    by destruct (spellCheck cb text st) as [[?|?] ?].
Qed.

Lemma wf_run cs st : wf st -> wf (run cs st).
Proof.
  revert st. induction cs as [|c cs IH]; intros st Hwf; simpl; [done|].
  by apply IH, wf_call.
Qed.

Lemma reachable_wf st : reachable st -> wf st.
Proof. intros [cs ->]. apply wf_run, wf_newProvider. Qed.

End Invariants.

(** ** The sort of availableDictionaries *)

Section Sorting.

Lemma orderBy_insert_perm x l : orderBy_insert x l ≡ₚ x :: l.
Proof.
  induction l as [|y l IH]; simpl; [done|].
  destruct (x.2 <? y.2); [|done]. rewrite IH. apply Permutation_swap.
Qed.

Lemma orderBy_uptime_desc_perm l : orderBy_uptime_desc l ≡ₚ l.
Proof.
  induction l as [|x l IH]; simpl; [done|].
  rewrite orderBy_insert_perm. by rewrite IH.
Qed.

Lemma orderBy_insert_sorted x l :
  StronglySorted (fun a b : string * Z => b.2 <= a.2) l ->
  StronglySorted (fun a b : string * Z => b.2 <= a.2) (orderBy_insert x l).
Proof.
  induction l as [|y l IH]; simpl; intros Hs.
  - repeat constructor.
  - apply StronglySorted_inv in Hs as [Hs Hy].
    destruct (x.2 <? y.2) eqn:E.
    + apply Z.ltb_lt in E. constructor; [by apply IH|].
      rewrite orderBy_insert_perm. constructor; [lia|done].
    + apply Z.ltb_ge in E. constructor; [by constructor|].
      constructor; [done|]. eapply Forall_impl; [exact Hy|]. simpl. intros. lia.
Qed.

Lemma orderBy_uptime_desc_sorted l :
  StronglySorted (fun a b : string * Z => b.2 <= a.2) (orderBy_uptime_desc l).
Proof.
  induction l as [|x l IH]; simpl; [constructor|]. by apply orderBy_insert_sorted.
Qed.

Lemma StronglySorted_fmap_elem {A B} (R : relation A) (R' : relation B)
    (f : A -> B) (l : list A) :
  (forall x y, x ∈ l -> y ∈ l -> R x y -> R' (f x) (f y)) ->
  StronglySorted R l -> StronglySorted R' (f <$> l).
Proof.
  induction l as [|a l IH]; simpl; intros Hf Hs; [constructor|].
  apply StronglySorted_inv in Hs as [Hs Ha]. constructor.
  - apply IH; [|done]. intros x y Hx Hy. apply Hf; by right.
  - apply Forall_fmap, Forall_forall. intros y Hy. simpl.
    apply Hf; [left|by right|]. rewrite Forall_forall in Ha. by apply Ha.
Qed.

Lemma availableDictionaries_perm st :
  availableDictionaries st ≡ₚ Table.keys (spellCheckerTable st).
Proof.
  unfold availableDictionaries, Table.keys. rewrite orderBy_uptime_desc_perm.
  rewrite <- list_fmap_compose. done.
Qed.

Lemma availableDictionaries_sorted st :
  NoDup (Table.keys (spellCheckerTable st)) ->
  StronglySorted (uptime_desc st) (availableDictionaries st).
Proof.
  intros Hnd. unfold availableDictionaries.
  apply (StronglySorted_fmap_elem (fun a b : string * Z => b.2 <= a.2));
    [|apply orderBy_uptime_desc_sorted].
  assert (forall x : string * Z,
             x ∈ orderBy_uptime_desc ((fun kc => (kc.1, uptime kc.2)) <$> spellCheckerTable st) ->
             uptimeOf st x.1 = x.2) as Hup.
  { intros x Hx. rewrite orderBy_uptime_desc_perm in Hx.
    apply list_elem_of_fmap in Hx as ([k c] & -> & Hin). simpl.
    unfold uptimeOf. by rewrite (TableFacts.elem_of_get _ _ _ Hnd Hin). }
  intros x y Hx Hy Hle. unfold uptime_desc. by rewrite (Hup x Hx), (Hup y Hy).
Qed.

End Sorting.

(** ** What a successful loadDictionary leaves *)

Section Loading.

Context `{factory : HunspellFactory} `{platform : Platform}.

Lemma loadDictionary_returns key dic aff st st' :
  loadDictionary key dic aff st = (inr tt, st') ->
  key <> "" /\ Table.get (spellCheckerTable st) key = None /\
  hunspellFactory st = true /\
  (exists e, spellCheckerTable st' = Table.set key e (spellCheckerTable st) /\
             uptime e = 0) /\
  currentSpellCheckerKey st' = currentSpellCheckerKey st /\
  currentSpellCheckerStartTime st' = currentSpellCheckerStartTime st /\
  webFrameProvider st' = webFrameProvider st /\
  exists es, effects st' = effects st ++ es /\ Forall (fun e => ~ attaches e) es.
Proof.
  intros Hrun.
  destruct (decide (key = "")) as [Hk|Hk].
  { rewrite loadDictionary_truthy in Hrun by auto. done. }
  destruct (TableFacts.lookup_cases (spellCheckerTable st) key) as [Hfresh|Hreg].
  2:{ rewrite loadDictionary_truthy in Hrun by auto. done. }
  pose proof Hfresh as [Hget Hinh]%TableFacts.lookup_Undefined.
  destruct (hunspellFactory st) eqn:Hfac.
  2:{ destruct dic as [dicPath|dicBuf], aff as [affPath|affBuf].
      - destruct (loadDictionary_file_missing key dicPath affPath st Hfac) as [e He].
        congruence.
      - rewrite loadDictionary_mixed in Hrun by done. done.
      - rewrite loadDictionary_mixed in Hrun by done. done.
      - destruct (loadDictionary_buffer_missing key dicBuf affBuf st Hfac) as [e He].
        congruence. }
  split; [done|]. split; [done|]. split; [done|].
  destruct dic as [dicPath|dicBuf], aff as [affPath|affBuf].
  - revert Hrun.
    unfold loadDictionary, mountFileDictionary, getMountedPath, assignSpellchecker,
      increaseRefCount, useFactory, falsy.
    mrun. rewrite bool_decide_eq_false_2 by done. rewrite Hfresh. simpl.
    repeat (rewrite Hfac; simpl). intros [= <-]. simpl.
    split; [eauto|]. repeat split; try done.
    eexists. split; [by rewrite <- !app_assoc|].
    repeat constructor; by intros [].
  - rewrite loadDictionary_mixed in Hrun by done. done.
  - rewrite loadDictionary_mixed in Hrun by done. done.
  - revert Hrun.
    unfold loadDictionary, mountBufferDictionary, assignSpellchecker, useFactory, falsy.
    mrun. rewrite bool_decide_eq_false_2 by done. rewrite Hfresh. simpl.
    repeat (rewrite Hfac; simpl). intros [= <-]. simpl.
    split; [eauto|]. repeat split; try done.
    eexists. split; [by rewrite <- !app_assoc|].
    repeat constructor; by intros [].
Qed.

(** A load that returns was of a key for which [table[key]] was undefined. *)
Lemma loadDictionary_returns_fresh key dic aff st st' :
  loadDictionary key dic aff st = (inr tt, st') ->
  Table.lookup (spellCheckerTable st) key = Table.Undefined.
Proof.
  intros Hrun.
  destruct (TableFacts.lookup_cases (spellCheckerTable st) key) as [Hfresh|Hreg]; [done|].
  rewrite loadDictionary_truthy in Hrun by auto. done.
Qed.

Lemma loadDictionary_throws key dic aff st e st' :
  loadDictionary key dic aff st = (inl e, st') -> st' = st.
Proof.
  intros Hrun.
  destruct (decide (key = "")) as [Hk|Hk].
  { rewrite loadDictionary_truthy in Hrun by auto. congruence. }
  destruct (TableFacts.lookup_cases (spellCheckerTable st) key) as [Hfresh|Hreg].
  2:{ rewrite loadDictionary_truthy in Hrun by auto. congruence. }
  destruct dic as [dicPath|dicBuf], aff as [affPath|affBuf];
    try (rewrite loadDictionary_mixed in Hrun by done; congruence);
    destruct (hunspellFactory st) eqn:Hfac.
  - revert Hrun.
    unfold loadDictionary, mountFileDictionary, getMountedPath, assignSpellchecker,
      increaseRefCount, useFactory, falsy.
    mrun. rewrite bool_decide_eq_false_2 by done. rewrite Hfresh. simpl.
    repeat (rewrite Hfac; simpl). done.
  - destruct (loadDictionary_file_missing key dicPath affPath st Hfac) as [e' He].
    congruence.
  - revert Hrun.
    unfold loadDictionary, mountBufferDictionary, assignSpellchecker, useFactory, falsy.
    mrun. rewrite bool_decide_eq_false_2 by done. rewrite Hfresh. simpl.
    repeat (rewrite Hfac; simpl). done.
  - destruct (loadDictionary_buffer_missing key dicBuf affBuf st Hfac) as [e' He].
    congruence.
Qed.

(** loadDictionary leaves the entries that are there as they are. *)
Lemma loadDictionary_keeps key dic aff st k c :
  Table.get (spellCheckerTable st) k = Some c ->
  Table.get (spellCheckerTable (exec (loadDictionary key dic aff) st)) k = Some c.
Proof.
  intros Hget. unfold exec.
  destruct (loadDictionary key dic aff st) as [[e|[]] st'] eqn:Hrun; simpl.
  - by rewrite (loadDictionary_throws _ _ _ _ _ _ Hrun).
  - destruct (loadDictionary_returns _ _ _ _ _ Hrun) as (_ & Hfresh & _ & (e & -> & _) & _).
    rewrite TableFacts.get_set_ne; [done|]. intros ->. congruence.
Qed.

(** What unloadDictionary leaves of the table: without the entry of the
    key, or as it was when the key has no entry. *)
Lemma unloadDictionary_table key st :
  key <> "" ->
  spellCheckerTable (exec (unloadDictionary key) st) =
  Table.delete key (spellCheckerTable st).
Proof.
  intros Hk. unfold exec.
  assert (forall s, Table.get (spellCheckerTable s) key = None ->
            spellCheckerTable s = Table.delete key (spellCheckerTable s)) as Habsent.
  { intros s H. symmetry. by apply TableFacts.delete_absent, TableFacts.get_None_keys. }
  destruct (Table.lookup (spellCheckerTable st) key) as [dict| |] eqn:Hlook.
  - apply TableFacts.lookup_Own in Hlook.
    destruct (unloadDictionary_ok key dict st Hk Hlook) as (st2 & Hrun & Hsame & ->).
    simpl. pose proof (same_but_mounts_fields _ _ Hsame) as (-> & _).
    destruct (isSelected key st); [|done].
    by destruct (clearSelection_fields key st) as (-> & _).
  - rewrite unloadDictionary_inherited by done. simpl.
    apply TableFacts.lookup_Inherited in Hlook as [Hget _].
    destruct (isSelected key st); [|by apply Habsent].
    destruct (clearSelection_fields key st) as (-> & _). by apply Habsent.
  - rewrite unloadDictionary_noop by auto. simpl.
    apply TableFacts.lookup_Undefined in Hlook as [Hget _]. by apply Habsent.
Qed.

(** unloadDictionary leaves the entries of the other keys as they are. *)
Lemma unloadDictionary_keeps key st k :
  k <> key ->
  Table.get (spellCheckerTable (exec (unloadDictionary key) st)) k =
  Table.get (spellCheckerTable st) k.
Proof.
  intros Hne.
  destruct (decide (key = "")) as [Hk|Hk].
  { unfold exec. by rewrite unloadDictionary_noop by auto. }
  rewrite unloadDictionary_table by done. by apply TableFacts.get_delete_ne.
Qed.

(** switchDictionary adds to the uptime of the selected entry the time since
    its selection, and leaves the other entries as they are. *)
Lemma switchDictionary_uptime key all now1 now2 st k c :
  wf st ->
  (forall start, currentSpellCheckerStartTime st = Some start -> start <= now1) ->
  Table.get (spellCheckerTable st) k = Some c ->
  exists c',
    Table.get (spellCheckerTable (exec (switchDictionary key all now1 now2) st)) k = Some c' /\
    uptime c <= uptime c'.
Proof.
  intros Hwf Hclock Hget. unfold exec.
  destruct (decide (key = "")) as [Hk|Hk].
  { rewrite switchDictionary_throws by auto. exists c. split; [done|lia]. }
  destruct (TableFacts.lookup_cases (spellCheckerTable st) key) as [Hno|Hyes].
  { rewrite switchDictionary_throws by auto. exists c. split; [done|lia]. }
  destruct (switchDictionary_ok key all now1 now2 st Hk Hyes) as (st' & -> & Ht & _).
  { intros k0 Hcur. by apply (wf_current _ Hwf). }
  simpl. rewrite Ht. unfold accounted.
  destruct (currentSpellCheckerStartTime st) as [start|]; [|exists c; split; [done|lia]].
  specialize (Hclock start eq_refl).
  destruct (currentSpellCheckerKey st) as [k0|]; [|exists c; split; [done|lia]].
  destruct (Table.get (spellCheckerTable st) k0) as [c1|] eqn:Hk0;
    [|exists c; split; [done|lia]].
  destruct (falsy k0); [exists c; split; [done|lia]|].
  destruct (decide (k0 = k)) as [->|Hne].
  - rewrite TableFacts.get_set_eq. eexists. split; [done|].
    rewrite Hget in Hk0. injection Hk0 as <-. simpl. lia.
  - rewrite TableFacts.get_set_ne by done. exists c. split; [done|lia].
Qed.

(** A call other than loadDictionary, unloadDictionary and switchDictionary
    leaves the table as it is. *)
Lemma call_table_same c st :
  match c with
  | CallLoadDictionary _ _ _ | CallUnloadDictionary _
  | CallSwitchDictionary _ _ _ _ => True
  | _ => spellCheckerTable (exec (call c) st) = spellCheckerTable st
  end.
Proof.
  destruct c as [|outcome|b|key dic aff|key|key all now1 now2|text|text]; simpl; try done.
  - unfold initialize. mrun. by destruct (hunspellFactory st).
  - unfold initializeResumed. mrun. destruct (loading st); [done|]. by destruct outcome.
  - pose proof (getSuggestion_trace text st) as Hs. unfold exec in *. unfold bind.
    destruct (getSuggestion text st) as [[?|?] st1]; simpl in *;
      by rewrite (same_but_trace_table _ _ Hs).
  - unfold exec, bind at 1, this at 1.
    destruct (webFrameProvider st) as [cb|]; [|done].
    pose proof (spellCheck_trace cb text st) as Hs. unfold exec in *. unfold bind.
    destruct (spellCheck cb text st) as [[?|?] st1]; simpl in *;
      by rewrite (same_but_trace_table _ _ Hs).
Qed.

(** Over a sequence of calls that keeps the key and whose clock readings do
    not go back, the uptime of the entry does not decrease. *)
Lemma run_uptime cs st k c :
  wf st -> clockOk cs st = true -> keeps k cs = true ->
  Table.get (spellCheckerTable st) k = Some c ->
  exists c',
    Table.get (spellCheckerTable (run cs st)) k = Some c' /\ uptime c <= uptime c'.
Proof.
  revert st c. induction cs as [|c0 cs IH]; intros st c Hwf Hclock Hkeeps Hget.
  - exists c. split; [done|lia].
  - simpl in Hclock, Hkeeps. apply andb_true_iff in Hclock as [Hnow Hclock].
    apply andb_true_iff in Hkeeps as [Hkeep Hkeeps].
    assert (exists c1, Table.get (spellCheckerTable (exec (call c0) st)) k = Some c1 /\
                       uptime c <= uptime c1) as (c1 & Hget1 & Hle1).
    { pose proof (call_table_same c0 st) as Hsame.
      destruct c0 as [|outcome|b|key dic aff|key|key all now1 now2|text|text];
        try (exists c; split; [by rewrite Hsame|lia]).
      - exists c. split; [by apply loadDictionary_keeps|lia].
      - exists c. split; [|lia]. simpl. rewrite unloadDictionary_keeps; [done|].
        apply negb_true_iff, bool_decide_eq_false in Hkeep. congruence.
      - apply switchDictionary_uptime; [done| |done].
        intros start Hstart. rewrite Hstart in Hnow. by apply Z.leb_le. }
    destruct (IH (exec (call c0) st) c1) as (c' & Hget' & Hle'); try done.
    { by apply wf_call. }
    exists c'. split; [done|lia].
Qed.

Lemma accounted_registered now1 st k :
  is_Some (Table.get (accounted now1 st) k) <->
  is_Some (Table.get (spellCheckerTable st) k).
Proof.
  unfold accounted.
  destruct (currentSpellCheckerStartTime st); [|done].
  destruct (currentSpellCheckerKey st) as [k0|]; [|done].
  destruct (Table.get (spellCheckerTable st) k0) as [c|] eqn:E; [|done].
  destruct (falsy k0); [done|].
  destruct (decide (k0 = k)) as [->|Hne].
  - rewrite TableFacts.get_set_eq, E. split; eauto.
  - by rewrite TableFacts.get_set_ne.
Qed.

Lemma registered_nonempty st k :
  wf st -> is_Some (Table.get (spellCheckerTable st) k) -> k <> "".
Proof. intros Hwf [c Hc] ->. rewrite (wf_nonempty _ Hwf) in Hc. done. Qed.

Lemma truthy_nonempty st k :
  wf st -> Table.lookup (spellCheckerTable st) k <> Table.Undefined -> k <> "".
Proof.
  intros Hwf Hk ->. apply Hk, TableFacts.lookup_Undefined.
  split; [apply Hwf|done].
Qed.

(** Switching while an entry is selected. *)
Lemma switchDictionary_flush st k c key all now1 now2 :
  wf st ->
  currentSpellCheckerKey st = Some k ->
  Table.get (spellCheckerTable st) k = Some c ->
  Table.lookup (spellCheckerTable st) key <> Table.Undefined ->
  exists start st',
    currentSpellCheckerStartTime st = Some start /\
    switchDictionary key all now1 now2 st = (inr tt, st') /\
    spellCheckerTable st' =
      Table.set k (addUptime (now1 - start) c) (spellCheckerTable st) /\
    uptimeOf st' k = uptimeOf st k + (now1 - start) /\
    currentSpellCheckerKey st' = Some key /\
    currentSpellCheckerStartTime st' = Some now2.
Proof.
  intros Hwf Hcur Hc Hkey.
  destruct (wf_current _ Hwf k Hcur) as (Hk & _ & [start Hstart]).
  destruct (switchDictionary_ok key all now1 now2 st) as (st' & Hrun & Ht & Hc' & Hs' & _).
  { by apply (truthy_nonempty st). }
  { done. }
  { intros k0 Hk0. by apply (wf_current _ Hwf). }
  unfold accounted in Ht. rewrite Hstart, Hcur, Hc in Ht.
  unfold falsy in Ht. rewrite bool_decide_eq_false_2 in Ht by done.
  exists start, st'. repeat split; try done.
  unfold uptimeOf. by rewrite Ht, TableFacts.get_set_eq, Hc.
Qed.

End Loading.

(** ** The spell-check callback *)

Section Callback.

Context `{factory : HunspellFactory} `{platform : Platform}.

(** The loop asks the dictionaries in order and stops at the first that
    accepts the word. *)
Lemma spellOthers_spec key text ks st :
  (forall k, k ∈ ks -> is_Some (Table.get (spellCheckerTable st) k)) ->
  exists verdict st' asked,
    spellOthers key text ks st = (inr verdict, st') /\
    same_but_trace st st' /\
    effects st' = effects st ++ (asks text <$> asked) /\
    Forall (registered (spellCheckerTable st)) asked /\
    asked.*1 `prefix_of` ks /\
    (verdict = false ->
     asked.*1 = ks /\ Forall (fun kc => accepts text kc = false) asked) /\
    (verdict = true ->
     exists asked0 kc,
       asked = asked0 ++ [kc] /\
       Forall (fun kc => accepts text kc = false) asked0 /\
       accepts text kc = true).
Proof.
  revert st. induction ks as [|k ks IH]; intros st Hreg.
  - exists false, st, []. simpl. rewrite app_nil_r.
    split; [done|]. split; [apply same_but_trace_refl|].
    repeat split; done.
  - destruct (Hreg k) as [c Hc]; [left|].
    assert (forall st1, same_but_trace st st1 ->
              effects st1 = effects st ++ [asks text (k, c)] ->
              spell (spellChecker c) text = false ->
              exists verdict st' asked,
                spellOthers key text ks st1 = (inr verdict, st') /\
                same_but_trace st st' /\
                effects st' = effects st ++ (asks text <$> asked) /\
                Forall (registered (spellCheckerTable st)) asked /\
                asked.*1 `prefix_of` k :: ks /\
                (verdict = false ->
                 asked.*1 = k :: ks /\ Forall (fun kc => accepts text kc = false) asked) /\
                (verdict = true ->
                 exists asked0 kc,
                   asked = asked0 ++ [kc] /\
                   Forall (fun kc => accepts text kc = false) asked0 /\
                   accepts text kc = true)) as Hrest.
    { intros st1 Hsame Heff Hrej.
      pose proof (same_but_trace_table _ _ Hsame) as Ht.
      destruct (IH st1) as (v & st' & asked & Hrun & Hs & He & Hr & Hp & Hf & Hy).
      { intros k' Hk'. rewrite Ht. apply Hreg. by right. }
      exists v, st', ((k, c) :: asked). split; [done|].
      split; [by eapply same_but_trace_trans|].
      split; [by rewrite He, Heff, <- app_assoc|].
      split; [constructor; [done|by rewrite <- Ht]|].
      split; [by apply prefix_cons|].
      split.
      - intros Hv. destruct (Hf Hv) as [Heq Hall]. split; [by rewrite fmap_cons, Heq|].
        by constructor.
      - intros Hv. destruct (Hy Hv) as (asked0 & kc & -> & Hall & Hacc).
        exists ((k, c) :: asked0), kc. split; [done|]. split; [by constructor|done]. }
    simpl. mrun. rewrite Hc. simpl.
    destruct (spell (spellChecker c) text) eqn:Hspell.
    + exists true. destruct (verboseLog st); simpl;
        eexists; exists [(k, c)]; (split; [reflexivity|]); simpl;
        (split; [by destruct st|]);
        (split; [done|]);
        (split; [by repeat constructor|]);
        (split; [by apply prefix_cons, prefix_nil|]);
        (split; [intros [=]|]);
        intros _; exists [], (k, c); by repeat split.
    + destruct (verboseLog st); simpl; apply Hrest; try done; by destruct st.
Qed.

Lemma otherDictionaries_registered key st k :
  k ∈ otherDictionaries key st -> is_Some (Table.get (spellCheckerTable st) k).
Proof.
  unfold otherDictionaries. rewrite list_elem_of_filter. intros [_ Hin].
  by apply TableFacts.keys_get.
Qed.

Lemma otherDictionaries_elem key st k c :
  Table.get (spellCheckerTable st) k = Some c -> k <> key ->
  k ∈ otherDictionaries key st.
Proof.
  intros Hget Hne. unfold otherDictionaries. rewrite list_elem_of_filter.
  split; [done|]. by apply (TableFacts.get_Some_keys _ _ c).
Qed.

(** The callback of attach: the primary first, then, if asked to and the
    primary rejects, the loop over the other dictionaries. *)
Lemma spellCheck_provider_spec key all text st p :
  Table.get (spellCheckerTable st) key = Some p ->
  exists verdict st' asked,
    spellCheck (provider key all) text st = (inr verdict, st') /\
    same_but_trace st st' /\
    effects st' = effects st ++ asks text (key, p) :: (asks text <$> asked) /\
    Forall (registered (spellCheckerTable st)) asked /\
    asked.*1 `prefix_of` otherDictionaries key st /\
    (all = false \/ otherDictionaries key st = [] \/ accepts text (key, p) = true ->
     verdict = accepts text (key, p) /\ asked = []) /\
    (all = true -> otherDictionaries key st <> [] -> accepts text (key, p) = false ->
     (verdict = false ->
      asked.*1 = otherDictionaries key st /\
      Forall (fun kc => accepts text kc = false) asked) /\
     (verdict = true ->
      exists asked0 kc,
        asked = asked0 ++ [kc] /\
        Forall (fun kc => accepts text kc = false) asked0 /\
        accepts text kc = true)).
Proof.
  intros Hp. unfold spellCheck. unfold bind at 1, this at 1. rewrite Hp.
  fold (otherDictionaries key st). unfold accepts at 1 2 3. simpl.
  set (primaryResult := spell (spellChecker p) text).
  mstep (emit_run (Spell (spellChecker p) text) st).
  set (st0 := set_effects (effects st ++ [Spell (spellChecker p) text]) st).
  assert (exists st1, (if verboseLog st
                       then log LogDebug ("Electron-hunspell::spellChecker: checking spell for '" +:+ text +:+
                                          "' with '" +:+ key +:+ "' returned")
                       else ret tt) st0 = (inr tt, st1) /\
                      same_but_trace st st1 /\
                      effects st1 = effects st ++ [Spell (spellChecker p) text])
    as (st1 & Hlog & Hs1 & He1).
  { destruct (verboseLog st); eexists; (split; [reflexivity|]); subst st0;
      simpl; split; try done; by destruct st. }
  mstep Hlog.
  destruct (negb all || (length (otherDictionaries key st) =? 0)%nat || primaryResult)
    eqn:Hshort.
  - exists primaryResult, st1, []. split; [done|]. split; [done|].
    split; [by rewrite He1|]. split; [constructor|]. split; [apply prefix_nil|].
    split; [done|]. intros -> Hne Hrej. rewrite Hrej in Hshort. simpl in Hshort.
    rewrite orb_false_r in Hshort. apply Nat.eqb_eq in Hshort.
    destruct (otherDictionaries key st); done.
  - apply orb_false_iff in Hshort as [Hshort Hrej].
    apply orb_false_iff in Hshort as [Hall Hlen].
    apply negb_false_iff in Hall. apply Nat.eqb_neq in Hlen.
    set (st2 := exec (log LogDebug "Electron-hunspell::spellChecker: running spellcheck against rest of dictionaries") st1).
    pose proof (same_but_trace_table _ _ Hs1) as Ht1.
    destruct (spellOthers_spec key text (otherDictionaries key st) st2)
      as (v & st' & asked & Hrun & Hs & He & Hr & Hpre & Hf & Hy).
    { intros k Hk. subst st2. simpl. rewrite Ht1.
      by apply (otherDictionaries_registered key). }
    exists v, st', asked.
    split; [by rewrite (bind_inr _ _ _ _ _ (log_run _ _ st1))|].
    split.
    { eapply same_but_trace_trans; [exact Hs1|].
      eapply same_but_trace_trans; [|exact Hs]. subst st2. by destruct st1. }
    split.
    { rewrite He. subst st2. simpl. rewrite He1, <- app_assoc. done. }
    split.
    { subst st2. simpl in Hr. by rewrite Ht1 in Hr. }
    split; [done|]. split.
    + intros [-> | [Hnil | Hacc]]; [done| |congruence].
      rewrite Hnil in Hlen. done.
    + intros _ _ _. split; [exact Hf|exact Hy].
Qed.

(** The disposer of an entry never calls setSpellCheckProvider. *)
Lemma unmountPath_effects p st st' :
  unmountPath p st = (inr tt, st') ->
  exists es, effects st' = effects st ++ es /\ Forall (fun e => ~ attaches e) es.
Proof.
  destruct (decreaseRefCount_total p st) as (r & st1 & Hrun & _ & He).
  unfold unmountPath. rewrite (bind_inr _ _ _ _ _ Hrun).
  destruct (r =? 0); mrun; intros [= <-]; simpl; rewrite He.
  - eexists. split; [done|]. repeat constructor. by intros [].
  - exists []. by rewrite app_nil_r.
Qed.

Lemma runDispose_effects d st st' :
  runDispose d st = (inr tt, st') ->
  exists es, effects st' = effects st ++ es /\ Forall (fun e => ~ attaches e) es.
Proof.
  destruct d as [a b h|k a b h]; simpl.
  - destruct (unmountPath_total a st) as (st1 & H1 & _).
    destruct (unmountPath_total b st1) as (st2 & H2 & _).
    rewrite (bind_inr _ _ _ _ _ H1), (bind_inr _ _ _ _ _ H2). mrun.
    intros [= <-]. simpl.
    destruct (unmountPath_effects _ _ _ H2) as (es2 & -> & F2).
    destruct (unmountPath_effects _ _ _ H1) as (es1 & -> & F1).
    exists (es1 ++ es2 ++ [Dispose h]). split; [by rewrite <- !app_assoc|].
    rewrite !Forall_app. repeat split; try done. repeat constructor. by intros [].
  - mrun. intros [= <-]. simpl. eexists. split; [by rewrite <- !app_assoc|].
    repeat constructor; by intros [].
Qed.

(** Unloading a registered key that is not the selected one. *)
Lemma unloadDictionary_unselected key dict st :
  key <> "" ->
  Table.get (spellCheckerTable st) key = Some dict ->
  currentSpellCheckerKey st <> Some key ->
  exists st',
    unloadDictionary key st = (inr tt, st') /\
    spellCheckerTable st' = Table.delete key (spellCheckerTable st) /\
    currentSpellCheckerKey st' = currentSpellCheckerKey st /\
    currentSpellCheckerStartTime st' = currentSpellCheckerStartTime st /\
    webFrameProvider st' = webFrameProvider st /\
    exists es, effects st' = effects st ++ es /\ Forall (fun e => ~ attaches e) es.
Proof.
  intros Hkey Hget Hsel.
  destruct (unloadDictionary_ok key dict st Hkey Hget) as (st2 & Hrun & Hsame & Hun).
  rewrite (isSelected_false key st Hsel) in *.
  pose proof (same_but_mounts_fields _ _ Hsame) as (Ht & Hc & Hs & Hw & _).
  eexists. split; [exact Hun|]. simpl. rewrite Ht, Hc, Hs, Hw.
  repeat split; try done. by apply (runDispose_effects (dispose dict)).
Qed.

(** What a run of the callback with checkAllDictionaries set consults. *)
Lemma provider_consults key text st p :
  Table.get (spellCheckerTable st) key = Some p ->
  exists verdict asked,
    consults key text st verdict asked /\
    asked.*1 `prefix_of` otherDictionaries key st /\
    (verdict = false -> asked.*1 = otherDictionaries key st) /\
    (verdict = true ->
     accepts text (key, p) = true \/
     exists asked0 kc, asked = asked0 ++ [kc] /\ accepts text kc = true).
Proof.
  intros Hp.
  destruct (spellCheck_provider_spec key true text st p Hp)
    as (v & st' & asked & Hrun & Hs & He & Hr & Hpre & Hshort & Hlong).
  exists v, asked. split; [by exists p, st'|]. split; [done|].
  destruct (accepts text (key, p)) eqn:Hacc.
  { destruct Hshort as [-> ->]; [auto|]. split; [done|]. by left. }
  destruct (otherDictionaries key st) as [|k ks] eqn:Ho.
  { destruct Hshort as [-> ->]; [auto|]. done. }
  destruct (Hlong eq_refl) as [Hf Hy]; [done|done|]. split.
  - intros Hv. by destruct (Hf Hv).
  - intros Hv. right. destruct (Hy Hv) as (asked0 & kc & ? & _ & ?). eauto.
Qed.

(** A new key joins the other dictionaries at its place in the order of
    the keys, the last place unless it is an array index; the keys that
    were there keep their order. *)
Lemma otherDictionaries_set_new key st st' k2 e :
  spellCheckerTable st' = Table.set k2 e (spellCheckerTable st) ->
  Table.get (spellCheckerTable st) k2 = None -> k2 <> key ->
  k2 ∈ otherDictionaries key st' /\
  filter (fun x => x <> k2) (otherDictionaries key st') = otherDictionaries key st /\
  (Table.arrayIndex k2 = None ->
   otherDictionaries key st' = otherDictionaries key st ++ [k2]).
Proof.
  intros Ht Hfresh Hne. unfold otherDictionaries. rewrite Ht. split; [|split].
  - apply list_elem_of_filter. split; [done|].
    apply (TableFacts.get_Some_keys _ _ e), TableFacts.get_set_eq.
  - rewrite list_filter_filter.
    transitivity (filter (fun x => x <> key)
                    (filter (fun x => x <> k2)
                       (Table.keys (Table.set k2 e (spellCheckerTable st))))).
    + rewrite list_filter_filter. apply list_filter_iff. intros x. tauto.
    + by rewrite TableFacts.keys_set_new_others.
  - intros Hidx. rewrite TableFacts.keys_set_new_last, filter_app by done.
    f_equal. rewrite filter_cons, decide_True by done. done.
Qed.

Lemma otherDictionaries_delete key st st' k3 :
  spellCheckerTable st' = Table.delete k3 (spellCheckerTable st) ->
  otherDictionaries key st' = filter (fun x => x <> k3) (otherDictionaries key st).
Proof.
  intros Ht. unfold otherDictionaries. rewrite Ht, TableFacts.keys_delete.
  rewrite !list_filter_filter. apply list_filter_iff. intros x. tauto.
Qed.

(** getSuggestion with a selected key that names an inherited member and
    no entry: [checker] is truthy and line 132 throws. *)
Lemma getSuggestion_inherited (text : string) (st : SpellCheckerProvider) k :
  currentSpellCheckerKey st = Some k ->
  Table.lookup (spellCheckerTable st) k = Table.Inherited ->
  getSuggestion text st = (inl TypeError, st).
Proof.
  intros Hcur Hinh.
  assert (k <> "") as Hk.
  { intros ->. apply TableFacts.lookup_Inherited in Hinh as [_ H]. done. }
  unfold getSuggestion. mrun. rewrite Hcur. simpl. unfold falsy.
  rewrite bool_decide_eq_false_2 by done. simpl. by rewrite Hinh.
Qed.

(** getSuggestion in one equation, for every other selection. *)
Lemma getSuggestion_spec (text : string) (st : SpellCheckerProvider) :
  (forall k, currentSpellCheckerKey st = Some k ->
             Table.lookup (spellCheckerTable st) k <> Table.Inherited) ->
  exists st',
    getSuggestion text st = (inr (suggestionsFor text st), st') /\
    same_but_trace st st' /\
    effects st' = effects st ++
      match currentSpellCheckerKey st with
      | Some k =>
          match Table.get (spellCheckerTable st) k with
          | Some checker =>
              if falsy k then [] else [Suggest (spellChecker checker) text]
          | None => []
          end
      | None => []
      end.
Proof.
  intros Hown. unfold getSuggestion, suggestionsFor. mrun.
  destruct (currentSpellCheckerKey st) as [k|]; simpl.
  - destruct (falsy k); simpl.
    + eexists. split; [reflexivity|]. simpl.
      split; [by destruct st|]. destruct (Table.get _ k); by rewrite app_nil_r.
    + specialize (Hown k eq_refl). unfold Table.lookup in *.
      destruct (Table.get (spellCheckerTable st) k); simpl.
      * destruct (verboseLog st); simpl; eexists; (split; [reflexivity|]);
          simpl; (split; [by destruct st|done]).
      * destruct (Table.inherited k); [done|].
        eexists. split; [reflexivity|]. simpl. split; [by destruct st|].
        by rewrite app_nil_r.
  - eexists. split; [reflexivity|]. simpl. split; [by destruct st|].
    by rewrite app_nil_r.
Qed.

End Callback.

(** ** Unmounting at the last reference *)

Section Unmounting.

Context `{factory : HunspellFactory} `{platform : Platform}.

Lemma refCount_held st d n : fileMountRefCount st !! d = held n -> refCount st d = n.
Proof.
  unfold refCount, held. intros ->. destruct (n =? 0) eqn:E; [|done].
  apply Z.eqb_eq in E. by subst.
Qed.

Lemma refsIn_zero d t :
  NoDup (Table.keys t) ->
  (forall k c, Table.get t k = Some c -> refsOf d c = 0) ->
  refsIn d t = 0.
Proof.
  induction t as [|[k c] t IH]; simpl; [done|].
  intros [Hk Hnd]%NoDup_cons Hall.
  rewrite (Hall k c) by (by rewrite decide_True). rewrite IH; [done|done|].
  intros k' c' Hget. apply (Hall k'). rewrite decide_False; [done|].
  intros ->. apply Hk. by apply (TableFacts.get_Some_keys _ _ c').
Qed.

(** The directories unmountFile asks the engine to unmount. *)
Lemma unmounted_at_zero affPath dicPath h dict (f : string -> Z) :
  dispose dict = unmountFile affPath dicPath h ->
  (forall d, refsOf d dict <= f d) ->
  let unmounted :=
    (if release affPath f (path_dirname affPath) =? 0
     then [path_dirname affPath] else []) ++
    (if release dicPath (release affPath f) (path_dirname dicPath) =? 0
     then [path_dirname dicPath] else []) in
  NoDup unmounted /\
  forall d, d ∈ unmounted <-> 0 < f d /\ f d - refsOf d dict = 0.
Proof.
  intros Hd Hle unmounted. subst unmounted.
  set (da := path_dirname affPath). set (db := path_dirname dicPath).
  assert (forall d, refsOf d dict =
                    (if decide (da = d) then 1 else 0) + (if decide (db = d) then 1 else 0))
    as Hrefs by (intros d; unfold refsOf; by rewrite Hd).
  pose proof (Hle da) as Ha. pose proof (Hle db) as Hb.
  rewrite Hrefs in Ha, Hb. unfold release. fold da db.
  rewrite (decide_True (P := da = da)) in * by done.
  rewrite (decide_True (P := db = db)) in * by done.
  destruct (decide (da = db)) as [Heq|Hne].
  - (* both files in one directory: it is released at the second file *)
    rewrite <- Heq in *. rewrite (decide_True (P := da = da)) in * by done.
    assert ((Z.max 0 (f da - 1) =? 0) = false) as -> by (apply Z.eqb_neq; lia).
    simpl. destruct (Z.eqb_spec (Z.max 0 (Z.max 0 (f da - 1) - 1)) 0) as [E|E].
    + split; [apply NoDup_singleton|]. intros d. rewrite list_elem_of_singleton, Hrefs.
      split.
      * intros ->. rewrite !decide_True by done. lia.
      * intros [Hpos Hz]. destruct (decide (da = d)); [done|]. lia.
    + split; [constructor|]. intros d. rewrite Hrefs. split.
      * intros Hin. by apply elem_of_nil in Hin.
      * intros [Hpos Hz]. destruct (decide (da = d)) as [<-|]; lia.
  - assert (db <> da) as Hne' by congruence.
    rewrite (decide_False (P := db = da)) in Ha by done. simpl in Ha, Hb.
    destruct (Z.eqb_spec (Z.max 0 (f da - 1)) 0) as [Ea|Ea];
      destruct (Z.eqb_spec (Z.max 0 (f db - 1)) 0) as [Eb|Eb]; simpl.
    + split.
      * constructor; [by rewrite list_elem_of_singleton|apply NoDup_singleton].
      * intros d. rewrite elem_of_cons, list_elem_of_singleton, Hrefs. split.
        -- intros [-> | ->].
           ++ rewrite decide_True, decide_False by done. lia.
           ++ rewrite decide_False, decide_True by done. lia.
        -- intros [Hpos Hz]. destruct (decide (da = d)); [by left|].
           destruct (decide (db = d)); [by right|]. lia.
    + split; [apply NoDup_singleton|].
      intros d. rewrite list_elem_of_singleton, Hrefs. split.
      * intros ->. rewrite decide_True, decide_False by done. lia.
      * intros [Hpos Hz]. destruct (decide (da = d)); [done|].
        destruct (decide (db = d)) as [<-|]; lia.
    + split; [apply NoDup_singleton|].
      intros d. rewrite list_elem_of_singleton, Hrefs. split.
      * intros ->. rewrite decide_False, decide_True by done. lia.
      * intros [Hpos Hz]. destruct (decide (db = d)); [done|].
        destruct (decide (da = d)) as [<-|]; lia.
    + split; [constructor|]. intros d. rewrite Hrefs. split.
      * intros Hin. by apply elem_of_nil in Hin.
      * intros [Hpos Hz]. destruct (decide (da = d)) as [Hd1|Hd1];
          destruct (decide (db = d)) as [Hd2|Hd2];
          try congruence;
          try rewrite <- Hd1 in Hz; try rewrite <- Hd2 in Hz; lia.
Qed.

End Unmounting.

(** * The claims *)

Section Claims.

Context `{factory : HunspellFactory} `{platform : Platform}.

(** C1: for every word and every table in which the primary key is
    registered, the callback built by switchDictionary's attach for (key,
    checkAllDictionaries) returns, and its first call into an engine is the
    primary dictionary's spell.  If checkAllDictionaries is false, or no
    other key is registered, or the primary accepts the word, the primary's
    verdict is returned and no other dictionary is asked.  Otherwise the
    other registered dictionaries are asked in the order of Object.keys, the
    callback returns true at the first one that accepts (asking none after
    it), and it returns false only when it has asked them all and every
    registered dictionary, the primary included, rejects the word. *)
Theorem provider_checks_primary_then_others
    (key : string) (checkAllDictionaries : bool) (text : string)
    (st : SpellCheckerProvider) (primaryChecker : SpellChecker) :
  Table.get (spellCheckerTable st) key = Some primaryChecker ->
  let primaryResult := spell (spellChecker primaryChecker) text in
  exists verdict st' asked,
    spellCheck (provider key checkAllDictionaries) text st = (inr verdict, st') /\
    same_but_trace st st' /\
    effects st' = effects st ++
      Spell (spellChecker primaryChecker) text :: (asks text <$> asked) /\
    Forall (registered (spellCheckerTable st)) asked /\
    asked.*1 `prefix_of` otherDictionaries key st /\
    (checkAllDictionaries = false \/ otherDictionaries key st = [] \/
     primaryResult = true ->
     verdict = primaryResult /\ asked = []) /\
    (checkAllDictionaries = true -> otherDictionaries key st <> [] ->
     primaryResult = false ->
     (verdict = true ->
      exists asked0 kc,
        asked = asked0 ++ [kc] /\
        Forall (fun kc => accepts text kc = false) asked0 /\
        accepts text kc = true) /\
     (verdict = false ->
      asked.*1 = otherDictionaries key st /\
      forall k c, Table.get (spellCheckerTable st) k = Some c ->
                  spell (spellChecker c) text = false) /\
     ((forall k c, Table.get (spellCheckerTable st) k = Some c ->
                   spell (spellChecker c) text = false) ->
      verdict = false)).
Proof.
  intros Hp primaryResult.
  destruct (spellCheck_provider_spec key checkAllDictionaries text st primaryChecker Hp)
    as (v & st' & asked & Hrun & Hs & He & Hr & Hpre & Hshort & Hlong).
  exists v, st', asked. do 5 (split; [done|]). split; [exact Hshort|].
  intros Hall Hne Hrej. destruct (Hlong Hall Hne Hrej) as [Hf Hy].
  split; [exact Hy|]. split.
  - intros Hv. destruct (Hf Hv) as [Heq Hrejs]. split; [done|].
    intros k c Hget. destruct (decide (k = key)) as [->|Hk].
    + rewrite Hp in Hget. by injection Hget as <-.
    + pose proof (otherDictionaries_elem key st k c Hget Hk) as Hin.
      rewrite <- Heq in Hin. apply list_elem_of_fmap in Hin as ([k' c'] & -> & Hin).
      rewrite Forall_forall in Hr, Hrejs.
      pose proof (Hr _ Hin) as Hreg. unfold registered in Hreg. simpl in *.
      rewrite Hget in Hreg. injection Hreg as ->. apply (Hrejs _ Hin).
  - intros Hnone. destruct v; [|done].
    destruct (Hy eq_refl) as (asked0 & [k c] & -> & _ & Hacc).
    rewrite Forall_app, Forall_singleton in Hr. destruct Hr as [_ Hreg].
    unfold registered in Hreg. simpl in Hreg. unfold accepts in Hacc. simpl in Hacc.
    rewrite (Hnone k c Hreg) in Hacc. done.
Qed.

(** C2: in every state reached by a sequence of calls, unloading a
    dictionary loaded from files asks the engine to unmount a directory (the
    mount point of a physical directory, under which its count is kept)
    exactly when the reference count of that directory, which is the number
    of files of loaded dictionaries in it, goes from positive to zero in
    that unload, and at most once.  So a directory in which another loaded
    dictionary still has a file is not unmounted, and a directory of the
    unloaded dictionary in which no other loaded dictionary has a file is
    unmounted: of two dictionaries sharing a directory, unloading the first
    leaves it mounted and unloading the second unmounts it. *)
Theorem unload_unmounts_directory_only_at_zero
    (cs : list Call) (key : string) (dict : SpellChecker)
    (affPath dicPath : string) (h : Hunspell) :
  let st := run cs newProvider in
  Table.get (spellCheckerTable st) key = Some dict ->
  dispose dict = unmountFile affPath dicPath h ->
  let st' := exec (unloadDictionary key) st in
  exists unmounted : list string,
    effects st' = effects st ++
      (if isSelected key st && bool_decide (process_type = "renderer")
       then [SetSpellCheckProvider key true alwaysTrue] else []) ++
      (Unmount <$> unmounted) ++ [Dispose h] /\
    NoDup unmounted /\
    (forall d, refCount st d = refsIn d (spellCheckerTable st)) /\
    (forall d, refCount st' d = refsIn d (spellCheckerTable st')) /\
    (forall d, d ∈ unmounted <-> 0 < refCount st d /\ refCount st' d = 0) /\
    (forall d k2 c2,
        k2 <> key -> Table.get (spellCheckerTable st) k2 = Some c2 ->
        0 < refsOf d c2 -> d ∉ unmounted) /\
    (forall d,
        d = path_dirname affPath \/ d = path_dirname dicPath ->
        (forall k2 c2,
            k2 <> key -> Table.get (spellCheckerTable st) k2 = Some c2 ->
            refsOf d c2 = 0) ->
        d ∈ unmounted).
Proof.
  intros st Hget Hd st'.
  assert (wf st) as Hwf by apply wf_run, wf_newProvider.
  assert (key <> "") as Hkey by (apply (registered_nonempty st); eauto).
  set (f := fun d => refsIn d (spellCheckerTable st)).
  assert (forall d, refsOf d dict <= f d) as Hle.
  { intros d. by apply (refsIn_ge d key). }
  destruct (unloadDictionary_ok key dict st Hkey Hget) as (st2 & Hrun & Hsame & Hun).
  set (st1 := if isSelected key st then exec (clearSelection key) st else st) in *.
  assert (spellCheckerTable st1 = spellCheckerTable st /\
          fileMountRefCount st1 = fileMountRefCount st /\
          effects st1 = effects st ++
            (if isSelected key st && bool_decide (process_type = "renderer")
             then [SetSpellCheckProvider key true alwaysTrue] else []))
    as (Ht1 & Hr1 & He1).
  { subst st1. destruct (isSelected key st); simpl; [|by rewrite app_nil_r].
    pose proof (clearSelection_fields key st) as (? & ? & _ & _ & _ & ?). done. }
  rewrite Hd in Hrun.
  destruct (unmountFile_spec affPath dicPath h st1 f) as (st2' & Hrun' & _ & He2 & Hr2).
  { intros d. rewrite Hr1. apply Hwf. }
  { intros d. apply refsIn_nonneg. }
  rewrite Hrun in Hrun'. injection Hrun' as <-.
  pose proof (same_but_mounts_fields _ _ Hsame) as (Ht2 & _).
  destruct (unmounted_at_zero affPath dicPath h dict f Hd Hle) as [Hnd Hiff].
  set (unmounted :=
         (if release affPath f (path_dirname affPath) =? 0
          then [path_dirname affPath] else []) ++
         (if release dicPath (release affPath f) (path_dirname dicPath) =? 0
          then [path_dirname dicPath] else [])) in *.
  assert (spellCheckerTable st' = Table.delete key (spellCheckerTable st)) as Ht'.
  { subst st'. unfold exec. rewrite Hun. simpl. by rewrite Ht2, Ht1. }
  assert (fileMountRefCount st' = fileMountRefCount st2) as Hr'.
  { subst st'. unfold exec. by rewrite Hun. }
  assert (effects st' = effects st2) as He'.
  { subst st'. unfold exec. by rewrite Hun. }
  assert (forall d, refCount st d = f d) as Hc.
  { intros d. apply refCount_held, Hwf. }
  assert (forall d, refCount st' d = f d - refsOf d dict) as Hc'.
  { intros d. apply refCount_held. rewrite Hr', Hr2. f_equal.
    by apply (release_both affPath dicPath h). }
  assert (forall d, refsIn d (spellCheckerTable st') = f d - refsOf d dict) as Hin'.
  { intros d. rewrite Ht'. apply refsIn_delete; [apply Hwf|done]. }
  exists unmounted. split.
  { rewrite He', He2, He1, <- !app_assoc. do 2 f_equal. subst unmounted.
    rewrite fmap_app, <- app_assoc.
    by destruct (_ =? 0), (_ =? 0). }
  split; [done|]. split; [done|]. split; [intros d; by rewrite Hc', Hin'|].
  split; [intros d; by rewrite Hc, Hc'|]. split.
  - intros d k2 c2 Hk2 Hget2 Hpos Hin. apply Hiff in Hin as [_ Hz].
    rewrite <- Hin', Ht' in Hz.
    pose proof (refsIn_ge d k2 c2 (Table.delete key (spellCheckerTable st))) as Hge.
    rewrite TableFacts.get_delete_ne in Hge by done. specialize (Hge Hget2). lia.
  - intros d Hdir Hothers. apply Hiff.
    assert (refsIn d (Table.delete key (spellCheckerTable st)) = 0) as Hz.
    { apply refsIn_zero; [apply TableFacts.NoDup_keys_delete, Hwf|].
      intros k c Hk. destruct (decide (k = key)) as [->|Hne].
      - by rewrite TableFacts.get_delete_eq in Hk.
      - rewrite TableFacts.get_delete_ne in Hk by done. by apply (Hothers k). }
    rewrite <- Ht', Hin' in Hz. split; [|done].
    assert (0 < refsOf d dict); [|lia].
    unfold refsOf. rewrite Hd.
    destruct Hdir as [-> | ->]; repeat case_decide; try lia; congruence.
Qed.

(** C3: for every key and every pair of sources, loadDictionary throws the
    invalid-key error, worded for the empty or for the already registered
    key, whenever the key is the empty string or is registered in the table,
    and the provider is then exactly as before the call: the dictionary
    table and the reference counts of mounts, like every other field, are
    unchanged. *)
Theorem loadDictionary_rejects_empty_or_registered_key
    (key : string) (dic aff : Source) (st : SpellCheckerProvider) :
  key = "" \/ is_Some (Table.get (spellCheckerTable st) key) ->
  loadDictionary key dic aff st =
    (inl (JsError ("Invalid key: " +:+
                   (if bool_decide (key = "") then "key is empty"
                    else "already registered key"))), st) /\
  spellCheckerTable (exec (loadDictionary key dic aff) st) = spellCheckerTable st /\
  fileMountRefCount (exec (loadDictionary key dic aff) st) = fileMountRefCount st.
Proof.
  intros H. unfold exec. rewrite (loadDictionary_invalid key dic aff st H). done.
Qed.

(** C4: the guard of line 83 tests [table[key]] for truthiness.  For the
    empty key, and for every key for which the table has no property, own
    or inherited, switchDictionary throws the not-available error and the
    provider is exactly as before the call: the selected dictionary, the
    uptime of every entry and the start time of the selection are
    unchanged.  An unregistered key that names a member inherited from
    Object.prototype passes the guard: in every state reached by a sequence
    of calls, switchDictionary of such a key returns, and the key, still
    without an entry, is the selected dictionary.  So it is with
    switchDictionary('constructor') on a new provider. *)
Theorem switchDictionary_guard_passes_inherited_keys :
  (forall key all now1 now2 st,
      key = "" \/ Table.lookup (spellCheckerTable st) key = Table.Undefined ->
      let st' := exec (switchDictionary key all now1 now2) st in
      switchDictionary key all now1 now2 st =
        (inl (JsError ("Spellchecker dictionary for " +:+ key +:+
                       " is not available, ensure dictionary loaded")), st) /\
      selectedDictionary st' = selectedDictionary st /\
      (forall k, uptimeOf st' k = uptimeOf st k) /\
      currentSpellCheckerStartTime st' = currentSpellCheckerStartTime st) /\
  (forall cs key all now1 now2,
      let st := run cs newProvider in
      Table.get (spellCheckerTable st) key = None ->
      Table.inherited key = true ->
      exists st',
        switchDictionary key all now1 now2 st = (inr tt, st') /\
        selectedDictionary st' = Some key /\
        currentSpellCheckerStartTime st' = Some now2 /\
        Table.get (spellCheckerTable st') key = None) /\
  (forall all now1 now2,
      Table.get (spellCheckerTable newProvider) "constructor" = None /\
      exists st',
        switchDictionary "constructor" all now1 now2 newProvider = (inr tt, st') /\
        selectedDictionary st' = Some "constructor" /\
        spellCheckerTable st' = []).
Proof.
  assert (forall cs key all now1 now2,
      let st := run cs newProvider in
      Table.get (spellCheckerTable st) key = None ->
      Table.inherited key = true ->
      exists st',
        switchDictionary key all now1 now2 st = (inr tt, st') /\
        selectedDictionary st' = Some key /\
        currentSpellCheckerStartTime st' = Some now2 /\
        spellCheckerTable st' = accounted now1 st) as Hpass.
  { intros cs key all now1 now2 st Hget Hinh.
    assert (wf st) as Hwf by apply wf_run, wf_newProvider.
    assert (Table.lookup (spellCheckerTable st) key = Table.Inherited) as Hlook
      by by apply TableFacts.lookup_Inherited.
    destruct (switchDictionary_ok key all now1 now2 st)
      as (st' & Hrun & Ht & Hc & Hs & _).
    { intros ->. done. }
    { congruence. }
    { intros k Hcur. by apply (wf_current _ Hwf). }
    by exists st'. }
  split; [|split].
  - intros key all now1 now2 st H st'. subst st'. unfold exec.
    rewrite (switchDictionary_throws key all now1 now2 st H). done.
  - intros cs key all now1 now2 st Hget Hinh.
    destruct (Hpass cs key all now1 now2 Hget Hinh) as (st' & Hrun & Hc & Hs & Ht).
    exists st'. repeat split; try done. rewrite Ht. by apply accounted_dom.
  - intros all now1 now2. split; [done|].
    destruct (Hpass [] "constructor" all now1 now2) as (st' & Hrun & Hc & _ & Ht); try done.
    by exists st'.
Qed.

(** C5, amended: in every state reached by a sequence of calls in which a
    registered dictionary is selected, a switchDictionary that gets past
    its guard (to the same key or another) first adds to the uptime of the
    selected entry the first clock reading minus the start time of the
    selection, and then records the new key and the second clock reading
    as the new start time.  So after switchDictionary(k1) followed by
    switchDictionary(k2), the uptime of k1 has grown by the time between
    the two calls.  Over any sequence of calls whose clock readings do not
    go back, the uptime of an entry that is not unloaded never decreases.
    unloadDictionary of the selected key reads no clock: it resets the
    selection and the start time and removes the entry, whose uptime is as
    it was when the disposer runs. *)
Theorem switching_adds_elapsed_time_to_selected_uptime (cs : list Call) :
  let st := run cs newProvider in
  (forall k c key all now1 now2,
      selectedDictionary st = Some k ->
      Table.get (spellCheckerTable st) k = Some c ->
      Table.lookup (spellCheckerTable st) key <> Table.Undefined ->
      exists start st',
        currentSpellCheckerStartTime st = Some start /\
        switchDictionary key all now1 now2 st = (inr tt, st') /\
        spellCheckerTable st' =
          Table.set k (addUptime (now1 - start) c) (spellCheckerTable st) /\
        uptimeOf st' k = uptimeOf st k + (now1 - start) /\
        selectedDictionary st' = Some key /\
        currentSpellCheckerStartTime st' = Some now2) /\
  (forall k1 k2 all1 all2 n1 n2 m1 m2,
      is_Some (Table.get (spellCheckerTable st) k1) ->
      Table.lookup (spellCheckerTable st) k2 <> Table.Undefined ->
      let st1 := exec (switchDictionary k1 all1 n1 n2) st in
      let st2 := exec (switchDictionary k2 all2 m1 m2) st1 in
      uptimeOf st2 k1 = uptimeOf st1 k1 + (m1 - n2)) /\
  (forall more k c,
      clockOk more st = true -> keeps k more = true ->
      Table.get (spellCheckerTable st) k = Some c ->
      exists c',
        Table.get (spellCheckerTable (run more st)) k = Some c' /\
        uptime c <= uptime c') /\
  (forall k c,
      selectedDictionary st = Some k ->
      Table.get (spellCheckerTable st) k = Some c ->
      let st1 := exec (clearSelection k) st in
      let st' := exec (unloadDictionary k) st in
      selectedDictionary st1 = None /\
      Table.get (spellCheckerTable st1) k = Some c /\
      selectedDictionary st' = None /\
      currentSpellCheckerStartTime st' = None /\
      Table.get (spellCheckerTable st') k = None /\
      forall k', k' <> k ->
                 Table.get (spellCheckerTable st') k' = Table.get (spellCheckerTable st) k').
Proof.
  intros st.
  assert (wf st) as Hwf by apply wf_run, wf_newProvider.
  split; [|split; [|split]].
  - intros k c key all now1 now2 Hsel Hc Hkey.
    by apply switchDictionary_flush.
  - intros k1 k2 all1 all2 n1 n2 m1 m2 Hk1 Hk2 st1 st2.
    assert (wf st1) as Hwf1 by by apply wf_switchDictionary.
    destruct (switchDictionary_ok k1 all1 n1 n2 st) as (st1' & Hrun & Ht & Hc & Hs & _).
    { by apply (registered_nonempty st). }
    { by apply TableFacts.lookup_is_Some. }
    { intros k0 Hk0. by apply (wf_current _ Hwf). }
    assert (st1 = st1') as Heq by (subst st1; unfold exec; by rewrite Hrun).
    assert (is_Some (Table.get (spellCheckerTable st1) k1)) as [c1 Hc1].
    { rewrite Heq, Ht. by apply accounted_registered. }
    destruct (switchDictionary_flush st1 k1 c1 k2 all2 m1 m2 Hwf1)
      as (start & st2' & Hstart & Hrun2 & _ & Hup & _).
    { by rewrite Heq. }
    { done. }
    { rewrite Heq, Ht.
      by rewrite (TableFacts.lookup_Undefined_dom _ _ _ (accounted_dom n1 st k2)). }
    rewrite Heq, Hs in Hstart. injection Hstart as <-.
    subst st2. unfold exec at 1. by rewrite Hrun2.
  - intros more k c Hclock Hkeeps Hget. by apply run_uptime.
  - intros k c Hsel Hget st1 st'.
    destruct (wf_current _ Hwf k Hsel) as (Hk & _ & _).
    destruct (unloadDictionary_ok k c st Hk Hget) as (st2 & Hrun & Hsame & Hun).
    rewrite (isSelected_true k st Hk Hsel) in Hrun, Hsame. fold st1 in Hrun, Hsame.
    destruct (clearSelection_fields k st) as (Ht1 & _ & Hc1 & Hs1 & _). fold st1 in Ht1, Hc1, Hs1.
    pose proof (same_but_mounts_fields _ _ Hsame) as (Ht2 & Hc2 & Hs2 & _).
    subst st'. unfold exec at 1 2 3 4. rewrite Hun. simpl.
    unfold selectedDictionary. rewrite Hc1, Ht1, Ht2, Hc2, Hs2, Hc1, Hs1, Ht1.
    repeat split; try done; [apply TableFacts.get_delete_eq|].
    intros k' Hne. by rewrite TableFacts.get_delete_ne.
Qed.

(** C6: getSuggestion returns the empty list, without a call into any
    engine, when no dictionary is selected (the key is null or, what no
    call brings about, empty) and when [table[key]] is undefined for the
    selected key; with a registered key selected it asks the selected
    engine once and returns the list its suggest gives for the text, as it
    is and in its order; nothing but the log and the record of engine calls
    changes.  The test of line 123 is one of truthiness: in every state
    reached by a sequence of calls in which the selected key has no entry,
    the key names a member inherited from Object.prototype, the test
    passes and line 132 throws a TypeError.  So it is after
    switchDictionary('constructor') on a new provider. *)
Theorem getSuggestion_throws_for_inherited_selection (text : string) :
  (forall st,
      selectedDictionary st = None \/ selectedDictionary st = Some "" ->
      exists st',
        getSuggestion text st = (inr [], st') /\
        same_but_trace st st' /\ effects st' = effects st) /\
  (forall st k checker,
      selectedDictionary st = Some k -> k <> "" ->
      Table.get (spellCheckerTable st) k = Some checker ->
      exists st',
        getSuggestion text st = (inr (suggest (spellChecker checker) text), st') /\
        same_but_trace st st' /\
        effects st' = effects st ++ [Suggest (spellChecker checker) text]) /\
  (forall st k,
      selectedDictionary st = Some k ->
      Table.lookup (spellCheckerTable st) k = Table.Undefined ->
      exists st',
        getSuggestion text st = (inr [], st') /\
        same_but_trace st st' /\ effects st' = effects st) /\
  (forall cs k,
      let st := run cs newProvider in
      selectedDictionary st = Some k ->
      Table.get (spellCheckerTable st) k = None ->
      Table.inherited k = true /\
      getSuggestion text st = (inl TypeError, st)) /\
  (let st := run [CallSwitchDictionary "constructor" false 0 1000] newProvider in
   selectedDictionary st = Some "constructor" /\
   Table.get (spellCheckerTable st) "constructor" = None /\
   getSuggestion text st = (inl TypeError, st)).
Proof.
  assert (forall cs k,
      let st := run cs newProvider in
      selectedDictionary st = Some k ->
      Table.get (spellCheckerTable st) k = None ->
      Table.inherited k = true /\
      getSuggestion text st = (inl TypeError, st)) as Hthrows.
  { intros cs k st Hsel Hget.
    assert (wf st) as Hwf by apply wf_run, wf_newProvider.
    destruct (wf_current _ Hwf k Hsel) as (_ & Hlook & _).
    assert (Table.inherited k = true) as Hinh.
    { unfold Table.lookup in Hlook. rewrite Hget in Hlook.
      by destruct (Table.inherited k). }
    split; [done|]. apply (getSuggestion_inherited text st k Hsel).
    by apply TableFacts.lookup_Inherited. }
  unfold selectedDictionary in *.
  split; [|split; [|split; [|split]]].
  - intros st Hsel.
    destruct (getSuggestion_spec text st) as (st' & Hrun & Hsame & He).
    { intros k Hk Hinh. apply TableFacts.lookup_Inherited in Hinh as [_ Hinh].
      destruct Hsel as [Hsel|Hsel]; rewrite Hsel in Hk; [done|].
      injection Hk as <-. done. }
    exists st'. unfold suggestionsFor in *.
    destruct Hsel as [Hsel | Hsel]; rewrite Hsel in *; simpl in *.
    + by rewrite app_nil_r in He.
    + destruct (Table.get (spellCheckerTable st) ""); by rewrite app_nil_r in He.
  - intros st k checker Hsel Hk Hget.
    destruct (getSuggestion_spec text st) as (st' & Hrun & Hsame & He).
    { intros k' Hk' Hinh. rewrite Hsel in Hk'. injection Hk' as <-.
      apply TableFacts.lookup_Inherited in Hinh as [Hinh _]. congruence. }
    exists st'. unfold suggestionsFor in *. rewrite Hsel, Hget in *.
    unfold falsy in *. by rewrite bool_decide_eq_false_2 in * by done.
  - intros st k Hsel Hlook.
    destruct (getSuggestion_spec text st) as (st' & Hrun & Hsame & He).
    { intros k' Hk'. rewrite Hsel in Hk'. injection Hk' as <-. congruence. }
    apply TableFacts.lookup_Undefined in Hlook as [Hget _].
    exists st'. unfold suggestionsFor in *. rewrite Hsel, Hget in *.
    rewrite app_nil_r in He. by destruct (falsy k).
  - exact Hthrows.
  - pose (st := run [CallSwitchDictionary "constructor" false 0 1000] newProvider).
    change (currentSpellCheckerKey st = Some "constructor" /\
            Table.get (spellCheckerTable st) "constructor" = None /\
            getSuggestion text st = (inl TypeError, st)).
    assert (currentSpellCheckerKey st = Some "constructor" /\
            Table.get (spellCheckerTable st) "constructor" = None) as [Hsel Hget].
    { subst st. simpl. unfold exec.
      destruct (switchDictionary_ok "constructor" false 0 1000 newProvider)
        as (st' & Hrun & Ht & Hc & _); try done.
      rewrite Hrun. simpl. by rewrite Ht, Hc. }
    split; [done|]. split; [done|].
    by apply (Hthrows [CallSwitchDictionary "constructor" false 0 1000] "constructor").
Qed.

(** C7: whenever the keys of the table are distinct, as the properties of
    an object are, availableDictionaries is a rearrangement of exactly the
    registered keys, has no key twice, and is in descending order of
    accumulated uptime (equal uptimes in any order); and after a
    loadDictionary that returns, its key occurs in availableDictionaries
    at exactly one position. *)
Theorem availableDictionaries_keys_by_descending_uptime
    (st : SpellCheckerProvider) :
  NoDup (Table.keys (spellCheckerTable st)) ->
  availableDictionaries st ≡ₚ Table.keys (spellCheckerTable st) /\
  NoDup (availableDictionaries st) /\
  StronglySorted (uptime_desc st) (availableDictionaries st) /\
  forall key dic aff st',
    loadDictionary key dic aff st = (inr tt, st') ->
    exists before after,
      availableDictionaries st' = before ++ key :: after /\
      (key ∉ before) /\ (key ∉ after).
Proof.
  intros Hnd. split; [apply availableDictionaries_perm|].
  split; [by rewrite availableDictionaries_perm|].
  split; [by apply availableDictionaries_sorted|].
  intros key dic aff st' Hrun.
  destruct (loadDictionary_returns key dic aff st st' Hrun)
    as (_ & _ & _ & (e & Ht & _) & _).
  assert (NoDup (availableDictionaries st')) as Hnd'.
  { rewrite availableDictionaries_perm, Ht. by apply TableFacts.NoDup_keys_set. }
  assert (key ∈ availableDictionaries st') as Hin.
  { rewrite availableDictionaries_perm, Ht.
    apply (TableFacts.get_Some_keys _ _ e), TableFacts.get_set_eq. }
  apply list_elem_of_split in Hin as (before & after & Heq).
  exists before, after. split; [done|]. rewrite Heq in Hnd'.
  apply NoDup_app in Hnd' as (_ & Hdisj & Hcons).
  apply NoDup_cons in Hcons as [Hafter _]. split; [|done].
  intros Hb. apply (Hdisj key Hb). left.
Qed.

(** C8: unloadDictionary of the empty key, or of a key for which the table
    has no property, own or inherited, only logs a message and returns,
    every other field as it was.  For a registered key that is the selected
    one, it first clears the selection: the selected key and the start time
    are reset and setProvider is called with a callback that reports every
    word correct (the host receives it in a renderer process; elsewhere
    setProvider logs and installs nothing); then, with the entry still in
    the table, the disposer of the entry runs; then the entry is removed.
    For a registered key that is not the selected one, the selection, the
    start time and the host's callback are untouched, and only that entry
    is disposed and removed.  The guard of line 176 is a test of
    truthiness: an unregistered key that names a member inherited from
    Object.prototype passes it, the selection is cleared if the key is the
    selected one, and line 190 throws a TypeError.  So
    unloadDictionary('toString') on a new provider throws. *)
Theorem unloadDictionary_throws_for_inherited_key :
  (forall key st,
      key = "" \/ Table.lookup (spellCheckerTable st) key = Table.Undefined ->
      unloadDictionary key st =
        (inr tt, set_logged (logged st ++ [(LogInfo, "Electron-hunspell::unloadDictionary: not able to find corresponding spellchecker for given key")]) st)) /\
  (forall key st dict,
      key <> "" -> Table.get (spellCheckerTable st) key = Some dict ->
      let st1 := if isSelected key st then exec (clearSelection key) st else st in
      exists st2 st' disposed,
        unloadDictionary key st = (inr tt, st') /\
        (currentSpellCheckerKey st = Some key ->
         currentSpellCheckerKey st1 = None /\
         currentSpellCheckerStartTime st1 = None /\
         webFrameProvider st1 =
           (if bool_decide (process_type = "renderer")
            then Some alwaysTrue else webFrameProvider st) /\
         effects st1 = effects st ++
           (if bool_decide (process_type = "renderer")
            then [SetSpellCheckProvider key true alwaysTrue] else [])) /\
        (currentSpellCheckerKey st <> Some key -> st1 = st) /\
        Table.get (spellCheckerTable st1) key = Some dict /\
        runDispose (dispose dict) st1 = (inr tt, st2) /\
        same_but_mounts st1 st2 /\
        effects st2 = effects st1 ++ disposed /\
        Forall (fun e => ~ attaches e) disposed /\
        st' = set_logged (logged st2 ++ [unloadedMessage key])
                (set_spellCheckerTable (Table.delete key (spellCheckerTable st2)) st2) /\
        Table.get (spellCheckerTable st') key = None /\
        (forall k, k <> key ->
                   Table.get (spellCheckerTable st') k = Table.get (spellCheckerTable st) k) /\
        currentSpellCheckerKey st' = currentSpellCheckerKey st1 /\
        currentSpellCheckerStartTime st' = currentSpellCheckerStartTime st1 /\
        webFrameProvider st' = webFrameProvider st1) /\
  (forall key st,
      Table.get (spellCheckerTable st) key = None ->
      Table.inherited key = true ->
      unloadDictionary key st =
        (inl TypeError,
         if isSelected key st then exec (clearSelection key) st else st)) /\
  (Table.get (spellCheckerTable newProvider) "toString" = None /\
   unloadDictionary "toString" newProvider = (inl TypeError, newProvider)).
Proof.
  split; [apply unloadDictionary_noop|]. split; [|split].
  2:{ intros key st Hget Hinh. apply unloadDictionary_inherited.
      by apply TableFacts.lookup_Inherited. }
  2:{ split; [done|]. by rewrite unloadDictionary_inherited. }
  intros key st dict Hkey Hget st1.
  destruct (unloadDictionary_ok key dict st Hkey Hget) as (st2 & Hrun & Hsame & Hun).
  fold st1 in Hrun, Hsame, Hun.
  destruct (runDispose_effects _ _ _ Hrun) as (disposed & He & Hdisp).
  pose proof (same_but_mounts_fields _ _ Hsame) as (Ht & Hc & Hs & Hw & _).
  assert (spellCheckerTable st1 = spellCheckerTable st) as Ht1.
  { subst st1. destruct (isSelected key st); [|done].
    by destruct (clearSelection_fields key st) as (? & _). }
  eexists st2, _, disposed. split; [exact Hun|]. split.
  { intros Hsel. subst st1. rewrite (isSelected_true key st Hkey Hsel).
    by destruct (clearSelection_fields key st) as (_ & _ & ? & ? & ? & ?). }
  split.
  { intros Hsel. subst st1. by rewrite (isSelected_false key st Hsel). }
  split; [by rewrite Ht1|]. do 4 (split; [done|]). split; [done|]. simpl.
  split; [apply TableFacts.get_delete_eq|]. split; [|done].
  intros k Hk. by rewrite TableFacts.get_delete_ne, Ht, Ht1.
Qed.

(** C9: a loadDictionary of two file paths that gets past its guard with
    the engine loaded asks the engine for the mount point of the directory
    of each file, first of the affix file and then of the dictionary file,
    and places each file under the mount point the engine gives for its
    directory.  A directory has one mount point, whichever file it is asked
    for: two files of one directory are placed under the same one.  The
    count kept for the directory of each mounted file is incremented once
    per file, so a directory that holds both mounted files receives exactly
    two increments from that load. *)
Theorem file_load_mounts_per_directory_and_counts_per_file
    (cs : list Call) (key dicFilePath affFilePath : string) :
  let st := run cs newProvider in
  hunspellFactory st = true ->
  key <> "" ->
  Table.lookup (spellCheckerTable st) key = Table.Undefined ->
  exists st',
    loadDictionary key (FilePath dicFilePath) (FilePath affFilePath) st = (inr tt, st') /\
    effects st' = effects st ++
      [MountDirectory (path_dirname affFilePath);
       MountDirectory (path_dirname dicFilePath);
       Create (mountedPath affFilePath) (mountedPath dicFilePath)] /\
    Table.get (spellCheckerTable st') key = Some (fileEntry dicFilePath affFilePath) /\
    dispose (fileEntry dicFilePath affFilePath) =
      unmountFile
        (unixify (path_join (mountDirectory (path_dirname affFilePath))
                    (path_basename affFilePath)))
        (unixify (path_join (mountDirectory (path_dirname dicFilePath))
                    (path_basename dicFilePath)))
        (spellChecker (fileEntry dicFilePath affFilePath)) /\
    (path_dirname affFilePath = path_dirname dicFilePath ->
     exists mountPoint,
       mountedPath affFilePath =
         unixify (path_join mountPoint (path_basename affFilePath)) /\
       mountedPath dicFilePath =
         unixify (path_join mountPoint (path_basename dicFilePath))) /\
    (forall d,
        refCount st' d =
          refCount st d +
          (if decide (path_dirname (mountedPath affFilePath) = d) then 1 else 0) +
          (if decide (path_dirname (mountedPath dicFilePath) = d) then 1 else 0)) /\
    (path_dirname (mountedPath affFilePath) = path_dirname (mountedPath dicFilePath) ->
     refCount st' (path_dirname (mountedPath affFilePath)) =
       refCount st (path_dirname (mountedPath affFilePath)) + 2).
Proof.
  intros st Hfac Hkey Hfresh.
  assert (wf st) as Hwf by apply wf_run, wf_newProvider.
  destruct (loadDictionary_file_ok key dicFilePath affFilePath st
              (fun d => refsIn d (spellCheckerTable st)) Hkey Hfresh Hfac
              (wf_refs _ Hwf) (fun d => refsIn_nonneg d _))
    as (st' & Hrun & Ht & He & Hr & _).
  assert (forall d,
             refCount st' d =
               refCount st d +
               (if decide (path_dirname (mountedPath affFilePath) = d) then 1 else 0) +
               (if decide (path_dirname (mountedPath dicFilePath) = d) then 1 else 0))
    as Hcount.
  { intros d. rewrite (refCount_held st' d _ (Hr d)).
    rewrite (refCount_held st d _ (wf_refs _ Hwf d)).
    unfold refsOf, fileEntry. simpl. lia. }
  exists st'. split; [done|]. split; [done|].
  split; [by rewrite Ht, TableFacts.get_set_eq|]. split; [done|].
  split.
  { intros Hdir. exists (mountDirectory (path_dirname dicFilePath)).
    unfold mountedPath. by rewrite Hdir. }
  split; [done|].
  intros Hsame. rewrite Hcount, <- Hsame, !decide_True by done. lia.
Qed.

(** C10: in every state reached by a sequence of calls in which the host
    holds the callback of switchDictionary(key, true) for a registered key,
    whatever was called since the switch, a run of the callback consults
    the table as it is at that moment: after the primary it asks keys
    registered now, other than the primary, in the order of Object.keys,
    all of them when it answers false.  A loadDictionary that returns
    leaves the same callback installed without any call of
    setSpellCheckProvider; the new key is then among the other
    dictionaries, at its place in the order of the keys (the last place
    unless it is an array index) with the earlier keys in their order, and
    it is asked whenever all earlier ones reject the word.  An
    unloadDictionary of another registered key also leaves the callback
    installed without re-attaching, and the unloaded key is no longer
    asked. *)
Theorem installed_provider_reads_table_at_each_call
    (cs : list Call) (key text : string) (primaryChecker : SpellChecker) :
  let st := run cs newProvider in
  webFrameProvider st = Some (provider key true) ->
  Table.get (spellCheckerTable st) key = Some primaryChecker ->
  (exists verdict asked,
      consults key text st verdict asked /\
      asked.*1 `prefix_of` otherDictionaries key st /\
      (verdict = false -> asked.*1 = otherDictionaries key st)) /\
  (forall k2 dic aff st2,
      loadDictionary k2 dic aff st = (inr tt, st2) ->
      webFrameProvider st2 = Some (provider key true) /\
      (exists es, effects st2 = effects st ++ es /\
                  Forall (fun e => ~ attaches e) es) /\
      k2 ∈ otherDictionaries key st2 /\
      filter (fun x => x <> k2) (otherDictionaries key st2) =
        otherDictionaries key st /\
      (Table.arrayIndex k2 = None ->
       otherDictionaries key st2 = otherDictionaries key st ++ [k2]) /\
      exists verdict asked,
        consults key text st2 verdict asked /\
        asked.*1 `prefix_of` otherDictionaries key st2 /\
        (verdict = false -> asked.*1 = otherDictionaries key st2) /\
        ((forall k c, Table.get (spellCheckerTable st) k = Some c ->
                      spell (spellChecker c) text = false) ->
         k2 ∈ asked.*1)) /\
  (forall k3 dict,
      k3 <> key -> Table.get (spellCheckerTable st) k3 = Some dict ->
      let st3 := exec (unloadDictionary k3) st in
      webFrameProvider st3 = Some (provider key true) /\
      (exists es, effects st3 = effects st ++ es /\
                  Forall (fun e => ~ attaches e) es) /\
      otherDictionaries key st3 =
        filter (fun x => x <> k3) (otherDictionaries key st) /\
      exists verdict asked,
        consults key text st3 verdict asked /\
        asked.*1 `prefix_of` otherDictionaries key st3 /\
        (verdict = false -> asked.*1 = otherDictionaries key st3) /\
        k3 ∉ asked.*1).
Proof.
  intros st Hcb Hp. rename primaryChecker into p.
  assert (wf st) as Hwf by apply wf_run, wf_newProvider.
  destruct (wf_callback _ Hwf _ Hcb) as [Hren Hsel].
  specialize (Hsel key true eq_refl).
  split; [|split].
  - destruct (provider_consults key text st p Hp) as (v & asked & Hc & Hpre & Hf & _).
    by exists v, asked.
  - intros k2 dic aff st2 Hrun.
    destruct (loadDictionary_returns k2 dic aff st st2 Hrun)
      as (Hk2 & Hfresh & _ & (e & Ht & _) & _ & _ & Hw & Hes).
    assert (k2 <> key) as Hne by (intros ->; congruence).
    destruct (otherDictionaries_set_new key st st2 k2 e Ht Hfresh Hne)
      as (Hin & Hothers & Hlast).
    split; [by rewrite Hw|]. do 4 (split; [done|]).
    assert (Table.get (spellCheckerTable st2) key = Some p) as Hp2.
    { by rewrite Ht, TableFacts.get_set_ne. }
    destruct (provider_consults key text st2 p Hp2) as (v & asked & Hc & Hpre & Hf & Hy).
    exists v, asked. split; [done|]. split; [done|]. split; [done|]. intros Hrej.
    destruct v.
    + destruct (Hy eq_refl) as [Hacc | (asked0 & [k c] & -> & Hacc)].
      * unfold accepts in Hacc. simpl in Hacc. by rewrite (Hrej key p Hp) in Hacc.
      * destruct Hc as (_ & _ & _ & _ & _ & Hr).
        rewrite Forall_app, Forall_singleton in Hr. destruct Hr as [_ Hreg].
        unfold registered in Hreg. simpl in Hreg. rewrite Ht in Hreg.
        destruct (decide (k2 = k)) as [->|Hk].
        -- rewrite fmap_app. apply elem_of_app. right. left.
        -- rewrite TableFacts.get_set_ne in Hreg by done.
           unfold accepts in Hacc. simpl in Hacc. by rewrite (Hrej k c Hreg) in Hacc.
    + by rewrite (Hf eq_refl).
  - intros k3 dict Hne Hget st3.
    assert (k3 <> "") as Hk3.
    { intros ->. rewrite (wf_nonempty _ Hwf) in Hget. done. }
    destruct (unloadDictionary_unselected k3 dict st Hk3 Hget)
      as (st' & Hrun & Ht & _ & _ & Hw & Hes).
    { rewrite Hsel. congruence. }
    assert (st3 = st') as -> by (subst st3; unfold exec; by rewrite Hrun).
    split; [by rewrite Hw|]. split; [done|].
    split; [by apply otherDictionaries_delete|].
    assert (Table.get (spellCheckerTable st') key = Some p) as Hp3.
    { by rewrite Ht, TableFacts.get_delete_ne. }
    destruct (provider_consults key text st' p Hp3) as (v & asked & Hc & Hpre & Hf & _).
    exists v, asked. split; [done|]. split; [done|]. split; [done|].
    intros Hin. destruct Hpre as [rest Hpre].
    assert (k3 ∈ otherDictionaries key st') as Hin'.
    { rewrite Hpre. apply elem_of_app. by left. }
    rewrite (otherDictionaries_delete key st st' k3 Ht) in Hin'.
    apply list_elem_of_filter in Hin' as [Hin' _]. done.
Qed.

End Claims.

(** * The claims on the demonstration engine *)

Module Examples.

Import Demo.

(** C1 at a concrete input: en-us is primary, en-gb the fallback, and the
    word is one only en-gb knows. *)
Lemma provider_checks_primary_then_others_example :
  let st := run (loaded ++ [CallSwitchDictionary "en-us" true 0 1000]) newProvider in
  Table.get (spellCheckerTable st) "en-us" = Some entryUS /\
  exists st',
    spellCheck (provider "en-us" true) "colour" st = (inr true, st') /\
    effects st' = effects st ++
      [Spell (spellChecker entryUS) "colour"; Spell (spellChecker entryGB) "colour"].
Proof.
  intros st.
  assert (Table.get (spellCheckerTable st) "en-us" = Some entryUS) as H by reflexivity.
  split; [exact H|].
  destruct (provider_checks_primary_then_others "en-us" true "colour" st entryUS H)
    as (verdict & st' & asked & Hrun & _ & He & _).
  exists st'.
  assert (spellCheck (provider "en-us" true) "colour" st =
            (inr true, snd (spellCheck (provider "en-us" true) "colour" st))) as Hval
    by (vm_compute; reflexivity).
  rewrite Hrun in Hval. simpl in Hval. injection Hval as ->.
  split; [exact Hrun|].
  assert (effects (snd (spellCheck (provider "en-us" true) "colour" st)) =
            effects st ++
            [Spell (spellChecker entryUS) "colour"; Spell (spellChecker entryGB) "colour"])
    as Heff by reflexivity.
  rewrite Hrun in Heff. exact Heff.
Defined.

(** C2 at a concrete input: en-us and en-gb share the directory /dict.
    Unloading en-us leaves its mount point alone; unloading en-gb after it
    unmounts it. *)
Lemma unload_unmounts_directory_only_at_zero_example :
  let st := run loaded newProvider in
  let st1 := run (loaded ++ [CallUnloadDictionary "en-us"]) newProvider in
  (Table.get (spellCheckerTable st) "en-us" = Some entryUS /\
   dispose entryUS =
     unmountFile "/nodefs/dict/en-US.aff" "/nodefs/dict/en-US.dic" (spellChecker entryUS)) /\
  (exists unmounted : list string,
      ("/nodefs/dict" ∉ unmounted) /\
      (forall d, d ∈ unmounted <->
                 0 < refCount st d /\
                 refCount (exec (unloadDictionary "en-us") st) d = 0)) /\
  (exists unmounted : list string,
      ("/nodefs/dict" ∈ unmounted) /\
      (forall d, d ∈ unmounted <->
                 0 < refCount st1 d /\
                 refCount (exec (unloadDictionary "en-gb") st1) d = 0)).
Proof.
  intros st st1.
  assert (Table.get (spellCheckerTable st) "en-us" = Some entryUS) as Hg1 by reflexivity.
  assert (dispose entryUS =
            unmountFile "/nodefs/dict/en-US.aff" "/nodefs/dict/en-US.dic" (spellChecker entryUS))
    as Hd1 by reflexivity.
  assert (Table.get (spellCheckerTable st1) "en-gb" = Some entryGB) as Hg2 by reflexivity.
  assert (dispose entryGB =
            unmountFile "/nodefs/dict/en-GB.aff" "/nodefs/dict/en-GB.dic" (spellChecker entryGB))
    as Hd2 by reflexivity.
  split; [exact (conj Hg1 Hd1)|]. split.
  - destruct (unload_unmounts_directory_only_at_zero loaded "en-us" entryUS _ _ _ Hg1 Hd1)
      as (unmounted & _ & _ & _ & _ & Hiff & Hother & _).
    exists unmounted. split; [|exact Hiff].
    apply (Hother "/nodefs/dict" "en-gb" entryGB); [discriminate|reflexivity|].
    vm_compute. reflexivity.
  - destruct (unload_unmounts_directory_only_at_zero
                (loaded ++ [CallUnloadDictionary "en-us"]) "en-gb" entryGB _ _ _ Hg2 Hd2)
      as (unmounted & _ & _ & _ & _ & Hiff & _ & Hlast).
    exists unmounted. split; [|exact Hiff].
    apply Hlast; [left; vm_compute; reflexivity|].
    intros k2 c2 Hne Hget.
    change (spellCheckerTable (run (loaded ++ [CallUnloadDictionary "en-us"]) newProvider))
      with [("en-gb", entryGB)] in Hget.
    simpl in Hget. rewrite decide_False in Hget by congruence. discriminate.
Defined.

(** C3 at a concrete input: a second load under the key en-us. *)
Lemma loadDictionary_rejects_registered_key_example :
  let st := run (initialized ++ [loadUS]) newProvider in
  ("en-us" = "" \/ is_Some (Table.get (spellCheckerTable st) "en-us")) /\
  loadDictionary "en-us" (FilePath "/dict/en-GB.dic") (FilePath "/dict/en-GB.aff") st =
    (inl (JsError "Invalid key: already registered key"), st).
Proof.
  intros st.
  assert ("en-us" = "" \/ is_Some (Table.get (spellCheckerTable st) "en-us")) as H.
  { right. exists entryUS. reflexivity. }
  split; [exact H|].
  exact (proj1 (loadDictionary_rejects_empty_or_registered_key
                  "en-us" (FilePath "/dict/en-GB.dic") (FilePath "/dict/en-GB.aff") st H)).
Defined.

(** C5, as stated, fails in three ways.
    First, unloadDictionary adds no elapsed time: en-us, selected at time
    1000 with uptime 0, is unloaded later; once the selection has been
    cleared the entry, about to be handed to the disposer, still has uptime
    0, and then it is removed; no reading of the clock takes part in the
    call.
    Second, an uptime decreases when the clock goes back: en-us is
    selected at time 1000 and en-gb at a reading of 400; the uptime of en-us
    falls from 0 to -600.
    Third, an uptime decreases when its dictionary is unloaded and loaded
    again: the uptime 500 of en-us is 0 after the reload.
    Besides, with the key 'constructor' selected, which has no entry, a
    switch adds the elapsed time to no entry. *)
Lemma uptime_is_not_added_by_unload_and_may_decrease :
  (let st := run (initialized ++ [loadUS; CallSwitchDictionary "en-us" false 0 1000])
               newProvider in
   let st1 := exec (clearSelection "en-us") st in
   let st' := exec (unloadDictionary "en-us") st in
   selectedDictionary st = Some "en-us" /\
   currentSpellCheckerStartTime st = Some 1000 /\
   uptimeOf st "en-us" = 0 /\
   selectedDictionary st1 = None /\
   Table.get (spellCheckerTable st1) "en-us" = Some entryUS /\
   uptimeOf st1 "en-us" = 0 /\
   (forall T, 0 < T -> uptimeOf st1 "en-us" <> uptimeOf st "en-us" + T) /\
   Table.get (spellCheckerTable st') "en-us" = None /\
   logged st' = logged st1 ++
     [(LogDebug, "Electron-hunspell::decreaseRefCount: refCount set for '/nodefs/dict' to '1'");
      (LogDebug, "Electron-hunspell::decreaseRefCount: refCount set for '/nodefs/dict' to '0'");
      unloadedMessage "en-us"]) /\
  (let st := run (loaded ++ [CallSwitchDictionary "en-us" false 0 1000]) newProvider in
   let st' := run [CallSwitchDictionary "en-gb" false 400 401] st in
   selectedDictionary st = Some "en-us" /\
   currentSpellCheckerStartTime st = Some 1000 /\
   clockOk [CallSwitchDictionary "en-gb" false 400 401] st = false /\
   keeps "en-us" [CallSwitchDictionary "en-gb" false 400 401] = true /\
   uptimeOf st "en-us" = 0 /\
   uptimeOf st' "en-us" = -600 /\
   uptimeOf st' "en-us" < uptimeOf st "en-us") /\
  (let st := run (loaded ++ [CallSwitchDictionary "en-us" false 0 1000;
                             CallSwitchDictionary "en-gb" false 1500 1500]) newProvider in
   let st' := run [CallUnloadDictionary "en-us"; loadUS] st in
   clockOk [CallUnloadDictionary "en-us"; loadUS] st = true /\
   keeps "en-us" [CallUnloadDictionary "en-us"; loadUS] = false /\
   uptimeOf st "en-us" = 500 /\
   is_Some (Table.get (spellCheckerTable st') "en-us") /\
   uptimeOf st' "en-us" = 0 /\
   uptimeOf st' "en-us" < uptimeOf st "en-us") /\
  (let st := run (loaded ++ [CallSwitchDictionary "constructor" false 0 1000]) newProvider in
   let st' := exec (switchDictionary "en-gb" false 1500 1501) st in
   selectedDictionary st = Some "constructor" /\
   Table.get (spellCheckerTable st) "constructor" = None /\
   switchDictionary "en-gb" false 1500 1501 st = (inr tt, st') /\
   spellCheckerTable st' = spellCheckerTable st /\
   forall k, uptimeOf st' k = uptimeOf st k).
Proof.
  split; [|split; [|split]].
  - repeat apply conj; try (vm_compute; reflexivity).
    intros T HT. change (uptimeOf _ "en-us") with 0. lia.
  - repeat apply conj; vm_compute; reflexivity.
  - repeat apply conj; try (vm_compute; reflexivity).
    exists entryUS. vm_compute. reflexivity.
  - assert (spellCheckerTable
              (exec (switchDictionary "en-gb" false 1500 1501)
                 (run (loaded ++ [CallSwitchDictionary "constructor" false 0 1000])
                    newProvider)) =
            spellCheckerTable
              (run (loaded ++ [CallSwitchDictionary "constructor" false 0 1000])
                 newProvider)) as Ht by (vm_compute; reflexivity).
    repeat apply conj; try (vm_compute; reflexivity); try exact Ht.
Qed.

(** C5, amended, at a concrete input: en-us is selected at time 1000 and
    en-gb at time 1500. *)
Lemma switching_adds_elapsed_time_to_selected_uptime_example :
  let st := run (loaded ++ [CallSwitchDictionary "en-us" false 0 1000]) newProvider in
  let st' := exec (switchDictionary "en-gb" false 1500 1501) st in
  selectedDictionary st = Some "en-us" /\
  Table.get (spellCheckerTable st) "en-us" = Some entryUS /\
  Table.lookup (spellCheckerTable st) "en-gb" <> Table.Undefined /\
  uptimeOf st' "en-us" = uptimeOf st "en-us" + 500 /\
  selectedDictionary st' = Some "en-gb" /\
  currentSpellCheckerStartTime st' = Some 1501.
Proof.
  intros st st'.
  assert (selectedDictionary st = Some "en-us") as Hsel by reflexivity.
  assert (Table.get (spellCheckerTable st) "en-us" = Some entryUS) as Hus by reflexivity.
  assert (Table.lookup (spellCheckerTable st) "en-gb" <> Table.Undefined) as Hgb.
  { change (Table.lookup (spellCheckerTable st) "en-gb") with (Table.Own entryGB).
    discriminate. }
  split; [exact Hsel|]. split; [exact Hus|]. split; [exact Hgb|].
  destruct (proj1 (switching_adds_elapsed_time_to_selected_uptime
                     (loaded ++ [CallSwitchDictionary "en-us" false 0 1000]))
              "en-us" entryUS "en-gb" false 1500 1501 Hsel Hus Hgb)
    as (start & st2 & Hstart & Hrun & _ & Hup & Hkey & Hnow).
  assert (start = 1000) as -> by (injection Hstart as <-; reflexivity).
  assert (st' = st2) as -> by (subst st' st; unfold exec; by rewrite Hrun).
  split; [exact Hup|]. split; [exact Hkey|exact Hnow].
Defined.

(** C7 at a concrete input: en-gb has been selected for 500 ms, en-us for
    none. *)
Lemma availableDictionaries_keys_by_descending_uptime_example :
  let st := run (loaded ++ [CallSwitchDictionary "en-gb" false 0 1000;
                            CallSwitchDictionary "en-us" false 1500 1500]) newProvider in
  NoDup (Table.keys (spellCheckerTable st)) /\
  availableDictionaries st = ["en-gb"; "en-us"] /\
  StronglySorted (uptime_desc st) (availableDictionaries st).
Proof.
  intros st.
  assert (NoDup (Table.keys (spellCheckerTable st))) as H.
  { change (Table.keys (spellCheckerTable st)) with ["en-us"; "en-gb"].
    apply NoDup_cons. split; [|apply NoDup_singleton].
    rewrite list_elem_of_singleton. discriminate. }
  split; [exact H|]. split; [reflexivity|].
  exact (proj1 (proj2 (proj2 (availableDictionaries_keys_by_descending_uptime st H)))).
Defined.

(** C9 at a concrete input: the two files of en-us lie in /dict. *)
Lemma file_load_mounts_per_directory_and_counts_per_file_example :
  let st := run initialized newProvider in
  (hunspellFactory st = true /\ "en-us" <> "" /\
   Table.lookup (spellCheckerTable st) "en-us" = Table.Undefined) /\
  exists st',
    loadDictionary "en-us" (FilePath "/dict/en-US.dic") (FilePath "/dict/en-US.aff") st =
      (inr tt, st') /\
    effects st' = effects st ++
      [MountDirectory "/dict"; MountDirectory "/dict";
       Create "/nodefs/dict/en-US.aff" "/nodefs/dict/en-US.dic"] /\
    (exists mountPoint,
        mountedPath "/dict/en-US.aff" = path_join mountPoint "en-US.aff" /\
        mountedPath "/dict/en-US.dic" = path_join mountPoint "en-US.dic") /\
    refCount st' "/nodefs/dict" = refCount st "/nodefs/dict" + 2.
Proof.
  intros st.
  assert (hunspellFactory st = true) as Hfac by reflexivity.
  assert ("en-us" <> "") as Hkey by discriminate.
  assert (Table.lookup (spellCheckerTable st) "en-us" = Table.Undefined) as Hfresh
    by reflexivity.
  split; [exact (conj Hfac (conj Hkey Hfresh))|].
  destruct (file_load_mounts_per_directory_and_counts_per_file
              initialized "en-us" "/dict/en-US.dic" "/dict/en-US.aff" Hfac Hkey Hfresh)
    as (st' & Hrun & He & _ & _ & Hpoint & _ & Hsame).
  exists st'. split; [exact Hrun|]. split; [exact He|].
  split; [exact (Hpoint eq_refl)|]. exact (Hsame eq_refl).
Defined.

(** C10 at a concrete input: the callback of switchDictionary(en-us, true)
    is installed while en-us and en-gb are loaded. *)
Lemma installed_provider_reads_table_at_each_call_example :
  let st := run (loaded ++ [CallSwitchDictionary "en-us" true 0 1000]) newProvider in
  (webFrameProvider st = Some (provider "en-us" true) /\
   Table.get (spellCheckerTable st) "en-us" = Some entryUS) /\
  (exists verdict asked,
      consults "en-us" "colr" st verdict asked /\
      asked.*1 `prefix_of` otherDictionaries "en-us" st /\
      (verdict = false -> asked.*1 = otherDictionaries "en-us" st)) /\
  (let st3 := exec (unloadDictionary "en-gb") st in
   webFrameProvider st3 = Some (provider "en-us" true) /\
   otherDictionaries "en-us" st3 = []).
Proof.
  intros st.
  assert (webFrameProvider st = Some (provider "en-us" true)) as H by reflexivity.
  assert (Table.get (spellCheckerTable st) "en-us" = Some entryUS) as Hp by reflexivity.
  split; [exact (conj H Hp)|].
  destruct (installed_provider_reads_table_at_each_call
              (loaded ++ [CallSwitchDictionary "en-us" true 0 1000]) "en-us" "colr"
              entryUS H Hp)
    as (Hnow & _ & Hunload).
  split; [exact Hnow|].
  destruct (Hunload "en-gb" entryGB) as (Hw & _ & _); [discriminate|reflexivity|].
  split; [exact Hw|reflexivity].
Defined.

End Examples.

(** * Further properties of the provider *)

Section LoadingFacts.

Context `{factory : HunspellFactory} `{platform : Platform}.

Lemma loadDictionary_uninitialised key dic aff st :
  key <> "" -> Table.lookup (spellCheckerTable st) key = Table.Undefined ->
  sameKind dic aff = true -> hunspellFactory st = false ->
  loadDictionary key dic aff st = (inl TypeError, st).
Proof.
  intros Hk Hget Hkind Hfac.
  destruct dic as [dicPath|dicBuf], aff as [affPath|affBuf]; try done.
  - unfold loadDictionary. unfold bind at 1, this at 1. unfold falsy.
    rewrite bool_decide_eq_false_2 by done. rewrite Hget. simpl.
    by rewrite (bind_inl _ _ _ _ _ (mountFileDictionary_missing _ _ st Hfac)).
  - unfold loadDictionary. unfold bind at 1, this at 1. unfold falsy.
    rewrite bool_decide_eq_false_2 by done. rewrite Hget. simpl.
    by rewrite (bind_inl _ _ _ _ _ (mountBufferDictionary_missing _ _ st Hfac)).
Qed.

(** What a loadDictionary that returns has stored. *)
Lemma loadDictionary_entry key dic aff st st' :
  loadDictionary key dic aff st = (inr tt, st') ->
  exists e,
    spellCheckerTable st' = Table.set key e (spellCheckerTable st) /\
    uptime e = 0 /\
    match dic, aff with
    | FilePath dicFilePath, FilePath affFilePath => e = fileEntry dicFilePath affFilePath
    | Buffer dicBuffer, Buffer affBuffer => e = bufferEntry key dicBuffer affBuffer st
    | _, _ => False
    end /\
    hunspellFactory st' = hunspellFactory st /\ verboseLog st' = verboseLog st.
Proof.
  intros Hrun.
  destruct (loadDictionary_returns _ _ _ _ _ Hrun) as (Hk & _ & Hfac & _).
  pose proof (loadDictionary_returns_fresh _ _ _ _ _ Hrun) as Hget.
  destruct dic as [dicPath|dicBuf], aff as [affPath|affBuf];
    try (rewrite loadDictionary_mixed in Hrun by done; done).
  - revert Hrun.
    unfold loadDictionary, mountFileDictionary, getMountedPath, assignSpellchecker,
      increaseRefCount, useFactory, falsy.
    mrun. rewrite bool_decide_eq_false_2 by done. rewrite Hget. simpl.
    repeat (rewrite Hfac; simpl). intros [= <-]. simpl. by eexists.
  - destruct (loadDictionary_buffer_ok key dicBuf affBuf st Hk Hget Hfac)
      as (st2 & Hrun2 & Ht & _ & _ & _ & _ & Hf & Hv).
    rewrite Hrun in Hrun2. injection Hrun2 as <-. by eexists.
Qed.

End LoadingFacts.

Section ModuleFacts.

Context `{factory : HunspellFactory} `{platform : Platform}.

Lemma preserves_ret {A B} (f : SpellCheckerProvider -> B) (a : A) : preserves f (ret a).
Proof. by intros st. Qed.

Lemma preserves_throw {A B} (f : SpellCheckerProvider -> B) e : preserves f (@throw A e).
Proof. by intros st. Qed.

Lemma preserves_bind {A B C} (f : SpellCheckerProvider -> C) (m : M A) (k : A -> M B) :
  preserves f m -> (forall a, preserves f (k a)) -> preserves f (bind m k).
Proof.
  intros Hm Hk st. unfold bind. specialize (Hm st).
  destruct (m st) as [[e|a] st1]; simpl in *; [done|]. by rewrite Hk.
Qed.

Lemma preserves_this {A C} (f : SpellCheckerProvider -> C)
    (k : SpellCheckerProvider -> M A) :
  (forall s, preserves f (k s)) -> preserves f (bind this k).
Proof. intros Hk st. unfold bind, this. apply Hk. Qed.

Lemma preserves_update {C} (f : SpellCheckerProvider -> C) g :
  (forall s, f (g s) = f s) -> preserves f (update g).
Proof. intros Hg st. apply Hg. Qed.

Create HintDb preserves.

Ltac pr_step :=
  match goal with
  | |- preserves _ (ret _) => apply preserves_ret
  | |- preserves _ (throw _) => apply preserves_throw
  | |- preserves _ (emit _) => apply preserves_update; intros ?; reflexivity
  | |- preserves _ (log _ _) => apply preserves_update; intros ?; reflexivity
  | |- preserves _ (update _) => apply preserves_update; intros ?; reflexivity
  | |- preserves _ (bind this _) => apply preserves_this; intros ?; cbv beta zeta
  | |- preserves _ (bind _ _) => apply preserves_bind; [|intros ?]
  | |- preserves _ (match ?x with _ => _ end) => destruct x eqn:?
  | |- preserves _ _ => solve [auto with preserves]
  end.

Ltac pr := repeat pr_step.

Lemma preserves_useFactory : preserves moduleState useFactory.
Proof. unfold useFactory. pr. Qed.

Lemma preserves_setProvider key cb : preserves moduleState (setProvider key cb).
Proof. unfold setProvider. pr. Qed.

#[local] Hint Resolve preserves_useFactory preserves_setProvider : preserves.

Lemma preserves_switchDictionary key all now1 now2 :
  preserves moduleState (switchDictionary key all now1 now2).
Proof. unfold switchDictionary, attach. pr. Qed.

Lemma preserves_getSuggestion text : preserves moduleState (getSuggestion text).
Proof. unfold getSuggestion. pr. Qed.

Lemma preserves_getMountedPath p : preserves moduleState (getMountedPath p).
Proof. unfold getMountedPath. pr. Qed.

Lemma preserves_mountBufferDictionary d a :
  preserves moduleState (mountBufferDictionary d a).
Proof. unfold mountBufferDictionary. pr. Qed.

#[local] Hint Resolve preserves_getMountedPath preserves_mountBufferDictionary : preserves.

Lemma preserves_mountFileDictionary d a :
  preserves moduleState (mountFileDictionary d a).
Proof. unfold mountFileDictionary. pr. Qed.

Lemma preserves_increaseRefCount p : preserves moduleState (increaseRefCount p).
Proof. unfold increaseRefCount. pr. Qed.

Lemma preserves_decreaseRefCount p : preserves moduleState (decreaseRefCount p).
Proof. unfold decreaseRefCount. pr. Qed.

#[local] Hint Resolve preserves_mountFileDictionary preserves_increaseRefCount
  preserves_decreaseRefCount : preserves.

Lemma preserves_unmountPath p : preserves moduleState (unmountPath p).
Proof. unfold unmountPath. pr. Qed.

#[local] Hint Resolve preserves_unmountPath : preserves.

Lemma preserves_runDispose d : preserves moduleState (runDispose d).
Proof. unfold runDispose. pr. Qed.

Lemma preserves_assignSpellchecker key mounted :
  preserves moduleState (assignSpellchecker key mounted).
Proof. unfold assignSpellchecker. destruct mounted as [[a d] b]. pr. Qed.

#[local] Hint Resolve preserves_runDispose preserves_assignSpellchecker : preserves.

Lemma preserves_loadDictionary key dic aff :
  preserves moduleState (loadDictionary key dic aff).
Proof. unfold loadDictionary. pr. Qed.

Lemma preserves_clearSelection key : preserves moduleState (clearSelection key).
Proof. unfold clearSelection. pr. Qed.

#[local] Hint Resolve preserves_clearSelection : preserves.

Lemma preserves_unloadDictionary key : preserves moduleState (unloadDictionary key).
Proof. unfold unloadDictionary. pr. Qed.

Lemma preserves_spellOthers key text others :
  preserves moduleState (spellOthers key text others).
Proof. induction others as [|k others IH]; simpl; pr. Qed.

#[local] Hint Resolve preserves_spellOthers : preserves.

Lemma preserves_spellCheck cb text : preserves moduleState (spellCheck cb text).
Proof. unfold spellCheck. pr. Qed.

#[local] Hint Resolve preserves_spellCheck preserves_getSuggestion
  preserves_loadDictionary preserves_unloadDictionary preserves_switchDictionary
  : preserves.

(** Only initialize and its resumption touch the engine factory. *)
Lemma preserves_call c :
  match c with
  | CallInitialize | CallModuleSettled _ => True
  | _ => preserves moduleState (call c)
  end.
Proof. destruct c; simpl; try done; pr. Qed.

Lemma call_moduleState c st :
  let st' := exec (call c) st in
  match c with
  | CallInitialize =>
      hunspellFactory st' = hunspellFactory st /\
      loading st' = (if hunspellFactory st then loading st else S (loading st))
  | CallModuleSettled outcome =>
      loading st' = pred (loading st) /\
      hunspellFactory st' =
        match outcome, loading st with
        | Fulfilled, S _ => true
        | _, _ => hunspellFactory st
        end
  | _ => hunspellFactory st' = hunspellFactory st /\ loading st' = loading st
  end.
Proof.
  pose proof (preserves_call c) as H.
  destruct c as [|outcome|b|key dic aff|key|key all now1 now2|text|text];
    try (simpl in H; specialize (H st); unfold moduleState in H; unfold exec; simpl;
         split; [exact (f_equal fst H)|exact (f_equal snd H)]).
  - simpl. unfold initialize. mrun. by destruct (hunspellFactory st) eqn:E; simpl.
  - simpl. unfold initializeResumed. mrun.
    by destruct (loading st) eqn:E; destruct outcome; simpl.
Qed.

Lemma run_snoc cs c st : run (cs ++ [c]) st = exec (call c) (run cs st).
Proof. unfold run. by rewrite foldl_app. Qed.

Lemma run_keeps_factory cs st :
  hunspellFactory st = true -> hunspellFactory (run cs st) = true.
Proof.
  revert st. induction cs as [|c cs IH]; intros st H; [done|].
  simpl. apply IH. pose proof (call_moduleState c st) as Hc. simpl in Hc.
  destruct c as [|outcome| | | | | |]; try (destruct Hc as [-> _]; done).
  destruct Hc as [_ ->]. by destruct outcome, (loading st).
Qed.

(** A factory is there, or awaited, only after the calls that bring it. *)
Lemma run_factory_origin cs :
  let st := run cs newProvider in
  (hunspellFactory st = true ->
   CallInitialize ∈ cs /\ CallModuleSettled Fulfilled ∈ cs) /\
  (loading st <> 0%nat -> CallInitialize ∈ cs).
Proof.
  induction cs as [|c cs IH] using rev_ind; [done|].
  rewrite run_snoc. simpl in IH. destruct IH as [IHf IHl].
  pose proof (call_moduleState c (run cs newProvider)) as Hc. simpl in Hc. simpl.
  assert (forall x : Call, x ∈ cs -> x ∈ cs ++ [c]) as Hin.
  { intros x Hx. apply elem_of_app. by left. }
  assert (c ∈ cs ++ [c]) as Hlast.
  { apply elem_of_app. right. left. }
  destruct c as [|outcome|b|key dic aff|key|key all now1 now2|text|text].
  1:{ destruct Hc as [Hf Hl]. rewrite Hf.
      split; [intros H; destruct (IHf H); auto|done]. }
  1:{ destruct Hc as [Hl Hf]. rewrite Hf, Hl. split.
      - destruct outcome, (loading (run cs newProvider)) eqn:El;
          try (intros H; destruct (IHf H); auto).
        intros _. split; [|done]. apply Hin, IHl. first [by rewrite El|done].
      - intros H. apply Hin, IHl. intros E. by rewrite E in H. }
  all: destruct Hc as [Hf Hl]; rewrite Hf, Hl;
    (split; [intros H; destruct (IHf H); auto|auto]).
Qed.

End ModuleFacts.

Section Lifecycle.

Context `{factory : HunspellFactory} `{platform : Platform}.

(** X1: initialize is an async function of two steps.  With the engine
    module loaded a call returns at once and leaves the provider, its log
    included, exactly as it was.  Without it the call logs one line, asks
    for the module and awaits it: when it has returned to its caller the
    factory is still unset.  The factory is set, and the second line
    logged, when the awaited promise is fulfilled; a later call then
    changes nothing.  When the promise is rejected the rejection is thrown
    on, nothing is logged and the factory stays unset, so that
    loadDictionary still throws.  A call made before an earlier one has
    resumed asks for the module once more.  No step of initialize touches
    the table, the selection, the reference counts or the host; no other
    method touches the factory, a factory that is set stays set over every
    sequence of calls, and a provider has one only after a call of
    initialize and a fulfilled load. *)
Theorem initialize_awaits_the_engine_module (st : SpellCheckerProvider) :
  (hunspellFactory st = true -> initialize st = (inr tt, st)) /\
  (hunspellFactory st = false ->
   exists st1,
     initialize st = (inr tt, st1) /\
     hunspellFactory st1 = false /\
     loading st1 = S (loading st) /\
     effects st1 = effects st ++ [LoadModule] /\
     logged st1 = logged st ++
       [(LogInfo, "Electron-hunspell::loadAsmModule: loading hunspell-asm module")] /\
     (exists st2,
         initializeResumed Fulfilled st1 = (inr tt, st2) /\
         hunspellFactory st2 = true /\
         loading st2 = loading st /\
         effects st2 = effects st1 /\
         logged st2 = logged st1 ++
           [(LogInfo, "Electron-hunspell::loadAsmModule: asm module loaded successfully")] /\
         initialize st2 = (inr tt, st2)) /\
     (forall reason, exists st2,
         initializeResumed (Rejected reason) st1 = (inl reason, st2) /\
         hunspellFactory st2 = false /\
         loading st2 = loading st /\
         effects st2 = effects st1 /\
         logged st2 = logged st1 /\
         forall key dic aff, exists e, loadDictionary key dic aff st2 = (inl e, st2)) /\
     (exists st2,
         initialize st1 = (inr tt, st2) /\
         hunspellFactory st2 = false /\
         loading st2 = S (S (loading st)) /\
         effects st2 = effects st ++ [LoadModule; LoadModule])) /\
  (forall c, c = CallInitialize \/ (exists outcome, c = CallModuleSettled outcome) ->
             let st' := exec (call c) st in
             spellCheckerTable st' = spellCheckerTable st /\
             selectedDictionary st' = selectedDictionary st /\
             currentSpellCheckerStartTime st' = currentSpellCheckerStartTime st /\
             fileMountRefCount st' = fileMountRefCount st /\
             webFrameProvider st' = webFrameProvider st) /\
  (forall c, c <> CallInitialize -> (forall outcome, c <> CallModuleSettled outcome) ->
             hunspellFactory (exec (call c) st) = hunspellFactory st) /\
  (forall cs, hunspellFactory st = true -> hunspellFactory (run cs st) = true) /\
  (forall cs, hunspellFactory (run cs newProvider) = true ->
              CallInitialize ∈ cs /\ CallModuleSettled Fulfilled ∈ cs).
Proof.
  split; [|split; [|split; [|split; [|split]]]].
  - intros H. unfold initialize. mrun. by rewrite H.
  - intros H. eexists. split.
    { unfold initialize. mrun. rewrite H. reflexivity. }
    simpl. do 4 (split; [done|]). split; [|split].
    + eexists. split; [unfold initializeResumed; mrun; reflexivity|]. simpl.
      do 4 (split; [done|]). unfold initialize. by mrun.
    + intros reason. eexists. split; [unfold initializeResumed; mrun; reflexivity|].
      simpl. do 4 (split; [done|]). intros key dic aff.
      match goal with |- exists e, loadDictionary _ _ _ ?s = _ => set (st2 := s) end.
      destruct (loadDictionary key dic aff st2) as [[e|[]] st'] eqn:Hrun.
      * exists e. by rewrite (loadDictionary_throws _ _ _ _ _ _ Hrun).
      * destruct (loadDictionary_returns _ _ _ _ _ Hrun) as (_ & _ & Hfac & _).
        subst st2. simpl in Hfac. congruence.
    + eexists. split; [unfold initialize; mrun; rewrite H; reflexivity|]. simpl.
      do 2 (split; [done|]). by rewrite <- app_assoc.
  - intros c [->|[outcome ->]] st'; subst st'; simpl.
    + unfold initialize. mrun. by destruct (hunspellFactory st).
    + unfold initializeResumed. mrun. destruct (loading st); [done|]. by destruct outcome.
  - intros c H1 H2. pose proof (call_moduleState c st) as Hc. simpl in Hc.
    destruct c as [|outcome| | | | | |]; [done|by destruct (H2 outcome)|..];
      by destruct Hc.
  - intros cs. apply run_keeps_factory.
  - intros cs. apply (run_factory_origin cs).
Qed.

(** X2: the outcomes of loadDictionary, in the order of its checks.  For
    the empty key, and for every key for which [table[key]] is there, be it
    a registered key or a name every object inherits, it throws the
    invalid-key error.  With a good key and sources of two kinds it throws
    the cannot-load error; with a good key, sources of one kind and no
    engine it throws a TypeError.  In each of these cases the provider is
    exactly as before the call.  When it returns, the key was non-empty and
    named no property of the table, own or inherited, the sources were of
    one kind and the engine module had been loaded.  So
    loadDictionary('constructor', ...) throws the invalid-key error on a
    provider with no dictionary. *)
Theorem loadDictionary_outcomes
    (key : string) (dic aff : Source) (st : SpellCheckerProvider) :
  (key = "" \/ Table.lookup (spellCheckerTable st) key <> Table.Undefined ->
   loadDictionary key dic aff st =
     (inl (JsError ("Invalid key: " +:+
                    (if bool_decide (key = "") then "key is empty"
                     else "already registered key"))), st)) /\
  (key <> "" -> Table.lookup (spellCheckerTable st) key = Table.Undefined ->
   sameKind dic aff = false ->
   loadDictionary key dic aff st =
     (inl (JsError "Cannot load dictionary for given parameters"), st)) /\
  (key <> "" -> Table.lookup (spellCheckerTable st) key = Table.Undefined ->
   sameKind dic aff = true -> hunspellFactory st = false ->
   loadDictionary key dic aff st = (inl TypeError, st)) /\
  (forall st', loadDictionary key dic aff st = (inr tt, st') ->
               key <> "" /\
               Table.lookup (spellCheckerTable st) key = Table.Undefined /\
               sameKind dic aff = true /\ hunspellFactory st = true) /\
  (Table.get (spellCheckerTable st) "constructor" = None ->
   loadDictionary "constructor" dic aff st =
     (inl (JsError "Invalid key: already registered key"), st)).
Proof.
  split; [|split; [|split; [|split]]].
  - apply loadDictionary_truthy.
  - intros Hk Hget Hkind. apply loadDictionary_mixed; try done. by destruct dic, aff.
  - apply loadDictionary_uninitialised.
  - intros st' Hrun.
    destruct (loadDictionary_returns _ _ _ _ _ Hrun) as (Hk & _ & Hfac & _).
    pose proof (loadDictionary_returns_fresh _ _ _ _ _ Hrun) as Hfresh.
    repeat split; try done.
    destruct dic, aff; try done; rewrite loadDictionary_mixed in Hrun by done; done.
  - intros Hget.
    rewrite (loadDictionary_truthy "constructor" dic aff st); [done|].
    right. by rewrite (proj2 (TableFacts.lookup_Inherited _ _) (conj Hget eq_refl)).
Qed.

(** X3: what a loadDictionary that returns has done to the table.  The key
    is a new property of the table.  Object.keys lists the keys that were
    there in the order they had, and the new key at its place among them:
    last when it is not an array index, and otherwise before the first key
    that is a larger array index or no array index at all.  Its entry has
    uptime 0, and its disposer is unmountFile for two paths and
    unmountBuffer for two buffers; every other entry is as it was; and the
    selected dictionary, the start time of the selection and the callback
    held by the host are untouched. *)
Theorem loadDictionary_inserts_fresh_entry
    (key : string) (dic aff : Source) (st st' : SpellCheckerProvider) :
  loadDictionary key dic aff st = (inr tt, st') ->
  (key ∉ Table.keys (spellCheckerTable st)) /\
  filter (fun k => k <> key) (Table.keys (spellCheckerTable st')) =
    Table.keys (spellCheckerTable st) /\
  (Table.arrayIndex key = None ->
   Table.keys (spellCheckerTable st') = Table.keys (spellCheckerTable st) ++ [key]) /\
  (exists before after,
      Table.keys (spellCheckerTable st) = before ++ after /\
      Table.keys (spellCheckerTable st') = before ++ key :: after /\
      Forall (fun k => Table.precedes key k = false) before /\
      match after with
      | [] => True
      | k :: _ => Table.precedes key k = true
      end) /\
  (exists e,
      Table.get (spellCheckerTable st') key = Some e /\ uptime e = 0 /\
      match dic, aff with
      | FilePath dicFilePath, FilePath affFilePath =>
          e = fileEntry dicFilePath affFilePath
      | Buffer dicBuffer, Buffer affBuffer =>
          e = bufferEntry key dicBuffer affBuffer st
      | _, _ => False
      end) /\
  (forall k, k <> key ->
             Table.get (spellCheckerTable st') k = Table.get (spellCheckerTable st) k) /\
  selectedDictionary st' = selectedDictionary st /\
  currentSpellCheckerStartTime st' = currentSpellCheckerStartTime st /\
  webFrameProvider st' = webFrameProvider st.
Proof.
  intros Hrun.
  destruct (loadDictionary_returns _ _ _ _ _ Hrun) as (_ & Hget & _ & _ & Hc & Hs & Hw & _).
  destruct (loadDictionary_entry _ _ _ _ _ Hrun) as (e & Ht & Hup & Hkind & _).
  split; [by apply TableFacts.get_None_keys|].
  split; [by rewrite Ht, TableFacts.keys_set_new_others|].
  split; [intros Hidx; by rewrite Ht, TableFacts.keys_set_new_last|].
  split; [rewrite Ht; by apply TableFacts.keys_set_new|].
  split. { exists e. by rewrite Ht, TableFacts.get_set_eq. }
  split. { intros k Hne. by rewrite Ht, TableFacts.get_set_ne. }
  done.
Qed.

End Lifecycle.

Section Mounts.

Context `{factory : HunspellFactory} `{platform : Platform}.

(** X4: loading a dictionary from two buffers, with a non-empty key that
    names no property of the table, own or inherited, and the engine
    initialised, mounts the affix buffer and then the dictionary buffer,
    each by a call of its own, creates the engine instance from the two
    paths those calls returned, and stores an entry whose disposer is
    unmountBuffer for these paths.  The reference counts of directories are
    not touched. *)
Theorem buffer_load_mounts_each_buffer
    (key : string) (dicBuffer affBuffer : ArrayBufferView)
    (st : SpellCheckerProvider) :
  key <> "" ->
  Table.lookup (spellCheckerTable st) key = Table.Undefined ->
  hunspellFactory st = true ->
  let affPath := mountBuffer (length (effects st)) affBuffer in
  let dicPath := mountBuffer (S (length (effects st))) dicBuffer in
  exists st',
    loadDictionary key (Buffer dicBuffer) (Buffer affBuffer) st = (inr tt, st') /\
    effects st' = effects st ++
      [MountBuffer affBuffer; MountBuffer dicBuffer; Create affPath dicPath] /\
    Table.get (spellCheckerTable st') key =
      Some {| spellChecker := create affPath dicPath;
              uptime := 0;
              dispose := unmountBuffer key affPath dicPath (create affPath dicPath) |} /\
    fileMountRefCount st' = fileMountRefCount st.
Proof.
  intros Hkey Hfresh Hfac affPath dicPath.
  unfold loadDictionary, mountBufferDictionary, assignSpellchecker, useFactory, falsy.
  mrun. rewrite bool_decide_eq_false_2 by done. rewrite Hfresh. simpl.
  repeat (rewrite Hfac; simpl). eexists. split; [reflexivity|]. simpl.
  rewrite TableFacts.get_set_eq, length_app, Nat.add_1_r, <- !app_assoc. done.
Qed.

(** X5: unloading a registered dictionary that was loaded from buffers
    asks the engine to unmount its affix buffer, then its dictionary
    buffer, then disposes the engine instance, whatever else is loaded; the
    reference counts of directories are not touched, and the key is no
    longer registered. *)
Theorem buffer_unload_unmounts_both_buffers
    (key : string) (dict : SpellChecker) (owner affPath dicPath : string)
    (h : Hunspell) (st : SpellCheckerProvider) :
  key <> "" ->
  Table.get (spellCheckerTable st) key = Some dict ->
  dispose dict = unmountBuffer owner affPath dicPath h ->
  exists st',
    unloadDictionary key st = (inr tt, st') /\
    effects st' = effects st ++
      (if isSelected key st && bool_decide (process_type = "renderer")
       then [SetSpellCheckProvider key true alwaysTrue] else []) ++
      [Unmount affPath; Unmount dicPath; Dispose h] /\
    fileMountRefCount st' = fileMountRefCount st /\
    Table.get (spellCheckerTable st') key = None.
Proof.
  intros Hkey Hget Hd.
  destruct (unloadDictionary_ok key dict st Hkey Hget) as (st2 & Hrun & _ & Hun).
  set (st1 := if isSelected key st then exec (clearSelection key) st else st) in *.
  assert (fileMountRefCount st1 = fileMountRefCount st /\
          effects st1 = effects st ++
            (if isSelected key st && bool_decide (process_type = "renderer")
             then [SetSpellCheckProvider key true alwaysTrue] else []))
    as (Hr1 & He1).
  { subst st1. destruct (isSelected key st); simpl; [|by rewrite app_nil_r].
    by destruct (clearSelection_fields key st) as (_ & ? & _ & _ & _ & ?). }
  rewrite Hd in Hrun. simpl in Hrun. unfold bind, emit, log, update in Hrun.
  simpl in Hrun. injection Hrun as <-.
  eexists. split; [exact Hun|]. simpl.
  rewrite He1, Hr1, <- !app_assoc. repeat split; try done.
  apply TableFacts.get_delete_eq.
Qed.

(** X6: round trip of load and unload.  In every state reached by a
    sequence of calls, a loadDictionary that returns, followed by
    unloadDictionary of the same key, gives back the dictionary table and
    the table of reference counts as they were before the load, and leaves
    the selection, its start time and the host's callback as they were. *)
Theorem load_then_unload_restores
    (cs : list Call) (key : string) (dic aff : Source)
    (st1 : SpellCheckerProvider) :
  let st := run cs newProvider in
  loadDictionary key dic aff st = (inr tt, st1) ->
  let st2 := exec (unloadDictionary key) st1 in
  spellCheckerTable st2 = spellCheckerTable st /\
  fileMountRefCount st2 = fileMountRefCount st /\
  selectedDictionary st2 = selectedDictionary st /\
  currentSpellCheckerStartTime st2 = currentSpellCheckerStartTime st /\
  webFrameProvider st2 = webFrameProvider st.
Proof.
  intros st Hrun st2.
  assert (wf st) as Hwf by apply wf_run, wf_newProvider.
  assert (wf st1) as Hwf1.
  { pose proof (wf_loadDictionary key dic aff st Hwf) as H.
    unfold exec in H. by rewrite Hrun in H. }
  assert (wf st2) as Hwf2 by by apply wf_unloadDictionary.
  destruct (loadDictionary_returns _ _ _ _ _ Hrun)
    as (Hk & Hfresh & _ & (e & Ht & _) & Hc & Hs & Hw & _).
  destruct (unloadDictionary_unselected key e st1 Hk)
    as (st2' & Hun & Ht2 & Hc2 & Hs2 & Hw2 & _).
  { by rewrite Ht, TableFacts.get_set_eq. }
  { rewrite Hc. intros Hsel.
    destruct (wf_current _ Hwf key Hsel) as (_ & Hlook & _).
    by rewrite (loadDictionary_returns_fresh _ _ _ _ _ Hrun) in Hlook. }
  assert (st2 = st2') as -> by (subst st2; unfold exec; by rewrite Hun).
  assert (spellCheckerTable st2' = spellCheckerTable st) as Htab.
  { by rewrite Ht2, Ht, TableFacts.delete_set_new. }
  split; [done|]. split.
  { apply map_eq. intros d. by rewrite (wf_refs _ Hwf2), (wf_refs _ Hwf), Htab. }
  unfold selectedDictionary. by rewrite Hc2, Hs2, Hw2, Hc, Hs, Hw.
Qed.

(** X7: the table of reference counts in every state reached by a sequence
    of calls.  A directory has a count exactly when some loaded dictionary
    has a file in it; the count is then positive and is the number of files
    of loaded dictionaries in that directory; so no count is ever zero or
    negative, and the table is empty when no loaded dictionary has files. *)
Theorem refcounts_count_files_of_loaded_dictionaries (cs : list Call) :
  let st := run cs newProvider in
  (forall d c, fileMountRefCount st !! d = Some c ->
               0 < c /\ c = refsIn d (spellCheckerTable st)) /\
  (forall d, fileMountRefCount st !! d = None <-> refsIn d (spellCheckerTable st) = 0) /\
  ((forall k c d, Table.get (spellCheckerTable st) k = Some c -> refsOf d c = 0) ->
   fileMountRefCount st = ∅).
Proof.
  intros st.
  assert (wf st) as Hwf by apply wf_run, wf_newProvider.
  assert (forall d, fileMountRefCount st !! d = held (refsIn d (spellCheckerTable st)))
    as Hrefs by apply Hwf.
  split; [|split].
  - intros d c Hc. rewrite Hrefs in Hc. unfold held in Hc.
    pose proof (refsIn_nonneg d (spellCheckerTable st)).
    destruct (refsIn d (spellCheckerTable st) =? 0) eqn:E; [done|].
    apply Z.eqb_neq in E. injection Hc as <-. split; [lia|done].
  - intros d. rewrite Hrefs. unfold held.
    destruct (refsIn d (spellCheckerTable st) =? 0) eqn:E.
    + apply Z.eqb_eq in E. done.
    + apply Z.eqb_neq in E. split; [done|]. intros. done.
  - intros Hnone. apply map_eq. intros d. rewrite lookup_empty, Hrefs.
    rewrite (refsIn_zero d); [done|apply Hwf|]. intros k c. by apply Hnone.
Qed.

End Mounts.

Section SelectionFacts.

Context `{factory : HunspellFactory} `{platform : Platform}.

Lemma same_but_trace_selection st st' :
  same_but_trace st st' ->
  currentSpellCheckerKey st' = currentSpellCheckerKey st /\
  currentSpellCheckerStartTime st' = currentSpellCheckerStartTime st /\
  webFrameProvider st' = webFrameProvider st.
Proof. unfold same_but_trace. by intros ->. Qed.

(** One call keeps the selection and the host's callback in step. *)
Lemma selection_ok_call c st :
  wf st -> selection_ok st -> selection_ok (exec (call c) st).
Proof.
  intros Hwf (Hstart & Hhost & Htrue).
  destruct c as [|outcome|b|key dic aff|key|key all now1 now2|text|text]; simpl.
  - unfold initialize. mrun. by destruct (hunspellFactory st).
  - unfold initializeResumed. mrun. destruct (loading st); [done|]. by destruct outcome.
  - done.
  - unfold exec. destruct (loadDictionary key dic aff st) as [[e|[]] st'] eqn:Hrun; simpl.
    + by rewrite (loadDictionary_throws _ _ _ _ _ _ Hrun).
    + destruct (loadDictionary_returns _ _ _ _ _ Hrun) as (_ & _ & _ & _ & Hc & Hs & Hw & _).
      unfold selection_ok. by rewrite Hc, Hs, Hw.
  - unfold exec.
    destruct (decide (key = "")) as [Hk|Hk].
    { by rewrite unloadDictionary_noop by auto. }
    destruct (Table.lookup (spellCheckerTable st) key) as [dict| |] eqn:Hlook.
    3:{ by rewrite unloadDictionary_noop by auto. }
    2:{ rewrite unloadDictionary_inherited by done. simpl.
        destruct (isSelected key st) eqn:Hsel; [|done].
        unfold selection_ok.
        destruct (clearSelection_fields key st) as (_ & _ & -> & -> & -> & _).
        repeat split; done. }
    apply TableFacts.lookup_Own in Hlook.
    destruct (unloadDictionary_ok key dict st Hk Hlook) as (st2 & _ & Hsame & ->).
    simpl. pose proof (same_but_mounts_fields _ _ Hsame) as (_ & Hc & Hs & Hw & _).
    unfold selection_ok. simpl. rewrite Hc, Hs, Hw.
    destruct (isSelected key st) eqn:Hsel; [|done].
    destruct (clearSelection_fields key st) as (_ & _ & -> & -> & -> & _).
    repeat split; done.
  - unfold exec.
    destruct (decide (key = "")) as [Hk|Hk].
    { by rewrite switchDictionary_throws by auto. }
    destruct (TableFacts.lookup_cases (spellCheckerTable st) key) as [Hu|Hreg].
    { by rewrite switchDictionary_throws by auto. }
    destruct (switchDictionary_ok key all now1 now2 st Hk Hreg)
      as (st' & -> & _ & Hc & Hs & _ & _ & _ & Hw & _).
    { intros k Hcur. by apply (wf_current _ Hwf). }
    simpl. unfold selection_ok. rewrite Hc, Hs, Hw. split; [done|]. split.
    + intros k [= <-] Hren. rewrite bool_decide_eq_true_2 by done. eauto.
    + case_bool_decide as Hren; [done|]. intros Hcb.
      destruct (wf_callback _ Hwf _ Hcb) as [? _]. done.
  - pose proof (getSuggestion_trace text st) as H. unfold exec, bind in *.
    destruct (getSuggestion text st) as [[?|?] st1]; simpl in *;
      destruct (same_but_trace_selection _ _ H) as (Hc & Hs & Hw);
      unfold selection_ok; by rewrite Hc, Hs, Hw.
  - unfold exec, bind at 1, this at 1. destruct (webFrameProvider st) as [cb|] eqn:Hcb.
    + pose proof (spellCheck_trace cb text st) as H. unfold exec, bind in *.
      destruct (spellCheck cb text st) as [[?|?] st1]; simpl in *;
        destruct (same_but_trace_selection _ _ H) as (Hc & Hs & Hw);
        unfold selection_ok; rewrite Hc, Hs, Hw, Hcb; by rewrite Hcb in *.
    + simpl. unfold selection_ok. by rewrite Hcb in *.
Qed.

Lemma selection_ok_run cs st :
  wf st -> selection_ok st -> selection_ok (run cs st).
Proof.
  revert st. induction cs as [|c cs IH]; intros st Hwf Hok; simpl; [done|].
  apply IH; [by apply wf_call|by apply selection_ok_call].
Qed.

End SelectionFacts.

Section Selection.

Context `{factory : HunspellFactory} `{platform : Platform}.

(** X8: the selection in every state reached by a sequence of calls.  The
    registered keys are distinct, none is empty and none is a name every
    object inherits.  A selected key is non-empty and names a property of
    the table: it is a registered key, or it has no entry and is a name
    inherited from Object.prototype, which the guard of switchDictionary
    lets pass; the start time of its selection is an integer.  When no key
    is selected the start time is -Infinity.  The host holds a callback in
    a renderer process only; there, while a key is selected, it holds the
    callback attach built for that key, and it holds the always-correct
    callback only while no key is selected. *)
Theorem selection_is_always_consistent (cs : list Call) :
  let st := run cs newProvider in
  NoDup (Table.keys (spellCheckerTable st)) /\
  Table.get (spellCheckerTable st) "" = None /\
  (forall k, is_Some (Table.get (spellCheckerTable st) k) -> Table.inherited k = false) /\
  (forall k, selectedDictionary st = Some k ->
             k <> "" /\
             (is_Some (Table.get (spellCheckerTable st) k) \/
              Table.get (spellCheckerTable st) k = None /\ Table.inherited k = true) /\
             is_Some (currentSpellCheckerStartTime st)) /\
  (selectedDictionary st = None -> currentSpellCheckerStartTime st = None) /\
  (forall cb, webFrameProvider st = Some cb -> process_type = "renderer") /\
  (forall k all, webFrameProvider st = Some (provider k all) ->
                 selectedDictionary st = Some k) /\
  (forall k, selectedDictionary st = Some k -> process_type = "renderer" ->
             exists all, webFrameProvider st = Some (provider k all)) /\
  (webFrameProvider st = Some alwaysTrue -> selectedDictionary st = None).
Proof.
  intros st.
  assert (wf st) as Hwf by apply wf_run, wf_newProvider.
  assert (selection_ok st) as (Hstart & Hhost & Htrue).
  { apply selection_ok_run; [apply wf_newProvider|]. by repeat split. }
  split; [apply Hwf|]. split; [apply Hwf|]. split; [apply Hwf|]. split.
  { intros k Hsel. destruct (wf_current _ Hwf k Hsel) as (Hk & Hlook & Hs).
    split; [done|]. split; [|done].
    destruct (Table.lookup (spellCheckerTable st) k) as [c| |] eqn:E; [| |done].
    - left. exists c. by apply TableFacts.lookup_Own.
    - right. by apply TableFacts.lookup_Inherited. }
  split; [done|].
  split. { intros cb Hcb. by destruct (wf_callback _ Hwf _ Hcb). }
  split. { intros k all Hcb. destruct (wf_callback _ Hwf _ Hcb) as [_ H]. by apply (H k all). }
  done.
Qed.

(** X9: the callback the host holds, in every state reached by a sequence
    of calls.  The always-correct callback answers true and changes
    nothing.  The key of a callback built by attach is the selected key.
    When that key is registered, a run of the callback returns, for every
    word, and changes nothing but the log and the record of engine calls.
    When it has no entry, it is a name inherited from Object.prototype that
    switchDictionary let pass, and every run of the callback throws a
    TypeError, the provider as it was. *)
Theorem host_callback_throws_for_inherited_key
    (cs : list Call) (text : string) (cb : Callback) :
  let st := run cs newProvider in
  webFrameProvider st = Some cb ->
  (cb = alwaysTrue -> spellCheck cb text st = (inr true, st)) /\
  (forall key all,
      cb = provider key all ->
      selectedDictionary st = Some key /\
      (is_Some (Table.get (spellCheckerTable st) key) ->
       exists verdict st',
         spellCheck cb text st = (inr verdict, st') /\ same_but_trace st st') /\
      (Table.get (spellCheckerTable st) key = None ->
       Table.inherited key = true /\
       spellCheck cb text st = (inl TypeError, st))).
Proof.
  intros st Hcb.
  assert (wf st) as Hwf by apply wf_run, wf_newProvider.
  split; [by intros ->|]. intros key all ->.
  destruct (wf_callback _ Hwf _ Hcb) as [_ Hsel].
  specialize (Hsel key all eq_refl).
  split; [done|]. split.
  - intros [p Hp].
    destruct (spellCheck_provider_spec key all text st p Hp)
      as (v & st' & asked & Hrun & Hs & _).
    by exists v, st'.
  - intros Hget. destruct (wf_current _ Hwf key Hsel) as (_ & Hlook & _). split.
    + unfold Table.lookup in Hlook. rewrite Hget in Hlook.
      by destruct (Table.inherited key).
    + unfold spellCheck. unfold bind, this. by rewrite Hget.
Qed.

(** X10: unloadDictionary in every state reached by a sequence of calls.
    For a key that is empty, registered, or names no property of the
    table, it returns; the key is then no property of the table, and a
    second unloadDictionary of the same key finds nothing to unload, logs
    that and changes nothing else.  For an unregistered key that is a name
    inherited from Object.prototype it throws a TypeError, the table as it
    was and the selection cleared if that key was the selected one; a
    second unloadDictionary of the same key throws again and changes
    nothing. *)
Theorem unloadDictionary_returns_unless_key_is_inherited
    (cs : list Call) (key : string) :
  let st := run cs newProvider in
  (Table.lookup (spellCheckerTable st) key <> Table.Inherited ->
   exists st',
     unloadDictionary key st = (inr tt, st') /\
     Table.lookup (spellCheckerTable st') key = Table.Undefined /\
     unloadDictionary key st' =
       (inr tt, set_logged (logged st' ++ [(LogInfo, "Electron-hunspell::unloadDictionary: not able to find corresponding spellchecker for given key")]) st')) /\
  (Table.lookup (spellCheckerTable st) key = Table.Inherited ->
   exists st',
     unloadDictionary key st = (inl TypeError, st') /\
     spellCheckerTable st' = spellCheckerTable st /\
     selectedDictionary st' =
       (if decide (selectedDictionary st = Some key) then None
        else selectedDictionary st) /\
     unloadDictionary key st' = (inl TypeError, st')).
Proof.
  intros st.
  assert (wf st) as Hwf by apply wf_run, wf_newProvider.
  split.
  - intros Hni.
    destruct (Table.lookup (spellCheckerTable st) key) as [dict| |] eqn:Hlook; [|done|].
    + apply TableFacts.lookup_Own in Hlook.
      assert (key <> "") as Hk.
      { intros ->. by rewrite (wf_nonempty _ Hwf) in Hlook. }
      destruct (unloadDictionary_ok key dict st Hk Hlook) as (st2 & _ & _ & Hun).
      eexists. split; [exact Hun|].
      match goal with |- Table.lookup (spellCheckerTable ?s) _ = _ /\ _ =>
        assert (Table.lookup (spellCheckerTable s) key = Table.Undefined) as Hgone
      end.
      { apply TableFacts.lookup_Undefined. split; [apply TableFacts.get_delete_eq|].
        apply (wf_own _ Hwf). by exists dict. }
      split; [done|]. by apply unloadDictionary_noop; right.
    + eexists. split; [by apply unloadDictionary_noop; right|].
      split; [done|]. by apply unloadDictionary_noop; right.
  - intros Hlook. rewrite (unloadDictionary_inherited key st Hlook).
    assert (key <> "") as Hk.
    { intros ->. apply TableFacts.lookup_Inherited in Hlook as [_ H]. done. }
    eexists. split; [done|].
    unfold selectedDictionary.
    destruct (decide (currentSpellCheckerKey st = Some key)) as [Hsel|Hsel].
    + rewrite (isSelected_true key st Hk Hsel).
      destruct (clearSelection_fields key st) as (Ht & _ & Hc & _).
      split; [done|]. split; [done|].
      rewrite unloadDictionary_inherited by by rewrite Ht.
      rewrite isSelected_false; [done|]. by rewrite Hc.
    + rewrite (isSelected_false key st Hsel). split; [done|]. split; [done|].
      rewrite unloadDictionary_inherited by done. by rewrite (isSelected_false key st Hsel).
Qed.

End Selection.

Section AttachFacts.

Context `{factory : HunspellFactory} `{platform : Platform}.

Lemma accounted_entries now1 st :
  Table.keys (accounted now1 st) = Table.keys (spellCheckerTable st) /\
  forall k c, Table.get (spellCheckerTable st) k = Some c ->
    exists c', Table.get (accounted now1 st) k = Some c' /\
               spellChecker c' = spellChecker c /\ dispose c' = dispose c /\
               (currentSpellCheckerKey st <> Some k -> c' = c).
Proof.
  unfold accounted.
  destruct (currentSpellCheckerStartTime st) as [start|]; [|by eauto 10].
  destruct (currentSpellCheckerKey st) as [k0|]; [|by eauto 10].
  destruct (Table.get (spellCheckerTable st) k0) as [c0|] eqn:H0; [|by eauto 10].
  destruct (falsy k0); [by eauto 10|]. split.
  - apply TableFacts.keys_set_old. eauto.
  - intros k c Hk. destruct (decide (k0 = k)) as [<-|Hne].
    + rewrite TableFacts.get_set_eq. eexists. split; [done|].
      assert (c = c0) as -> by congruence. by repeat split.
    + rewrite TableFacts.get_set_ne by done. eauto 10.
Qed.

Lemma call_spellCheck_exec text st :
  exec (call (CallSpellCheck text)) st =
  match webFrameProvider st with
  | Some cb => exec (spellCheck cb text) st
  | None => st
  end.
Proof.
  unfold exec. simpl. unfold bind at 1, this. simpl.
  destruct (webFrameProvider st) as [cb|]; [|done].
  unfold bind. by destruct (spellCheck cb text st) as [[?|?] ?].
Qed.

Lemma unloadDictionary_gone key st :
  key <> "" ->
  Table.get (spellCheckerTable (exec (unloadDictionary key) st)) key = None.
Proof.
  intros Hk. rewrite unloadDictionary_table by done. apply TableFacts.get_delete_eq.
Qed.

(** What a run of the host's callback leaves, whether it returns or
    throws. *)
Lemma spellCheck_exec_effects cb text st :
  wf st -> webFrameProvider st = Some cb ->
  exists es,
    effects (exec (spellCheck cb text) st) = effects st ++ es /\
    Forall (fun e => ~ attaches e) es /\
    Forall (fun e => isCreate e = false /\ isDispose e = false) es.
Proof.
  intros Hwf Hcb. destruct cb as [key all|].
  2:{ exists []. rewrite app_nil_r. by repeat split. }
  destruct (Table.get (spellCheckerTable st) key) as [p|] eqn:Hp.
  - destruct (spellCheck_provider_spec key all text st p Hp)
      as (v & st' & asked & Hrun & Hs & He & _).
    unfold exec. rewrite Hrun. simpl. rewrite He. eexists. split; [done|]. split.
    + constructor; [by intros []|]. apply Forall_fmap, Forall_forall. by intros ? ? [].
    + constructor; [done|]. apply Forall_fmap, Forall_forall. by intros ? ?.
  - exists []. rewrite app_nil_r. split; [|by split].
    unfold exec, spellCheck, bind, this. by rewrite Hp.
Qed.

(** What getSuggestion leaves, whether it returns or throws. *)
Lemma getSuggestion_exec_effects text st :
  exists es,
    effects (exec (getSuggestion text) st) = effects st ++ es /\
    Forall (fun e => ~ attaches e) es /\
    Forall (fun e => isCreate e = false /\ isDispose e = false) es.
Proof.
  assert ((exists k, currentSpellCheckerKey st = Some k /\
                     Table.lookup (spellCheckerTable st) k = Table.Inherited) \/
          (forall k, currentSpellCheckerKey st = Some k ->
                     Table.lookup (spellCheckerTable st) k <> Table.Inherited))
    as [(k & Hsel & Hlook)|Hok].
  { destruct (currentSpellCheckerKey st) as [k|]; [|right; congruence].
    destruct (Table.lookup (spellCheckerTable st) k) eqn:E;
      [right|left; by exists k|right]; congruence. }
  - exists []. rewrite app_nil_r. split; [|by split].
    unfold exec. by rewrite (getSuggestion_inherited text st k Hsel Hlook).
  - destruct (getSuggestion_spec text st Hok) as (st' & Hrun & Hs & He).
    unfold exec. rewrite Hrun. simpl. rewrite He. eexists. split; [done|].
    destruct (currentSpellCheckerKey st) as [k0|]; [|by repeat constructor].
    destruct (Table.get (spellCheckerTable st) k0); [|by repeat constructor].
    destruct (falsy k0); [by repeat constructor|].
    split; (constructor; [|constructor]); [by intros []|done].
Qed.

Lemma attached_app es1 es2 : attached (es1 ++ es2) = attached es1 ++ attached es2.
Proof. apply omap_app. Qed.

Lemma attached_none es : Forall (fun e => ~ attaches e) es -> attached es = [].
Proof.
  induction 1 as [|e es He _ IH]; [done|].
  destruct e; simpl in He; try tauto; exact IH.
Qed.

(** What one call adds to the calls of setSpellCheckProvider: nothing, or
    in a renderer process one call whose callback the host then holds. *)
Lemma call_attached c st :
  wf st ->
  exists es,
    effects (exec (call c) st) = effects st ++ es /\
    ((attached es = [] /\ webFrameProvider (exec (call c) st) = webFrameProvider st) \/
     (process_type = "renderer" /\
      exists k cb, attached es = [(k, true, cb)] /\
                   webFrameProvider (exec (call c) st) = Some cb /\
                   (cb = alwaysTrue \/ exists all, cb = provider k all))).
Proof.
  intros Hwf.
  destruct c as [|outcome|b|key dic aff|key|key all now1 now2|text|text];
    [simpl|simpl|simpl|simpl|simpl|simpl|simpl|].
  - unfold initialize. mrun.
    destruct (hunspellFactory st); simpl; [exists []|exists [LoadModule]];
      rewrite ?app_nil_r; auto.
  - exists []. rewrite app_nil_r. unfold initializeResumed. mrun.
    destruct (loading st); simpl; [auto|]. destruct outcome; simpl; auto.
  - exists []. rewrite app_nil_r. auto.
  - unfold exec. destruct (loadDictionary key dic aff st) as [[e|[]] st'] eqn:Hrun; simpl.
    + rewrite (loadDictionary_throws _ _ _ _ _ _ Hrun). exists []. rewrite app_nil_r. auto.
    + destruct (loadDictionary_returns _ _ _ _ _ Hrun)
        as (_ & _ & _ & _ & _ & _ & Hw & es & He & Hes).
      exists es. split; [done|]. left. split; [by apply attached_none|done].
  - unfold exec.
    destruct (decide (key = "")) as [Hk|Hk].
    { rewrite unloadDictionary_noop by auto. exists []. rewrite app_nil_r. auto. }
    destruct (Table.lookup (spellCheckerTable st) key) as [dict| |] eqn:Hlook.
    3:{ rewrite unloadDictionary_noop by auto. exists []. rewrite app_nil_r. auto. }
    2:{ rewrite unloadDictionary_inherited by done. simpl.
        destruct (isSelected key st) eqn:Hsel.
        2:{ exists []. rewrite app_nil_r. auto. }
        destruct (clearSelection_fields key st) as (_ & _ & _ & _ & -> & ->).
        case_bool_decide as Hren.
        - eexists. split; [done|]. right. split; [done|].
          exists key, alwaysTrue. repeat split; auto.
        - exists []. auto. }
    apply TableFacts.lookup_Own in Hlook.
    destruct (unloadDictionary_ok key dict st Hk Hlook) as (st2 & Hdisp & Hsame & ->).
    simpl. destruct (runDispose_effects _ _ _ Hdisp) as (es & He & Hes).
    pose proof (same_but_mounts_fields _ _ Hsame) as (_ & _ & _ & Hw & _).
    rewrite He, Hw. clear He Hw Hdisp Hsame.
    destruct (isSelected key st) eqn:Hsel.
    + destruct (clearSelection_fields key st) as (_ & _ & _ & _ & -> & ->).
      case_bool_decide as Hren.
      * exists (SetSpellCheckProvider key true alwaysTrue :: es).
        split; [by rewrite <- app_assoc|]. right. split; [done|].
        exists key, alwaysTrue. change (attached (SetSpellCheckProvider key true alwaysTrue :: es))
          with ((key, true, alwaysTrue) :: attached es).
        rewrite (attached_none es Hes). repeat split; auto.
      * exists es. rewrite app_nil_r. split; [done|]. left.
        split; [by apply attached_none|done].
    + exists es. split; [done|]. left. split; [by apply attached_none|done].
  - unfold exec.
    destruct (decide (key = "")) as [Hk|Hk].
    { rewrite switchDictionary_throws by auto. exists []. rewrite app_nil_r. auto. }
    destruct (TableFacts.lookup_cases (spellCheckerTable st) key) as [Hu|Hreg].
    { rewrite switchDictionary_throws by auto. exists []. rewrite app_nil_r. auto. }
    destruct (switchDictionary_ok key all now1 now2 st Hk Hreg)
      as (st' & -> & _ & _ & _ & _ & _ & _ & Hw & He).
    { intros k Hcur. by apply (wf_current _ Hwf). }
    simpl. rewrite He, Hw. eexists. split; [done|].
    case_bool_decide as Hren.
    + right. split; [done|]. exists key, (provider key all).
      repeat split; eauto.
    + by left.
  - destruct (getSuggestion_exec_effects text st) as (es & He & Hes & _).
    pose proof (getSuggestion_trace text st) as Hs.
    destruct (same_but_trace_selection _ _ Hs) as (_ & _ & Hw).
    unfold exec in *. unfold bind.
    destruct (getSuggestion text st) as [[?|?] st1]; simpl in *;
      exists es; (split; [done|]); left; (split; [by apply attached_none|done]).
  - rewrite (call_spellCheck_exec text st).
    destruct (webFrameProvider st) as [cb|] eqn:Hcb.
    2:{ exists []. rewrite app_nil_r. auto. }
    destruct (spellCheck_exec_effects cb text st Hwf Hcb) as (es & He & Hes & _).
    pose proof (spellCheck_trace cb text st) as Hs.
    destruct (same_but_trace_selection _ _ Hs) as (_ & _ & Hw).
    exists es. split; [done|]. left. split; [by apply attached_none|]. by rewrite Hw.
Qed.

End AttachFacts.

Section Switching.

Context `{factory : HunspellFactory} `{platform : Platform}.

(** X11: switchDictionary to a registered key, in a state reached by a
    sequence of calls, returns and touches the dictionaries in their uptime
    only: the keys keep their order, every entry keeps its engine instance
    and its disposer, every entry but the one selected before is unchanged,
    and the reference counts are unchanged.  The key becomes the selected
    one and the second reading of the clock the start time.  Nothing is
    asked of the engine: the only effect is the call of
    setSpellCheckProvider, made in a renderer process only, and the host
    then holds the callback built for the key. *)
Theorem switchDictionary_changes_selection_and_uptime_only
    (cs : list Call) (key : string) (all : bool) (now1 now2 : Z) :
  let st := run cs newProvider in
  key <> "" ->
  is_Some (Table.get (spellCheckerTable st) key) ->
  exists st',
    switchDictionary key all now1 now2 st = (inr tt, st') /\
    selectedDictionary st' = Some key /\
    currentSpellCheckerStartTime st' = Some now2 /\
    Table.keys (spellCheckerTable st') = Table.keys (spellCheckerTable st) /\
    (forall k c, Table.get (spellCheckerTable st) k = Some c ->
       exists c', Table.get (spellCheckerTable st') k = Some c' /\
                  spellChecker c' = spellChecker c /\ dispose c' = dispose c /\
                  (selectedDictionary st <> Some k -> c' = c)) /\
    fileMountRefCount st' = fileMountRefCount st /\
    hunspellFactory st' = hunspellFactory st /\
    verboseLog st' = verboseLog st /\
    effects st' = effects st ++
      (if bool_decide (process_type = "renderer")
       then [SetSpellCheckProvider key true (provider key all)] else []) /\
    webFrameProvider st' =
      (if bool_decide (process_type = "renderer")
       then Some (provider key all) else None).
Proof.
  intros st Hk Hreg.
  assert (wf st) as Hwf by apply wf_run, wf_newProvider.
  destruct (switchDictionary_ok key all now1 now2 st Hk
              (TableFacts.lookup_is_Some _ _ Hreg))
    as (st' & Hrun & Ht & Hc & Hs & Hr & Hf & Hv & Hw & He).
  { intros k Hcur. by apply (wf_current _ Hwf). }
  destruct (accounted_entries now1 st) as [Hkeys Hent].
  exists st'. rewrite Ht. do 9 (split; [done|]).
  rewrite Hw. case_bool_decide as Hren; [done|].
  destruct (webFrameProvider st) as [cb|] eqn:Hcb; [|done].
  by destruct (wf_callback _ Hwf _ Hcb).
Qed.

(** X12: in every state reached by a sequence of calls, availableDictionaries
    lists the registered keys and nothing else, each once, and never the
    empty key.  A loadDictionary that returns adds its key to the list, and
    after unloadDictionary the key is not in the list, the other keys
    staying. *)
Theorem availableDictionaries_lists_each_registered_key_once (cs : list Call) :
  let st := run cs newProvider in
  NoDup (availableDictionaries st) /\
  (forall k, k ∈ availableDictionaries st <->
             is_Some (Table.get (spellCheckerTable st) k)) /\
  ("" ∉ availableDictionaries st) /\
  (forall key dic aff st',
     loadDictionary key dic aff st = (inr tt, st') ->
     (key ∉ availableDictionaries st) /\
     availableDictionaries st' ≡ₚ key :: availableDictionaries st) /\
  (forall key k,
     k ∈ availableDictionaries (exec (unloadDictionary key) st) <->
     k ∈ availableDictionaries st /\ k <> key).
Proof.
  intros st.
  assert (wf st) as Hwf by apply wf_run, wf_newProvider.
  assert (forall s k, k ∈ availableDictionaries s <->
                      is_Some (Table.get (spellCheckerTable s) k)) as Hmem.
  { intros s k. rewrite availableDictionaries_perm. split.
    - apply TableFacts.keys_get.
    - intros [c Hc]. by apply TableFacts.get_Some_keys in Hc. }
  split. { rewrite availableDictionaries_perm. apply Hwf. }
  split; [apply Hmem|].
  split. { rewrite Hmem, (wf_nonempty _ Hwf). by intros [? ?]. }
  split.
  - intros key dic aff st' Hrun.
    destruct (loadDictionary_returns _ _ _ _ _ Hrun) as (_ & Hfresh & _ & (e & Ht & _) & _).
    split. { rewrite Hmem, Hfresh. by intros [? ?]. }
    by rewrite !availableDictionaries_perm, Ht, TableFacts.keys_set_new_perm.
  - intros key k. rewrite !Hmem.
    destruct (decide (k = key)) as [->|Hne].
    + destruct (decide (key = "")) as [->|Hk].
      * unfold exec. rewrite unloadDictionary_noop by auto. simpl.
        rewrite (wf_nonempty _ Hwf). split; [by intros [? ?]|by intros [[? ?] _]].
      * rewrite unloadDictionary_gone by done. split; [by intros [? ?]|by intros [_ ?]].
    + rewrite unloadDictionary_keeps by done. tauto.
Qed.

(** X13: the calls of webFrame.setSpellCheckProvider made in a sequence of
    calls.  Outside a renderer process none is ever made.  Each passes true
    as its second argument and, as the callback, either the one attach
    built for the language passed with it or the always-correct one; the
    callback of the last call is what the host holds. *)
Theorem setSpellCheckProvider_calls (cs : list Call) :
  let st := run cs newProvider in
  (process_type <> "renderer" -> attached (effects st) = []) /\
  webFrameProvider st = snd <$> last (attached (effects st)) /\
  Forall (fun '(language, autoCorrectWord, cb) =>
            autoCorrectWord = true /\
            (cb = alwaysTrue \/ exists all, cb = provider language all))
         (attached (effects st)).
Proof.
  intros st. subst st.
  induction cs as [|c cs IH] using rev_ind.
  { simpl. split; [done|]. split; [done|]. constructor. }
  unfold run in *. rewrite foldl_app. simpl.
  set (st := foldl (fun s c => exec (call c) s) newProvider cs) in *.
  assert (wf st) as Hwf by apply wf_run, wf_newProvider.
  destruct IH as (Hout & Hlast & Hall).
  destruct (call_attached c st Hwf) as (es & -> & Hes).
  rewrite attached_app.
  destruct Hes as [[-> ->]|(Hren & k & cb & -> & -> & Hcb)].
  - by rewrite app_nil_r.
  - split; [done|]. split; [by rewrite last_snoc|].
    apply Forall_app. split; [done|]. constructor; [by split|constructor].
Qed.

End Switching.

Section Logging.

Context `{factory : HunspellFactory} `{platform : Platform}.

Lemma same_but_logging_fields st st' :
  same_but_logging st st' <->
  hunspellFactory st' = hunspellFactory st /\
  loading st' = loading st /\
  spellCheckerTable st' = spellCheckerTable st /\
  currentSpellCheckerKey st' = currentSpellCheckerKey st /\
  fileMountRefCount st' = fileMountRefCount st /\
  currentSpellCheckerStartTime st' = currentSpellCheckerStartTime st /\
  webFrameProvider st' = webFrameProvider st /\
  effects st' = effects st.
Proof.
  unfold same_but_logging. split.
  - intros H. by rewrite H.
  - destruct st, st'. simpl. by intros (-> & -> & -> & -> & -> & -> & -> & ->).
Qed.

Lemma same_but_logging_refl st : same_but_logging st st.
Proof. by destruct st. Qed.

Lemma logrel_ret {A} (a : A) : logrel (ret a) (ret a).
Proof. by intros st1 st2 H. Qed.

Lemma logrel_throw {A} e : logrel (@throw A e) (throw e).
Proof. by intros st1 st2 H. Qed.

Lemma logrel_bind {A B} (m1 m2 : M A) (k1 k2 : A -> M B) :
  logrel m1 m2 -> (forall a, logrel (k1 a) (k2 a)) ->
  logrel (bind m1 k1) (bind m2 k2).
Proof.
  intros Hm Hk st1 st2 H. unfold bind. destruct (Hm st1 st2 H) as [Hr Hs].
  destruct (m1 st1) as [[e1|a1] s1], (m2 st2) as [[e2|a2] s2]; simpl in *;
    try discriminate.
  - by injection Hr as ->.
  - injection Hr as ->. by apply Hk.
Qed.

Lemma logrel_this {A} (k1 k2 : SpellCheckerProvider -> M A) :
  (forall s1 s2, same_but_logging s1 s2 -> logrel (k1 s1) (k2 s2)) ->
  logrel (bind this k1) (bind this k2).
Proof. intros Hk st1 st2 H. unfold bind, this. simpl. by apply Hk. Qed.

Lemma logrel_update f :
  (forall s1 s2, same_but_logging s1 s2 -> same_but_logging (f s1) (f s2)) ->
  logrel (update f) (update f).
Proof. intros Hf st1 st2 H. split; [done|]. by apply Hf. Qed.

Lemma logrel_emit e : logrel (emit e) (emit e).
Proof.
  apply logrel_update. intros s1 s2 H%same_but_logging_fields.
  apply same_but_logging_fields. simpl. destruct H as (?&?&?&?&?&?&?&->). done.
Qed.

Lemma logrel_log lvl1 msg1 lvl2 msg2 : logrel (log lvl1 msg1) (log lvl2 msg2).
Proof.
  intros s1 s2 H%same_but_logging_fields. split; [done|].
  by apply same_but_logging_fields.
Qed.

Lemma logrel_log_l lvl msg : logrel (log lvl msg) (ret tt).
Proof.
  intros s1 s2 H%same_but_logging_fields. split; [done|].
  by apply same_but_logging_fields.
Qed.

Lemma logrel_log_r lvl msg : logrel (ret tt) (log lvl msg).
Proof.
  intros s1 s2 H%same_but_logging_fields. split; [done|].
  by apply same_but_logging_fields.
Qed.

Create HintDb logrel.

Ltac lr_fields H :=
  let F := fresh "F" in
  pose proof H as F; apply same_but_logging_fields in F;
  destruct F as (?F & ?F & ?F & ?F & ?F & ?F & ?F & ?F);
  repeat match goal with
         | E : _ ?s2 = _ ?s1 |- _ => rewrite !E; clear E
         | E : _ ?s2 = _ ?s1 |- _ => clear E
         end.

Ltac lr_setter :=
  let H := fresh in
  intros ? ? H; apply same_but_logging_fields in H;
  apply same_but_logging_fields; simpl;
  destruct H as (? & ? & ? & ? & ? & ? & ? & ?); repeat split; congruence.

Ltac lr_step :=
  match goal with
  | |- logrel (ret _) (ret _) => apply logrel_ret
  | |- logrel (throw _) (throw _) => apply logrel_throw
  | |- logrel (emit _) (emit _) => apply logrel_emit
  | |- logrel (log _ _) (log _ _) => apply logrel_log
  | |- logrel (log _ _) (ret _) => apply logrel_log_l
  | |- logrel (ret _) (log _ _) => apply logrel_log_r
  | |- logrel (update _) (update _) => apply logrel_update; solve [lr_setter]
  | |- logrel (bind this _) (bind this _) =>
      apply logrel_this; let H := fresh "HR" in intros ? ? H; lr_fields H; cbv beta zeta
  | |- logrel (bind _ _) (bind _ _) => apply logrel_bind; [|intros ?]
  | |- logrel (match ?x with _ => _ end) _ => destruct x eqn:?
  | |- logrel _ (match ?x with _ => _ end) => destruct x eqn:?
  | |- logrel _ _ => solve [auto with logrel]
  end.

Ltac lr := repeat lr_step.

Lemma logrel_useFactory : logrel useFactory useFactory.
Proof. unfold useFactory. lr. Qed.

#[local] Hint Resolve logrel_useFactory : logrel.

Lemma logrel_initialize : logrel initialize initialize.
Proof. unfold initialize. lr. Qed.

Lemma logrel_initializeResumed outcome :
  logrel (initializeResumed outcome) (initializeResumed outcome).
Proof. unfold initializeResumed. lr. Qed.

Lemma logrel_setProvider key cb : logrel (setProvider key cb) (setProvider key cb).
Proof. unfold setProvider. lr. Qed.

#[local] Hint Resolve logrel_setProvider : logrel.

Lemma logrel_switchDictionary key all now1 now2 :
  logrel (switchDictionary key all now1 now2) (switchDictionary key all now1 now2).
Proof. unfold switchDictionary, attach. lr. Qed.

Lemma logrel_getSuggestion text : logrel (getSuggestion text) (getSuggestion text).
Proof. unfold getSuggestion. lr. Qed.

Lemma logrel_mountBufferDictionary d a :
  logrel (mountBufferDictionary d a) (mountBufferDictionary d a).
Proof. unfold mountBufferDictionary. lr. Qed.

Lemma logrel_getMountedPath p : logrel (getMountedPath p) (getMountedPath p).
Proof. unfold getMountedPath. lr. Qed.

#[local] Hint Resolve logrel_getMountedPath logrel_mountBufferDictionary : logrel.

Lemma logrel_mountFileDictionary d a :
  logrel (mountFileDictionary d a) (mountFileDictionary d a).
Proof. unfold mountFileDictionary. lr. Qed.

Lemma logrel_increaseRefCount p : logrel (increaseRefCount p) (increaseRefCount p).
Proof. unfold increaseRefCount. lr. Qed.

Lemma logrel_decreaseRefCount p : logrel (decreaseRefCount p) (decreaseRefCount p).
Proof. unfold decreaseRefCount. lr. Qed.

#[local] Hint Resolve logrel_mountFileDictionary logrel_increaseRefCount
  logrel_decreaseRefCount : logrel.

Lemma logrel_unmountPath p : logrel (unmountPath p) (unmountPath p).
Proof. unfold unmountPath. lr. Qed.

#[local] Hint Resolve logrel_unmountPath : logrel.

Lemma logrel_runDispose d : logrel (runDispose d) (runDispose d).
Proof. unfold runDispose. lr. Qed.

Lemma logrel_assignSpellchecker key mounted :
  logrel (assignSpellchecker key mounted) (assignSpellchecker key mounted).
Proof. unfold assignSpellchecker. destruct mounted as [[a d] b]. lr. Qed.

#[local] Hint Resolve logrel_runDispose logrel_assignSpellchecker : logrel.

Lemma logrel_loadDictionary key dic aff :
  logrel (loadDictionary key dic aff) (loadDictionary key dic aff).
Proof. unfold loadDictionary. lr. Qed.

Lemma logrel_clearSelection key : logrel (clearSelection key) (clearSelection key).
Proof. unfold clearSelection. lr. Qed.

#[local] Hint Resolve logrel_clearSelection : logrel.

Lemma logrel_unloadDictionary key : logrel (unloadDictionary key) (unloadDictionary key).
Proof. unfold unloadDictionary. lr. Qed.

Lemma logrel_spellOthers key text others :
  logrel (spellOthers key text others) (spellOthers key text others).
Proof. induction others as [|k others IH]; simpl; lr. Qed.

#[local] Hint Resolve logrel_spellOthers : logrel.

Lemma logrel_spellCheck cb text : logrel (spellCheck cb text) (spellCheck cb text).
Proof. unfold spellCheck. lr. Qed.

#[local] Hint Resolve logrel_spellCheck logrel_getSuggestion logrel_initialize
  logrel_initializeResumed logrel_loadDictionary logrel_unloadDictionary logrel_switchDictionary : logrel.

Lemma logrel_call c : logrel (call c) (call c).
Proof. destruct c; simpl; lr. Qed.

End Logging.

Section FailureFacts.

Context `{factory : HunspellFactory} `{platform : Platform}.

Lemma run_same_but_logging cs st1 st2 :
  same_but_logging st1 st2 ->
  same_but_logging (run cs st1) (run (withoutVerboseLog cs) st2).
Proof.
  revert st1 st2. induction cs as [|c cs IH]; intros st1 st2 H; [done|].
  assert (forall b, same_but_logging (set_verboseLog b st1) st2) as Hset.
  { intros b. apply same_but_logging_fields in H. by apply same_but_logging_fields. }
  assert (forall c, same_but_logging (exec (call c) st1) (exec (call c) st2)) as Hstep.
  { intros c'. by apply (logrel_call c'). }
  destruct c as [|outcome|b|key dic aff|key|key all now1 now2|text|text]; simpl.
  - apply IH, (Hstep CallInitialize).
  - apply IH, (Hstep (CallModuleSettled outcome)).
  - apply IH, Hset.
  - apply IH, (Hstep (CallLoadDictionary key dic aff)).
  - apply IH, (Hstep (CallUnloadDictionary key)).
  - apply IH, (Hstep (CallSwitchDictionary key all now1 now2)).
  - apply IH, (Hstep (CallGetSuggestion text)).
  - apply IH, (Hstep (CallSpellCheck text)).
Qed.

End FailureFacts.

Section Failures.

Context `{factory : HunspellFactory} `{platform : Platform}.

(** X14: increaseRefCount followed by decreaseRefCount of the same path is
    a round trip: provided the count held for the directory of the path, if
    any, is positive, the two leave the table of counts as it was, change
    nothing but the log, and decreaseRefCount returns the count the
    directory had before, 0 when it had none. *)
Theorem increase_then_decrease_restores_counts
    (p : string) (st : SpellCheckerProvider) :
  (forall c, fileMountRefCount st !! path_dirname p = Some c -> 0 < c) ->
  exists st',
    (increaseRefCount p ;;; decreaseRefCount p) st =
      (inr (default 0 (fileMountRefCount st !! path_dirname p)), st') /\
    fileMountRefCount st' = fileMountRefCount st /\
    st' = set_logged (logged st') st.
Proof.
  intros Hpos. unfold increaseRefCount, decreaseRefCount.
  set (dir := path_dirname p) in *. mrun.
  destruct (fileMountRefCount st !! dir) as [c|] eqn:E.
  - specialize (Hpos c eq_refl).
    replace (c =? 0) with false by (symmetry; apply Z.eqb_neq; lia). simpl.
    rewrite !lookup_insert_eq. simpl.
    replace (0 <? c + 1) with true by (symmetry; apply Z.ltb_lt; lia). simpl.
    rewrite !lookup_insert_eq. simpl.
    replace (c + 1 - 1) with c by lia.
    replace (c =? 0) with false by (symmetry; apply Z.eqb_neq; lia). simpl.
    rewrite !lookup_insert_eq. simpl.
    eexists. split; [reflexivity|]. simpl.
    rewrite !insert_insert_eq, !insert_id by done. split; [done|]. by destruct st.
  - simpl. rewrite !lookup_insert_eq. simpl. rewrite !lookup_insert_eq. simpl.
    rewrite !lookup_delete_eq. simpl.
    eexists. split; [reflexivity|]. simpl.
    rewrite !delete_insert_eq, !delete_id by done. split; [done|]. by destruct st.
Qed.

(** X15: the exceptions the provider raises, in a state reached by a
    sequence of calls, and what each leaves behind.  loadDictionary throws
    the invalid-key error for an empty key and for a key for which
    [table[key]] is there, else the cannot-load error for sources of two
    kinds, else a TypeError when the engine module is not loaded;
    switchDictionary throws the not-available error for an empty key and
    for a key for which [table[key]] is undefined, and for every other key
    it returns.  Each of these leaves the provider exactly as it was, log
    included.  For a name inherited from Object.prototype that has no
    entry, unloadDictionary throws a TypeError after it has cleared the
    selection of that key, getSuggestion throws a TypeError while the name
    is the selected key, and so does a run of the callback the host holds
    for it; the last two change nothing.  The resumption of initialize
    throws the reason its load was rejected with, one call fewer waiting
    and everything else as it was.  The call of initialize itself and the
    verboseLog setter return. *)
Theorem exceptions_raised_by_the_provider (cs : list Call) :
  let st := run cs newProvider in
  (forall key dic aff,
      key = "" \/ Table.lookup (spellCheckerTable st) key <> Table.Undefined ->
      call (CallLoadDictionary key dic aff) st =
        (inl (JsError ("Invalid key: " +:+
                       (if bool_decide (key = "") then "key is empty"
                        else "already registered key"))), st)) /\
  (forall key dic aff,
      key <> "" -> Table.lookup (spellCheckerTable st) key = Table.Undefined ->
      (sameKind dic aff = false ->
       call (CallLoadDictionary key dic aff) st =
         (inl (JsError "Cannot load dictionary for given parameters"), st)) /\
      (sameKind dic aff = true -> hunspellFactory st = false ->
       call (CallLoadDictionary key dic aff) st = (inl TypeError, st))) /\
  (forall key all now1 now2,
      (key = "" \/ Table.lookup (spellCheckerTable st) key = Table.Undefined ->
       call (CallSwitchDictionary key all now1 now2) st =
         (inl (JsError ("Spellchecker dictionary for " +:+ key +:+
                        " is not available, ensure dictionary loaded")), st)) /\
      (key <> "" -> Table.lookup (spellCheckerTable st) key <> Table.Undefined ->
       exists st', call (CallSwitchDictionary key all now1 now2) st = (inr tt, st'))) /\
  (forall key,
      Table.lookup (spellCheckerTable st) key = Table.Inherited ->
      exists st',
        call (CallUnloadDictionary key) st = (inl TypeError, st') /\
        st' = (if isSelected key st then exec (clearSelection key) st else st) /\
        spellCheckerTable st' = spellCheckerTable st /\
        fileMountRefCount st' = fileMountRefCount st /\
        (selectedDictionary st <> Some key -> st' = st)) /\
  (forall text key,
      selectedDictionary st = Some key ->
      Table.get (spellCheckerTable st) key = None ->
      call (CallGetSuggestion text) st = (inl TypeError, st)) /\
  (forall text key all,
      webFrameProvider st = Some (provider key all) ->
      Table.get (spellCheckerTable st) key = None ->
      call (CallSpellCheck text) st = (inl TypeError, st)) /\
  (forall reason,
      loading st <> 0%nat ->
      call (CallModuleSettled (Rejected reason)) st =
        (inl reason, set_loading (pred (loading st)) st)) /\
  (exists st', call CallInitialize st = (inr tt, st')) /\
  (forall value, call (CallSetVerboseLog value) st = (inr tt, set_verboseLog value st)).
Proof.
  intros st.
  assert (wf st) as Hwf by apply wf_run, wf_newProvider.
  assert (forall key, selectedDictionary st = Some key ->
                      Table.get (spellCheckerTable st) key = None ->
                      Table.lookup (spellCheckerTable st) key = Table.Inherited) as Hinh.
  { intros key Hsel Hget. destruct (wf_current _ Hwf key Hsel) as (_ & Hlook & _).
    unfold Table.lookup in *. rewrite Hget in *. by destruct (Table.inherited key). }
  split; [|split; [|split; [|split; [|split; [|split; [|split; [|split]]]]]]].
  - intros key dic aff. apply loadDictionary_truthy.
  - intros key dic aff Hk Hfresh. split.
    + intros Hkind. apply loadDictionary_mixed; try done. by destruct dic, aff.
    + by apply loadDictionary_uninitialised.
  - intros key all now1 now2. split; [apply switchDictionary_throws|].
    intros Hk Hreg.
    destruct (switchDictionary_ok key all now1 now2 st Hk Hreg) as (st' & Hrun & _).
    { intros k Hcur. by apply (wf_current _ Hwf). }
    by exists st'.
  - intros key Hlook. eexists. split; [by apply unloadDictionary_inherited|].
    split; [done|].
    destruct (isSelected key st) eqn:Hsel.
    + destruct (clearSelection_fields key st) as (Ht & Hr & _).
      split; [done|]. split; [done|]. intros Hne.
      by rewrite (isSelected_false key st Hne) in Hsel.
    + done.
  - intros text key Hsel Hget. simpl.
    by rewrite (bind_inl _ _ _ _ _ (getSuggestion_inherited text st key Hsel (Hinh key Hsel Hget))).
  - intros text key all Hcb Hget. simpl. unfold bind at 1, this at 1. rewrite Hcb.
    unfold spellCheck, bind, this. by rewrite Hget.
  - intros reason Hl. simpl. unfold initializeResumed. mrun.
    by destruct (loading st).
  - simpl. unfold initialize. mrun. destruct (hunspellFactory st); by eexists.
  - done.
Qed.

(** X16: the verboseLog flag decides what is logged and nothing else.
    Dropping every assignment to verboseLog from a sequence of calls leaves
    a provider that differs in the flag and the log only: the same
    dictionaries, selection, reference counts, host callback and calls into
    the engine and the host.  From the two states every call ends alike (it
    returns in both or throws the same exception in both), and
    getSuggestion and the callbacks return the same values. *)
Theorem verboseLog_changes_the_log_only (cs : list Call) :
  let st1 := run cs newProvider in
  let st2 := run (withoutVerboseLog cs) newProvider in
  same_but_logging st1 st2 /\
  effects st2 = effects st1 /\
  fileMountRefCount st2 = fileMountRefCount st1 /\
  availableDictionaries st2 = availableDictionaries st1 /\
  selectedDictionary st2 = selectedDictionary st1 /\
  (forall c, (call c st2).1 = (call c st1).1) /\
  (forall text, (getSuggestion text st2).1 = (getSuggestion text st1).1) /\
  (forall cb text, (spellCheck cb text st2).1 = (spellCheck cb text st1).1).
Proof.
  intros st1 st2.
  assert (same_but_logging st1 st2) as H
    by apply run_same_but_logging, same_but_logging_refl.
  pose proof H as (_ & _ & Ht & Hc & Hr & _ & _ & He)%same_but_logging_fields.
  split; [done|]. split; [done|]. split; [done|].
  split. { unfold availableDictionaries. by rewrite Ht. }
  split; [done|].
  split. { intros c. symmetry. by apply (logrel_call c). }
  split. { intros text. symmetry. by apply (logrel_getSuggestion text). }
  intros cb text. symmetry. by apply (logrel_spellCheck cb text).
Qed.

End Failures.

Section InstanceFacts.

Context `{factory : HunspellFactory} `{platform : Platform}.

Lemma created_app es1 es2 : created (es1 ++ es2) = (created es1 + created es2)%nat.
Proof. unfold created. by rewrite List.filter_app, length_app. Qed.

Lemma disposed_app es1 es2 : disposed (es1 ++ es2) = (disposed es1 + disposed es2)%nat.
Proof. unfold disposed. by rewrite List.filter_app, length_app. Qed.

Lemma length_delete key c t :
  NoDup (Table.keys t) -> Table.get t key = Some c ->
  S (length (Table.delete key t)) = length t.
Proof.
  induction t as [|[k c0] t IH]; simpl; [done|].
  intros [Hk Hnd]%NoDup_cons Hget.
  destruct (decide (k = key)) as [->|Hne].
  - by rewrite TableFacts.delete_absent.
  - simpl. by rewrite IH.
Qed.

Lemma unmountPath_instances p st st' :
  unmountPath p st = (inr tt, st') ->
  exists es, effects st' = effects st ++ es /\ created es = 0%nat /\ disposed es = 0%nat.
Proof.
  destruct (decreaseRefCount_total p st) as (r & st1 & Hrun & _ & He).
  unfold unmountPath. rewrite (bind_inr _ _ _ _ _ Hrun).
  destruct (r =? 0); mrun; intros [= <-]; simpl; rewrite He.
  - by eexists.
  - exists []. by rewrite app_nil_r.
Qed.

(** A disposer disposes its instance last, and no other. *)
Lemma runDispose_instances d st st' :
  runDispose d st = (inr tt, st') ->
  exists es, effects st' = effects st ++ es ++ [Dispose (instanceOf d)] /\
             created es = 0%nat /\ disposed es = 0%nat.
Proof.
  destruct d as [a b h|k a b h]; simpl.
  - destruct (unmountPath_total a st) as (st1 & H1 & _).
    destruct (unmountPath_total b st1) as (st2 & H2 & _).
    rewrite (bind_inr _ _ _ _ _ H1), (bind_inr _ _ _ _ _ H2). mrun.
    intros [= <-]. simpl.
    destruct (unmountPath_instances _ _ _ H2) as (es2 & -> & C2 & D2).
    destruct (unmountPath_instances _ _ _ H1) as (es1 & -> & C1 & D1).
    exists (es1 ++ es2). split; [by rewrite <- !app_assoc|].
    rewrite created_app, disposed_app. lia.
  - mrun. intros [= <-]. simpl. exists [Unmount a; Unmount b].
    split; [by rewrite <- !app_assoc|]. done.
Qed.

Lemma loadDictionary_instances key dic aff st st' :
  loadDictionary key dic aff st = (inr tt, st') ->
  exists es, effects st' = effects st ++ es /\ created es = 1%nat /\ disposed es = 0%nat.
Proof.
  intros Hrun.
  destruct (loadDictionary_returns _ _ _ _ _ Hrun) as (Hk & _ & Hfac & _).
  pose proof (loadDictionary_returns_fresh _ _ _ _ _ Hrun) as Hget.
  revert Hrun.
  destruct dic as [dicPath|dicBuf], aff as [affPath|affBuf];
    try (rewrite loadDictionary_mixed by done; done).
  - unfold loadDictionary, mountFileDictionary, getMountedPath, assignSpellchecker,
      increaseRefCount, useFactory, falsy.
    mrun. rewrite bool_decide_eq_false_2 by done. rewrite Hget. simpl.
    repeat (rewrite Hfac; simpl). intros [= <-]. simpl.
    eexists. split; [by rewrite <- !app_assoc|]. done.
  - unfold loadDictionary, mountBufferDictionary, assignSpellchecker, useFactory, falsy.
    mrun. rewrite bool_decide_eq_false_2 by done. rewrite Hget. simpl.
    repeat (rewrite Hfac; simpl). intros [= <-]. simpl.
    eexists. split; [by rewrite <- !app_assoc|]. done.
Qed.

Lemma unloadDictionary_instances key dict st :
  key <> "" ->
  Table.get (spellCheckerTable st) key = Some dict ->
  exists es,
    effects (exec (unloadDictionary key) st) =
      effects st ++ es ++ [Dispose (instanceOf (dispose dict))] /\
    created es = 0%nat /\ disposed es = 0%nat /\
    spellCheckerTable (exec (unloadDictionary key) st) =
      Table.delete key (spellCheckerTable st).
Proof.
  intros Hk Hget.
  destruct (unloadDictionary_ok key dict st Hk Hget) as (st2 & Hdisp & Hsame & Hrun).
  unfold exec. rewrite Hrun. simpl.
  destruct (runDispose_instances _ _ _ Hdisp) as (es & -> & Hc & Hd).
  pose proof (same_but_mounts_fields _ _ Hsame) as (-> & _).
  destruct (isSelected key st).
  - destruct (clearSelection_fields key st) as (-> & _ & _ & _ & _ & ->).
    exists ((if bool_decide (process_type = "renderer")
             then [SetSpellCheckProvider key true alwaysTrue] else []) ++ es).
    split; [by rewrite <- !app_assoc|].
    rewrite created_app, disposed_app, Hc, Hd.
    by destruct (bool_decide (process_type = "renderer")).
  - by exists es.
Qed.

Lemma owns_same key c c' :
  spellChecker c' = spellChecker c -> dispose c' = dispose c ->
  owns key c -> owns key c'.
Proof. unfold owns. by intros -> ->. Qed.

Lemma instances_none es :
  Forall (fun e => isCreate e = false /\ isDispose e = false) es ->
  created es = 0%nat /\ disposed es = 0%nat.
Proof.
  unfold created, disposed.
  induction 1 as [|e es [Hc Hd] _ IH]; [done|]. simpl. by rewrite Hc, Hd.
Qed.

(** One call keeps the count of instances: what it creates and what it
    disposes differ by what it adds to and deletes from the table. *)
Lemma call_instances c st :
  wf st ->
  (forall k e, Table.get (spellCheckerTable st) k = Some e -> owns k e) ->
  let st' := exec (call c) st in
  (exists es, effects st' = effects st ++ es /\
     (created es + length (spellCheckerTable st) =
      disposed es + length (spellCheckerTable st'))%nat) /\
  (forall k e, Table.get (spellCheckerTable st') k = Some e -> owns k e).
Proof.
  intros Hwf Hown.
  assert (forall s, spellCheckerTable s = spellCheckerTable st ->
            forall es, effects s = effects st ++ es ->
            created es = 0%nat /\ disposed es = 0%nat ->
            (exists es, effects s = effects st ++ es /\
               (created es + length (spellCheckerTable st) =
                disposed es + length (spellCheckerTable s))%nat) /\
            (forall k e, Table.get (spellCheckerTable s) k = Some e -> owns k e))
    as Htrace.
  { intros s Hs es He [Hc Hd]. rewrite Hs.
    split; [|done]. exists es. split; [done|]. lia. }
  destruct c as [|outcome|b|key dic aff|key|key all now1 now2|text|text];
    [simpl|simpl|simpl|simpl|simpl|simpl| |].
  - unfold initialize. mrun.
    destruct (hunspellFactory st); simpl;
      [split; [exists []; by rewrite app_nil_r|done]
      |split; [by exists [LoadModule]|done]].
  - unfold initializeResumed. mrun.
    destruct (loading st); simpl; [|destruct outcome; simpl];
      (split; [exists []; by rewrite app_nil_r | done]).
  - split; [|done]. exists []. by rewrite app_nil_r.
  - unfold exec. destruct (loadDictionary key dic aff st) as [[e|[]] st'] eqn:Hrun; simpl.
    + rewrite (loadDictionary_throws _ _ _ _ _ _ Hrun).
      split; [|done]. exists []. by rewrite app_nil_r.
    + destruct (loadDictionary_instances _ _ _ _ _ Hrun) as (es & He & Hc & Hd).
      destruct (loadDictionary_entry _ _ _ _ _ Hrun) as (e & Ht & _ & Hkind & _).
      destruct (loadDictionary_returns _ _ _ _ _ Hrun) as (_ & Hfresh & _).
      rewrite Ht. split.
      * exists es. split; [done|]. rewrite TableFacts.length_set_new by done. lia.
      * intros k e' Hk. destruct (decide (key = k)) as [<-|Hne].
        -- rewrite TableFacts.get_set_eq in Hk. injection Hk as <-.
           destruct dic, aff; try done; by subst e.
        -- rewrite TableFacts.get_set_ne in Hk by done. by apply Hown.
  - destruct (decide (key = "")) as [Hk|Hk].
    { unfold exec. rewrite unloadDictionary_noop by auto. simpl.
      split; [|done]. exists []. by rewrite app_nil_r. }
    destruct (Table.lookup (spellCheckerTable st) key) as [dict| |] eqn:Hlook.
    3:{ unfold exec. rewrite unloadDictionary_noop by auto. simpl.
        split; [|done]. exists []. by rewrite app_nil_r. }
    2:{ unfold exec. rewrite unloadDictionary_inherited by done. simpl.
        destruct (isSelected key st).
        - destruct (clearSelection_fields key st) as (Ht & _ & _ & _ & _ & He).
          apply (Htrace _ Ht _ He).
          by destruct (bool_decide (process_type = "renderer")).
        - split; [|done]. exists []. by rewrite app_nil_r. }
    apply TableFacts.lookup_Own in Hlook.
    destruct (unloadDictionary_instances key dict st Hk Hlook) as (es & He & Hc & Hd & Ht).
    rewrite Ht. split.
    + eexists. split; [exact He|].
      rewrite created_app, disposed_app, Hc, Hd. simpl.
      pose proof (length_delete key dict _ (wf_keys _ Hwf) Hlook). unfold disposed. simpl. lia.
    + intros k e Hke. destruct (decide (key = k)) as [<-|Hne].
      * by rewrite TableFacts.get_delete_eq in Hke.
      * rewrite TableFacts.get_delete_ne in Hke by done. by apply Hown.
  - unfold exec.
    destruct (decide (key = "")) as [Hk|Hk].
    { rewrite switchDictionary_throws by auto. simpl.
      split; [|done]. exists []. by rewrite app_nil_r. }
    destruct (TableFacts.lookup_cases (spellCheckerTable st) key) as [Hu|Hreg].
    { rewrite switchDictionary_throws by auto. simpl.
      split; [|done]. exists []. by rewrite app_nil_r. }
    destruct (switchDictionary_ok key all now1 now2 st Hk Hreg)
      as (st' & -> & Ht & _ & _ & _ & _ & _ & _ & He).
    { intros k Hcur. by apply (wf_current _ Hwf). }
    simpl. rewrite Ht. destruct (accounted_entries now1 st) as [Hkeys Hent]. split.
    + eexists. split; [exact He|].
      rewrite <- (length_fmap fst (accounted now1 st)).
      change (fst <$> accounted now1 st) with (Table.keys (accounted now1 st)).
      rewrite Hkeys. unfold Table.keys. rewrite length_fmap.
      by destruct (bool_decide (process_type = "renderer")).
    + intros k e Hke.
      destruct (Table.get (spellCheckerTable st) k) as [e0|] eqn:Hk0.
      * destruct (Hent k e0 Hk0) as (e' & He' & Hs & Hd & _).
        assert (e' = e) as -> by congruence.
        by apply (owns_same k e0), Hown.
      * apply TableFacts.get_Some_keys in Hke. rewrite Hkeys in Hke.
        apply TableFacts.keys_get in Hke. rewrite Hk0 in Hke. by destruct Hke.
  - destruct (getSuggestion_exec_effects text st) as (es & He & _ & Hes).
    pose proof (getSuggestion_trace text st) as Hs.
    assert (exec (call (CallGetSuggestion text)) st = exec (getSuggestion text) st) as ->.
    { unfold exec. simpl. unfold bind.
      by destruct (getSuggestion text st) as [[?|?] ?]. }
    apply (Htrace _ (same_but_trace_table _ _ Hs) _ He). by apply instances_none.
  - rewrite (call_spellCheck_exec text st).
    destruct (webFrameProvider st) as [cb|] eqn:Hcb.
    2:{ split; [|done]. exists []. by rewrite app_nil_r. }
    destruct (spellCheck_exec_effects cb text st Hwf Hcb) as (es & He & _ & Hes).
    pose proof (spellCheck_trace cb text st) as Hs.
    apply (Htrace _ (same_but_trace_table _ _ Hs) _ He). by apply instances_none.
Qed.

End InstanceFacts.

Section Instances.

Context `{factory : HunspellFactory} `{platform : Platform}.

(** X17: engine instances are neither leaked nor disposed twice.  In every
    state reached by a sequence of calls, the instances created so far are
    as many as those disposed plus the registered dictionaries, and every
    entry owns its instance: its disposer disposes the very instance the
    entry spells with, which was created from the paths the disposer
    unmounts.  unloadDictionary of a registered key disposes that instance,
    as the last thing it asks of the engine, and disposes no other. *)
Theorem engine_instances_are_owned_and_balanced (cs : list Call) :
  let st := run cs newProvider in
  created (effects st) =
    (disposed (effects st) + length (spellCheckerTable st))%nat /\
  (forall k e, Table.get (spellCheckerTable st) k = Some e -> owns k e) /\
  (forall key dict,
     Table.get (spellCheckerTable st) key = Some dict ->
     exists es,
       effects (exec (unloadDictionary key) st) =
         effects st ++ es ++ [Dispose (spellChecker dict)] /\
       created es = 0%nat /\ disposed es = 0%nat).
Proof.
  intros st.
  assert (wf st) as Hwf by apply wf_run, wf_newProvider.
  assert (created (effects st) =
            (disposed (effects st) + length (spellCheckerTable st))%nat /\
          (forall k e, Table.get (spellCheckerTable st) k = Some e -> owns k e))
    as [Hbal Hown].
  { subst st. clear Hwf. induction cs as [|c cs IH] using rev_ind; [done|].
    unfold run in *. rewrite foldl_app. simpl.
    set (st := foldl (fun s c => exec (call c) s) newProvider cs) in *.
    assert (wf st) as Hwf by apply wf_run, wf_newProvider.
    destruct IH as [Hbal Hown].
    destruct (call_instances c st Hwf Hown) as [(es & He & Hes) Hown'].
    split; [|done]. rewrite He, created_app, disposed_app. lia. }
  split; [done|]. split; [done|].
  intros key dict Hget.
  assert (key <> "") as Hk.
  { intros ->. by rewrite (wf_nonempty _ Hwf) in Hget. }
  destruct (unloadDictionary_instances key dict st Hk Hget) as (es & He & Hc & Hd & _).
  exists es. destruct (Hown key dict Hget) as [<- _]. done.
Qed.

End Instances.

Module MoreExamples.

Import Demo.

(** X3 at a concrete input: with en-us and 10 registered, the key 9 is
    loaded; Object.keys lists it first. *)
Lemma loadDictionary_inserts_fresh_entry_example :
  let st := run (initialized ++
                   [loadUS;
                    CallLoadDictionary "10" (FilePath "/dict/en-GB.dic")
                      (FilePath "/dict/en-GB.aff")]) newProvider in
  let st' := exec (loadDictionary "9" (FilePath "/dict/en-US.dic")
                     (FilePath "/dict/en-US.aff")) st in
  loadDictionary "9" (FilePath "/dict/en-US.dic") (FilePath "/dict/en-US.aff") st =
    (inr tt, st') /\
  Table.keys (spellCheckerTable st) = ["10"; "en-us"] /\
  Table.keys (spellCheckerTable st') = ["9"; "10"; "en-us"] /\
  filter (fun k => k <> "9") (Table.keys (spellCheckerTable st')) =
    Table.keys (spellCheckerTable st) /\
  Table.get (spellCheckerTable st') "9" = Some entryUS.
Proof.
  intros st st'.
  assert (loadDictionary "9" (FilePath "/dict/en-US.dic") (FilePath "/dict/en-US.aff") st =
            (inr tt, st')) as H by (vm_compute; reflexivity).
  split; [exact H|].
  split; [vm_compute; reflexivity|]. split; [vm_compute; reflexivity|].
  destruct (loadDictionary_inserts_fresh_entry _ _ _ _ _ H)
    as (_ & Hkeys & _ & _ & (e & Hget & _ & He) & _).
  split; [exact Hkeys|]. rewrite Hget, He. reflexivity.
Defined.

(** X4 at a concrete input: the dictionary ko is loaded from two buffers
    into an initialised, empty provider. *)
Lemma buffer_load_mounts_each_buffer_example :
  let st := run initialized newProvider in
  ("ko" <> "" /\ Table.lookup (spellCheckerTable st) "ko" = Table.Undefined /\
   hunspellFactory st = true) /\
  exists st',
    loadDictionary "ko" (Buffer dicBytes) (Buffer affBytes) st = (inr tt, st') /\
    effects st' =
      [LoadModule; MountBuffer affBytes; MountBuffer dicBytes;
       Create "/memfs/1" "/memfs/2"].
Proof.
  intros st.
  assert ("ko" <> "") as H1 by discriminate.
  assert (Table.lookup (spellCheckerTable st) "ko" = Table.Undefined) as H2 by reflexivity.
  assert (hunspellFactory st = true) as H3 by reflexivity.
  split; [exact (conj H1 (conj H2 H3))|].
  destruct (buffer_load_mounts_each_buffer "ko" dicBytes affBytes st H1 H2 H3)
    as (st' & Hrun & He & _).
  exists st'. split; [exact Hrun|]. rewrite He. vm_compute. reflexivity.
Defined.

(** X5 at a concrete input: ko, loaded from two buffers, is unloaded while
    no dictionary is selected. *)
Lemma buffer_unload_unmounts_both_buffers_example :
  let st := run (initialized ++ [loadBuffers]) newProvider in
  let dict := bufferEntry "ko" dicBytes affBytes (run initialized newProvider) in
  ("ko" <> "" /\ Table.get (spellCheckerTable st) "ko" = Some dict /\
   dispose dict = unmountBuffer "ko" "/memfs/1" "/memfs/2" (spellChecker dict)) /\
  exists st',
    unloadDictionary "ko" st = (inr tt, st') /\
    effects st' = effects st ++
      [Unmount "/memfs/1"; Unmount "/memfs/2"; Dispose (spellChecker dict)].
Proof.
  intros st dict.
  assert ("ko" <> "") as H1 by discriminate.
  assert (Table.get (spellCheckerTable st) "ko" = Some dict) as H2
    by (vm_compute; reflexivity).
  assert (dispose dict = unmountBuffer "ko" "/memfs/1" "/memfs/2" (spellChecker dict)) as H3
    by (vm_compute; reflexivity).
  split; [exact (conj H1 (conj H2 H3))|].
  destruct (buffer_unload_unmounts_both_buffers "ko" dict _ _ _ _ st H1 H2 H3)
    as (st' & Hrun & He & _).
  exists st'. split; [exact Hrun|]. rewrite He.
  assert (isSelected "ko" st = false) as -> by (vm_compute; reflexivity).
  reflexivity.
Defined.

(** X6 at a concrete input: en-gb is loaded beside en-us, whose files lie
    in the same directory, and unloaded again. *)
Lemma load_then_unload_restores_example :
  let st := run (initialized ++ [loadUS]) newProvider in
  let st1 := run loaded newProvider in
  let st2 := exec (unloadDictionary "en-gb") st1 in
  loadDictionary "en-gb" (FilePath "/dict/en-GB.dic") (FilePath "/dict/en-GB.aff") st =
    (inr tt, st1) /\
  refCount st "/nodefs/dict" = 2 /\
  refCount st1 "/nodefs/dict" = 4 /\
  spellCheckerTable st2 = spellCheckerTable st /\
  fileMountRefCount st2 = fileMountRefCount st.
Proof.
  intros st st1 st2.
  assert (loadDictionary "en-gb" (FilePath "/dict/en-GB.dic") (FilePath "/dict/en-GB.aff") st =
            (inr tt, st1)) as H by (vm_compute; reflexivity).
  split; [exact H|].
  split; [vm_compute; reflexivity|]. split; [vm_compute; reflexivity|].
  destruct (load_then_unload_restores (initialized ++ [loadUS]) "en-gb" _ _ st1 H)
    as (Ht & Hr & _).
  exact (conj Ht Hr).
Defined.

(** X9 at a concrete input: after switchDictionary('constructor') on a new
    provider the host holds a callback that throws for every word. *)
Lemma host_callback_throws_for_inherited_key_example :
  let st := run [CallSwitchDictionary "constructor" false 0 1000] newProvider in
  webFrameProvider st = Some (provider "constructor" false) /\
  selectedDictionary st = Some "constructor" /\
  Table.get (spellCheckerTable st) "constructor" = None /\
  spellCheck (provider "constructor" false) "colour" st = (inl TypeError, st).
Proof.
  intros st.
  assert (webFrameProvider st = Some (provider "constructor" false)) as H
    by (vm_compute; reflexivity).
  assert (Table.get (spellCheckerTable st) "constructor" = None) as Hget
    by (vm_compute; reflexivity).
  split; [exact H|].
  destruct (host_callback_throws_for_inherited_key
              [CallSwitchDictionary "constructor" false 0 1000] "colour" _ H)
    as (_ & Hprov).
  destruct (Hprov "constructor" false eq_refl) as (Hsel & _ & Hthrow).
  split; [exact Hsel|]. split; [exact Hget|]. exact (proj2 (Hthrow Hget)).
Defined.

(** X11 at a concrete input: en-gb is selected at time 1501 while en-us,
    selected at time 1000, has been in use. *)
Lemma switchDictionary_changes_selection_and_uptime_only_example :
  let st := run (loaded ++ [CallSwitchDictionary "en-us" false 0 1000]) newProvider in
  ("en-gb" <> "" /\ is_Some (Table.get (spellCheckerTable st) "en-gb")) /\
  exists st',
    switchDictionary "en-gb" false 1500 1501 st = (inr tt, st') /\
    selectedDictionary st' = Some "en-gb" /\
    Table.keys (spellCheckerTable st') = ["en-us"; "en-gb"] /\
    Table.get (spellCheckerTable st') "en-gb" = Some entryGB /\
    fileMountRefCount st' = fileMountRefCount st /\
    effects st' = effects st ++
      [SetSpellCheckProvider "en-gb" true (provider "en-gb" false)].
Proof.
  intros st.
  assert ("en-gb" <> "") as H1 by discriminate.
  assert (Table.get (spellCheckerTable st) "en-gb" = Some entryGB) as Hgb
    by (vm_compute; reflexivity).
  assert (is_Some (Table.get (spellCheckerTable st) "en-gb")) as H2
    by (exists entryGB; exact Hgb).
  split; [exact (conj H1 H2)|].
  destruct (switchDictionary_changes_selection_and_uptime_only
              (loaded ++ [CallSwitchDictionary "en-us" false 0 1000])
              "en-gb" false 1500 1501 H1 H2)
    as (st' & Hrun & Hsel & _ & Hkeys & Hent & Hrefs & _ & _ & He & _).
  exists st'. split; [exact Hrun|]. split; [exact Hsel|].
  split; [rewrite Hkeys; vm_compute; reflexivity|].
  split.
  { destruct (Hent "en-gb" entryGB Hgb) as (c' & Hc' & _ & _ & Hsame).
    rewrite Hc'. f_equal. apply Hsame. vm_compute. discriminate. }
  split; [exact Hrefs|]. rewrite He. reflexivity.
Defined.

(** X14 at a concrete input: the directory /nodefs/dict holds the four
    files of en-us and en-gb. *)
Lemma increase_then_decrease_restores_counts_example :
  let st := run loaded newProvider in
  fileMountRefCount st !! path_dirname "/nodefs/dict/en-US.aff" = Some 4 /\
  exists st',
    (increaseRefCount "/nodefs/dict/en-US.aff" ;;;
     decreaseRefCount "/nodefs/dict/en-US.aff") st = (inr 4, st') /\
    fileMountRefCount st' = fileMountRefCount st.
Proof.
  intros st.
  assert (fileMountRefCount st !! path_dirname "/nodefs/dict/en-US.aff" = Some 4) as E
    by (vm_compute; reflexivity).
  split; [exact E|].
  assert (forall c, fileMountRefCount st !! path_dirname "/nodefs/dict/en-US.aff" = Some c ->
                    0 < c) as Hpos.
  { intros c Hc. rewrite E in Hc. injection Hc as <-. lia. }
  destruct (increase_then_decrease_restores_counts "/nodefs/dict/en-US.aff" st Hpos)
    as (st' & Hrun & Hr & _).
  rewrite E in Hrun. exists st'. exact (conj Hrun Hr).
Defined.

End MoreExamples.
